(** * Daily-Onchain: the structured-generation pipeline of [src/App.jsx]

    A shallow embedding of the non-visual core of the application: the
    day-to-content assignment, the cascading recovery parser for model
    completions, the retry-bounded generation loop around the day-keyed
    cache, and the streak / history ledger kept in [localStorage].

    Conventions.
    - A JavaScript string is a list of UTF-16 code units ([N]).
    - A thrown [Error] is the left summand of a result, carrying its message.
    - [Date.now()] is an argument [now] (milliseconds since 1970-01-01 UTC);
      one call of a function sees one clock reading.
    - Numbers the application computes with (day indexes, streak counts) are
      integers; they are modelled in [Z], exact while they stay safe integers. *)

From Stdlib Require Import ZArith NArith List Bool Ascii String Lia.
From stdpp Require Import gmap list.
Import ListNotations.

(* ===================================================================== *)
(** ** Strings of UTF-16 code units *)
(* ===================================================================== *)

Module JsStr.

Abbreviation t := (list N).

(** An ASCII literal, code unit by code unit. *)
Definition lit (s : string) : t := map N_of_ascii (list_ascii_of_string s).

(** The same, with every apostrophe standing for the double quote (U+0022),
    so that JSON can be written inline. *)
Definition json (s : string) : t :=
  map (fun a => let c := N_of_ascii a in if (c =? 39)%N then 34%N else c)
      (list_ascii_of_string s).

Definition eqb (a b : t) : bool := bool_decide (a = b).

(** ECMAScript LineTerminator. *)
Definition is_line_terminator (c : N) : bool :=
  ((c =? 10) || (c =? 13) || (c =? 8232) || (c =? 8233))%N.

(** ECMAScript WhiteSpace: TAB, VT, FF, SP, NBSP, ZWNBSP and category Zs. *)
Definition is_white_space (c : N) : bool :=
  ((c =? 9) || (c =? 11) || (c =? 12) || (c =? 32) || (c =? 160) ||
   (c =? 5760) || ((8192 <=? c) && (c <=? 8202)) || (c =? 8239) ||
   (c =? 8287) || (c =? 12288) || (c =? 65279))%N.

(** What the class [\s] matches and what [trim] removes. *)
Definition is_space (c : N) : bool := is_white_space c || is_line_terminator c.

Fixpoint drop_while (p : N -> bool) (s : t) : t :=
  match s with
  | c :: r => if p c then drop_while p r else s
  | [] => []
  end.

Definition trim_with (p : N -> bool) (s : t) : t :=
  rev (drop_while p (rev (drop_while p s))).

(** [String.prototype.trim]. *)
Definition trim (s : t) : t := trim_with is_space s.

(** [s.indexOf(c)] for a one-character needle; [-1] when absent. *)
Fixpoint index_from (c : N) (s : t) (i : Z) : Z :=
  match s with
  | x :: r => if (x =? c)%N then i else index_from c r (i + 1)
  | [] => (-1)%Z
  end.

Definition indexOf (s : t) (c : N) : Z := index_from c s 0.

(** [s.lastIndexOf(c)] for a one-character needle; [-1] when absent. *)
Fixpoint last_index_from (c : N) (s : t) (i : Z) (found : Z) : Z :=
  match s with
  | x :: r => last_index_from c r (i + 1) (if (x =? c)%N then i else found)
  | [] => found
  end.

Definition lastIndexOf (s : t) (c : N) : Z := last_index_from c s 0 (-1).

(** [s.substring(a, b)]: both ends clamped to [0, length], swapped when
    [a > b]. *)
Definition substring (s : t) (a b : Z) : t :=
  let len := Z.of_nat (length s) in
  let a' := Z.min (Z.max a 0) len in
  let b' := Z.min (Z.max b 0) len in
  let lo := Z.min a' b' in
  let hi := Z.max a' b' in
  take (Z.to_nat (hi - lo)) (drop (Z.to_nat lo) s).

(** [s.slice(0, n)] for a non-negative [n]. *)
Definition slice0 (s : t) (n : nat) : t := take n s.

(** [s.includes(needle)]. *)
Fixpoint starts_with (needle s : t) : bool :=
  match needle, s with
  | [], _ => true
  | _ :: _, [] => false
  | a :: needle', b :: s' => (a =? b)%N && starts_with needle' s'
  end.

Fixpoint includes (s needle : t) : bool :=
  starts_with needle s ||
  match s with
  | [] => false
  | _ :: r => includes r needle
  end.

End JsStr.

Abbreviation jsstring := (list N).

(* ===================================================================== *)
(** ** The regular expressions of the source

    A backtracking matcher for the fragment the source uses: sequences of
    single characters, character classes and greedy or lazy repetitions of
    a class, with at most one capture group around one such item.  The
    matcher follows the ECMAScript semantics: alternatives are tried in
    priority order (greedy: longest first, lazy: shortest first) and the
    first that lets the rest of the pattern match wins. *)
(* ===================================================================== *)

Module RegExp.

Inductive atom :=
| Chr (c : N)                    (* a literal character *)
| ChrI (c : N)                   (* a literal character under the i flag *)
| Cls (p : N -> bool)            (* one character of a class *)
| Star (p : N -> bool)           (* class*    greedy *)
| StarLazy (p : N -> bool)       (* class*?   lazy *)
| Plus (p : N -> bool).          (* class+    greedy *)

Inductive item :=
| Plain (a : atom)
| Group (a : atom).              (* ( a ) : capture group 1 *)

Definition regex := list item.

(** Canonicalize of the i flag without the u flag: upper-casing, never
    mapping a character outside ASCII into ASCII. *)
Definition canonicalize (c : N) : N :=
  if ((97 <=? c) && (c <=? 122))%N then (c - 32)%N else c.

Section Matcher.
Context {A : Type}.

Fixpoint star_greedy (p : N -> bool) (k : jsstring -> option A) (s : jsstring)
  : option A :=
  match s with
  | c :: r =>
      if p c then
        match star_greedy p k r with
        | Some x => Some x
        | None => k s
        end
      else k s
  | [] => k []
  end.

Fixpoint star_lazy (p : N -> bool) (k : jsstring -> option A) (s : jsstring)
  : option A :=
  match k s with
  | Some x => Some x
  | None =>
      match s with
      | c :: r => if p c then star_lazy p k r else None
      | [] => None
      end
  end.

Definition m_atom (a : atom) (k : jsstring -> option A) (s : jsstring)
  : option A :=
  match a with
  | Chr c =>
      match s with
      | x :: r => if (x =? c)%N then k r else None
      | [] => None
      end
  | ChrI c =>
      match s with
      | x :: r => if (canonicalize x =? canonicalize c)%N then k r else None
      | [] => None
      end
  | Cls p =>
      match s with
      | x :: r => if p x then k r else None
      | [] => None
      end
  | Star p => star_greedy p k s
  | StarLazy p => star_lazy p k s
  | Plus p =>
      match s with
      | x :: r => if p x then star_greedy p k r else None
      | [] => None
      end
  end.

End Matcher.

(** Matching a whole pattern at the start of [s]: the capture (if the group
    took part) and the text left after the match. *)
Fixpoint m_items (r : regex) (cap : option jsstring) (s : jsstring)
  : option (option jsstring * jsstring) :=
  match r with
  | [] => Some (cap, s)
  | Plain a :: r' => m_atom a (m_items r' cap) s
  | Group a :: r' =>
      m_atom a (fun s' => m_items r' (Some (take (length s - length s') s)) s') s
  end.

(** The result of [RegExp.prototype.exec]: index, matched text, group 1. *)
Record match_result := {
  index : nat;
  matched : jsstring;
  group1 : option jsstring
}.

Fixpoint exec_from (r : regex) (s : jsstring) (i : nat) : option match_result :=
  match m_items r None s with
  | Some (cap, rest) =>
      Some {| index := i; matched := take (length s - length rest) s; group1 := cap |}
  | None =>
      match s with
      | [] => None
      | _ :: s' => exec_from r s' (S i)
      end
  end.

(** [s.match(r)] for a pattern without the g flag. *)
Definition exec (r : regex) (s : jsstring) : option match_result :=
  exec_from r s 0.

(** [s.replace(r, f)] for a pattern with the g flag: every match, left to
    right and without overlap, is replaced by [f matched group1].  An empty
    match advances by one character. *)
Fixpoint replace_loop (fuel : nat) (r : regex)
  (f : jsstring -> option jsstring -> jsstring) (s : jsstring) : jsstring :=
  match fuel with
  | O => s
  | S n =>
      match m_items r None s with
      | Some (cap, rest) =>
          let m := take (length s - length rest) s in
          match m, s with
          | [], c :: s' => f [] cap ++ c :: replace_loop n r f s'
          | [], [] => f [] cap
          | _ :: _, _ => f m cap ++ replace_loop n r f rest
          end
      | None =>
          match s with
          | [] => []
          | c :: s' => c :: replace_loop n r f s'
          end
      end
  end.

Definition replace_all (r : regex)
  (f : jsstring -> option jsstring -> jsstring) (s : jsstring) : jsstring :=
  replace_loop (S (length s)) r f s.

Definition lits (s : jsstring) : regex := map (fun c => Plain (Chr c)) s.

Definition any_char (c : N) : bool := true.
Definition not_quote (c : N) : bool := negb (c =? 34)%N.
(** The dot: anything but a line terminator. *)
Definition dot (c : N) : bool := negb (JsStr.is_line_terminator c).

End RegExp.

(* ===================================================================== *)
(** ** JavaScript values and results *)
(* ===================================================================== *)

#[local] Set Warnings "-register-all".

(** A Number: [NaN], or the decimal [m * 10^e] read exactly.  Integers are
    [Fin n 0]. *)
Inductive num :=
| NaN
| Fin (m e : Z).

Inductive value :=
| VUndef
| VNull
| VBool (b : bool)
| VNum (n : num)
| VStr (s : jsstring)
| VArr (l : list value)
| VObj (o : list (jsstring * value)).

(** A computation that may throw: [inl msg] is a thrown [Error] whose
    [message] is [msg]. *)
Definition result (A : Type) : Type := (jsstring + A)%type.

Definition throw {A : Type} (msg : jsstring) : result A := inl msg.
Definition ret {A : Type} (a : A) : result A := inr a.
Definition bind {A B : Type} (m : result A) (k : A -> result B) : result B :=
  match m with
  | inl e => inl e
  | inr a => k a
  end.

Notation "'let*' x := m 'in' k" := (bind m (fun x => k))
  (at level 10, x name, m at level 100, k at level 200).

Module Js.

(** A decimal that rounds to (plus or minus) zero as a double: it is zero,
    or at most half the least subnormal, [2^-1075]. *)
Definition rounds_to_zero (m e : Z) : bool :=
  ((m =? 0) || ((e <? 0) && (Z.abs m * 2 ^ 1075 <=? 10 ^ (- e))))%Z.

(** ToBoolean. *)
Definition truthy (v : value) : bool :=
  match v with
  | VUndef | VNull => false
  | VBool b => b
  | VNum NaN => false
  | VNum (Fin m e) => negb (rounds_to_zero m e)
  | VStr s => negb (JsStr.eqb s [])
  | VArr _ | VObj _ => true
  end.

Definition nullish (v : value) : bool :=
  match v with
  | VUndef | VNull => true
  | _ => false
  end.

Definition is_digit (c : N) : bool := ((48 <=? c) && (c <=? 57))%N.

Fixpoint decimal (s : jsstring) (acc : nat) : nat :=
  match s with
  | c :: r => decimal r (10 * acc + N.to_nat (c - 48))
  | [] => acc
  end.

(** A property key that is an array index: a canonical decimal numeral. *)
Definition array_index (k : jsstring) : option nat :=
  match k with
  | [] => None
  | c :: r =>
      if forallb is_digit k && (negb (c =? 48)%N || JsStr.eqb r [])
      then Some (decimal k 0) else None
  end.

Fixpoint lookup (o : list (jsstring * value)) (k : jsstring) : value :=
  match o with
  | [] => VUndef
  | (k', v) :: o' => if JsStr.eqb k' k then v else lookup o' k
  end.

(** [o[k] = v] on the property list of an object: an existing key keeps its
    place, a new key goes last. *)
Fixpoint obj_set (o : list (jsstring * value)) (k : jsstring) (v : value)
  : list (jsstring * value) :=
  match o with
  | [] => [(k, v)]
  | (k', v') :: o' =>
      if JsStr.eqb k' k then (k, v) :: o' else (k', v') :: obj_set o' k v
  end.

(** Reading property [k] of a value that is neither [null] nor [undefined]:
    own properties of objects, indexes and [length] of arrays and strings.
    (None of the names the program reads is a method of a built-in
    prototype.) *)
Definition get (v : value) (k : jsstring) : value :=
  match v with
  | VObj o => lookup o k
  | VArr l =>
      match array_index k with
      | Some i => nth i l VUndef
      | None =>
          if JsStr.eqb k (JsStr.lit "length")
          then VNum (Fin (Z.of_nat (length l)) 0) else VUndef
      end
  | VStr s =>
      match array_index k with
      | Some i =>
          match nth_error s i with
          | Some c => VStr [c]
          | None => VUndef
          end
      | None =>
          if JsStr.eqb k (JsStr.lit "length")
          then VNum (Fin (Z.of_nat (length s)) 0) else VUndef
      end
  | _ => VUndef
  end.

Definition type_error_read (v : value) (k : jsstring) : jsstring :=
  JsStr.lit "Cannot read properties of " ++
  (match v with VNull => JsStr.lit "null" | _ => JsStr.lit "undefined" end) ++
  JsStr.lit " (reading '" ++ k ++ JsStr.lit "')".

(** [v.k]: a TypeError on [null] and [undefined]. *)
Definition member (v : value) (k : jsstring) : result value :=
  if nullish v then throw (type_error_read v k) else ret (get v k).

(** [v?.k] and [v?.[k]]. *)
Definition opt_member (v : value) (k : jsstring) : value :=
  if nullish v then VUndef else get v k.

(** [a || b] on values. *)
Definition or_else (a b : value) : value := if truthy a then a else b.

(** The own enumerable properties that object spread [{...v}] copies. *)
Fixpoint indexed {A : Type} (f : A -> value) (l : list A) (i : nat)
  : list (nat * value) :=
  match l with
  | [] => []
  | x :: r => (i, f x) :: indexed f r (S i)
  end.

End Js.

(* ===================================================================== *)
(** ** Integers as text

    The numbers the program reads with [parseInt], adds one to and writes
    with [String] are integers or [NaN], kept here as [option Z].  The code
    holds them in doubles: the two agree as long as the integer and its
    successor are below 2^53 in absolute value, where [parseInt] does not
    round, [+ 1] is exact and [String] writes the decimal numeral.  The
    statements about the value of a count are made for that range. *)
(* ===================================================================== *)

Module JsNum.

Fixpoint dec_digits (fuel : nat) (n : Z) (acc : jsstring) : jsstring :=
  match fuel with
  | O => acc
  | S f =>
      let acc' := (48 + Z.to_N (n mod 10))%N :: acc in
      if (n <? 10)%Z then acc' else dec_digits f (n / 10) acc'
  end.

(** [String(n)] for an integer [n] below 2^53 in absolute value. *)
Definition int_to_string (n : Z) : jsstring :=
  if (n <? 0)%Z
  then 45%N :: dec_digits (S (Z.to_nat (Z.log2 (- n)))) (- n) []
  else dec_digits (S (Z.to_nat (Z.log2 n))) n [].

(** [String(x)] for the result of [parseInt]: an integer, or [NaN]. *)
Definition to_string (x : option Z) : jsstring :=
  match x with
  | Some n => int_to_string n
  | None => JsStr.lit "NaN"
  end.

(** The [w] least significant decimal digits of [n]. *)
Fixpoint fixed_digits (w : nat) (n : Z) : jsstring :=
  match w with
  | O => []
  | S w' => fixed_digits w' (n / 10) ++ [(48 + Z.to_N (n mod 10))%N]
  end.

Definition digit_value (radix : N) (c : N) : option Z :=
  let v :=
    if ((48 <=? c) && (c <=? 57))%N then Some (c - 48)%N
    else if ((97 <=? c) && (c <=? 122))%N then Some (c - 87)%N
    else if ((65 <=? c) && (c <=? 90))%N then Some (c - 55)%N
    else None in
  match v with
  | Some d => if (d <? radix)%N then Some (Z.of_N d) else None
  | None => None
  end.

(** The digits at the start of [s]: their value, or [None] without one. *)
Fixpoint parse_digits (radix : N) (s : jsstring) (acc : option Z) : option Z :=
  match s with
  | c :: r =>
      match digit_value radix c with
      | Some d => parse_digits radix r (Some (Z.of_N radix * default 0%Z acc + d)%Z)
      | None => acc
      end
  | [] => acc
  end.

(** [parseInt(s)] without a radix argument; [None] is [NaN].  The value is
    that of the digits, which is what the code gets below 2^53. *)
Definition parseInt (s : jsstring) : option Z :=
  let s1 := JsStr.drop_while JsStr.is_space s in
  let '(neg, s2) :=
    match s1 with
    | c :: r =>
        if (c =? 45)%N then (true, r)
        else if (c =? 43)%N then (false, r) else (false, s1)
    | [] => (false, s1)
    end in
  let '(radix, s3) :=
    match s2 with
    | a :: b :: r =>
        if ((a =? 48) && ((b =? 120) || (b =? 88)))%N then (16%N, r) else (10%N, s2)
    | _ => (10%N, s2)
    end in
  match parse_digits radix s3 None with
  | Some v => Some (if neg then (- v)%Z else v)
  | None => None
  end.

(** [x + 1] on such a number, exact below 2^53. *)
Definition succ (x : option Z) : option Z :=
  match x with
  | Some n => Some (n + 1)%Z
  | None => None
  end.

End JsNum.

(* ===================================================================== *)
(** ** [JSON.parse]

    A recursive-descent reader of the JSON grammar of ECMA-404 over code
    units.  A JSON text is a value between insignificant white space; the
    white space around the value is dropped first and the value must then
    use up the text.  The wording of a SyntaxError is engine-defined: the
    model keeps the two families of messages. *)
(* ===================================================================== *)

Module JSON.

Inductive error :=
| UnexpectedEnd
| UnexpectedToken (c : N)
| Exhausted.                      (* the reader ran out of fuel: never, see below *)

Definition message (e : error) : jsstring :=
  match e with
  | UnexpectedEnd => JsStr.lit "Unexpected end of JSON input"
  | UnexpectedToken c => JsStr.lit "Unexpected token " ++ [c] ++ JsStr.lit " in JSON"
  | Exhausted => JsStr.lit "JSON text nested too deeply"
  end.

Definition is_ws (c : N) : bool :=
  ((c =? 32) || (c =? 9) || (c =? 10) || (c =? 13))%N.

Definition skip_ws (s : jsstring) : jsstring := JsStr.drop_while is_ws s.

Definition hex_digit (c : N) : option N :=
  if ((48 <=? c) && (c <=? 57))%N then Some (c - 48)%N
  else if ((97 <=? c) && (c <=? 102))%N then Some (c - 87)%N
  else if ((65 <=? c) && (c <=? 70))%N then Some (c - 55)%N
  else None.

Definition hex4 (a b c d : N) : option N :=
  match hex_digit a, hex_digit b, hex_digit c, hex_digit d with
  | Some x, Some y, Some z, Some w => Some (((x * 16 + y) * 16 + z) * 16 + w)%N
  | _, _, _, _ => None
  end.

(** The character a two-character escape stands for. *)
Definition unescape (c : N) : option N :=
  if (c =? 34)%N then Some 34%N
  else if (c =? 92)%N then Some 92%N
  else if (c =? 47)%N then Some 47%N
  else if (c =? 98)%N then Some 8%N
  else if (c =? 102)%N then Some 12%N
  else if (c =? 110)%N then Some 10%N
  else if (c =? 114)%N then Some 13%N
  else if (c =? 116)%N then Some 9%N
  else None.

(** The rest of a string after its opening quote: the characters it
    denotes and the text after the closing quote. *)
Fixpoint lex_string (s : jsstring) (acc : jsstring) : error + (jsstring * jsstring) :=
  match s with
  | [] => inl UnexpectedEnd
  | c :: r =>
      if (c =? 34)%N then inr (rev acc, r)
      else if (c =? 92)%N then
        match r with
        | [] => inl UnexpectedEnd
        | e :: r1 =>
            if (e =? 117)%N then
              match r1 with
              | h1 :: h2 :: h3 :: h4 :: r2 =>
                  match hex4 h1 h2 h3 h4 with
                  | Some u => lex_string r2 (u :: acc)
                  | None => inl (UnexpectedToken h1)
                  end
              | _ => inl UnexpectedEnd
              end
            else
              match unescape e with
              | Some x => lex_string r1 (x :: acc)
              | None => inl (UnexpectedToken e)
              end
        end
      else if (c <? 32)%N then inl (UnexpectedToken c)
      else lex_string r (c :: acc)
  end.

(** A run of digits: its value after [acc], how many there were, the rest. *)
Fixpoint lex_digits (s : jsstring) (acc : Z) (n : Z) : Z * Z * jsstring :=
  match s with
  | c :: r =>
      if Js.is_digit c then lex_digits r (10 * acc + Z.of_N (c - 48)) (n + 1)
      else (acc, n, s)
  | [] => (acc, n, [])
  end.

(** At least one digit, then as many as follow. *)
Definition lex_digits1 (s : jsstring) : error + (Z * Z * jsstring) :=
  match s with
  | [] => inl UnexpectedEnd
  | d :: _ => if Js.is_digit d then inr (lex_digits s 0 0) else inl (UnexpectedToken d)
  end.

Definition lex_int (s : jsstring) : error + (Z * jsstring) :=
  match s with
  | [] => inl UnexpectedEnd
  | d :: r =>
      if (d =? 48)%N then inr (0%Z, r)
      else if Js.is_digit d then
        let '(v, _, r') := lex_digits s 0 0 in inr (v, r')
      else inl (UnexpectedToken d)
  end.

Definition lex_fraction (s : jsstring) : error + (Z * Z * jsstring) :=
  match s with
  | c :: r => if (c =? 46)%N then lex_digits1 r else inr (0%Z, 0%Z, s)
  | [] => inr (0%Z, 0%Z, [])
  end.

Definition lex_exponent (s : jsstring) : error + (Z * jsstring) :=
  match s with
  | c :: r =>
      if ((c =? 101) || (c =? 69))%N then
        let '(neg, r1) :=
          match r with
          | g :: r' =>
              if (g =? 45)%N then (true, r')
              else if (g =? 43)%N then (false, r') else (false, r)
          | [] => (false, r)
          end in
        match lex_digits1 r1 with
        | inl e => inl e
        | inr (v, _, r2) => inr (if neg then (- v)%Z else v, r2)
        end
      else inr (0%Z, s)
  | [] => inr (0%Z, [])
  end.

(** [-? int frac? exp?], read as the decimal it denotes. *)
Definition lex_number (s : jsstring) : error + (num * jsstring) :=
  let '(neg, s1) :=
    match s with
    | c :: r => if (c =? 45)%N then (true, r) else (false, s)
    | [] => (false, s)
    end in
  match lex_int s1 with
  | inl e => inl e
  | inr (ip, s2) =>
      match lex_fraction s2 with
      | inl e => inl e
      | inr (fv, fn, s3) =>
          match lex_exponent s3 with
          | inl e => inl e
          | inr (ex, s4) =>
              let m := (ip * 10 ^ fn + fv)%Z in
              inr (Fin (if neg then - m else m) (ex - fn), s4)
          end
      end
  end.

Definition lex_literal (s : jsstring) : error + (value * jsstring) :=
  if JsStr.starts_with (JsStr.lit "true") s then inr (VBool true, drop 4 s)
  else if JsStr.starts_with (JsStr.lit "false") s then inr (VBool false, drop 5 s)
  else if JsStr.starts_with (JsStr.lit "null") s then inr (VNull, drop 4 s)
  else match s with
       | c :: _ => inl (UnexpectedToken c)
       | [] => inl UnexpectedEnd
       end.

(** [parse_value] reads one value; [parse_elems] continues an array after an
    element, [parse_member] reads the members of an object from a key on.
    Every call is on a text shorter than its caller's, so fuel beyond the
    length of the text is never used up. *)
Fixpoint parse_value (fuel : nat) (s : jsstring) : error + (value * jsstring) :=
  match fuel with
  | O => inl Exhausted
  | S n =>
      match skip_ws s with
      | [] => inl UnexpectedEnd
      | c :: r =>
          if (c =? 123)%N then
            match skip_ws r with
            | [] => inl UnexpectedEnd
            | c1 :: r1 =>
                if (c1 =? 125)%N then inr (VObj [], r1)
                else parse_member n [] (c1 :: r1)
            end
          else if (c =? 91)%N then
            match skip_ws r with
            | [] => inl UnexpectedEnd
            | c1 :: r1 =>
                if (c1 =? 93)%N then inr (VArr [], r1)
                else
                  match parse_value n (c1 :: r1) with
                  | inl e => inl e
                  | inr (v, r2) => parse_elems n [v] r2
                  end
            end
          else if (c =? 34)%N then
            match lex_string r [] with
            | inl e => inl e
            | inr (str, r1) => inr (VStr str, r1)
            end
          else if (c =? 45)%N || Js.is_digit c then
            match lex_number (c :: r) with
            | inl e => inl e
            | inr (x, r1) => inr (VNum x, r1)
            end
          else lex_literal (c :: r)
      end
  end
with parse_elems (fuel : nat) (acc : list value) (s : jsstring)
  : error + (value * jsstring) :=
  match fuel with
  | O => inl Exhausted
  | S n =>
      match skip_ws s with
      | [] => inl UnexpectedEnd
      | c :: r =>
          if (c =? 93)%N then inr (VArr acc, r)
          else if (c =? 44)%N then
            match parse_value n r with
            | inl e => inl e
            | inr (v, r1) => parse_elems n (acc ++ [v]) r1
            end
          else inl (UnexpectedToken c)
      end
  end
with parse_member (fuel : nat) (acc : list (jsstring * value)) (s : jsstring)
  : error + (value * jsstring) :=
  match fuel with
  | O => inl Exhausted
  | S n =>
      match skip_ws s with
      | [] => inl UnexpectedEnd
      | c :: r =>
          if (c =? 34)%N then
            match lex_string r [] with
            | inl e => inl e
            | inr (k, r1) =>
                match skip_ws r1 with
                | [] => inl UnexpectedEnd
                | c1 :: r2 =>
                    if (c1 =? 58)%N then
                      match parse_value n r2 with
                      | inl e => inl e
                      | inr (v, r3) =>
                          let acc' := Js.obj_set acc k v in
                          match skip_ws r3 with
                          | [] => inl UnexpectedEnd
                          | c2 :: r4 =>
                              if (c2 =? 125)%N then inr (VObj acc', r4)
                              else if (c2 =? 44)%N then parse_member n acc' r4
                              else inl (UnexpectedToken c2)
                          end
                      end
                    else inl (UnexpectedToken c1)
                end
            end
          else inl (UnexpectedToken c)
      end
  end.

(** The text without the insignificant white space around its value. *)
Definition trim (s : jsstring) : jsstring := JsStr.trim_with is_ws s.

Definition parse (s : jsstring) : error + value :=
  let t := trim s in
  match parse_value (S (length t)) t with
  | inl e => inl e
  | inr (v, []) => inr v
  | inr (_, c :: r) => inl (UnexpectedToken (hd c (skip_ws (c :: r))))
  end.

(** A serializer in the format of [JSON.stringify]: members whose value is
    [undefined] are left out, [undefined] in an array and [NaN] are written
    [null].  Numbers are written as the decimal they were read from, which
    is the text of [Number.prototype.toString] for the integers below 10^21
    and for a decimal given in its shortest form. *)
Definition hex_char (d : N) : N := (if d <? 10 then 48 + d else 87 + d)%N.

Definition escape_unit (c : N) : jsstring :=
  [92; 117; hex_char (c / 4096); hex_char (c / 256 mod 16);
   hex_char (c / 16 mod 16); hex_char (c mod 16)]%N.

Definition is_high_surrogate (c : N) : bool := ((55296 <=? c) && (c <=? 56319))%N.
Definition is_low_surrogate (c : N) : bool := ((56320 <=? c) && (c <=? 57343))%N.

Fixpoint escape (s : jsstring) : jsstring :=
  match s with
  | [] => []
  | c :: r =>
      if (c =? 34)%N then [92; 34]%N ++ escape r
      else if (c =? 92)%N then [92; 92]%N ++ escape r
      else if (c =? 8)%N then [92; 98]%N ++ escape r
      else if (c =? 12)%N then [92; 102]%N ++ escape r
      else if (c =? 10)%N then [92; 110]%N ++ escape r
      else if (c =? 13)%N then [92; 114]%N ++ escape r
      else if (c =? 9)%N then [92; 116]%N ++ escape r
      else if (c <? 32)%N then escape_unit c ++ escape r
      else if is_high_surrogate c then
        match r with
        | d :: r' =>
            if is_low_surrogate d then c :: d :: escape r'
            else escape_unit c ++ escape r
        | [] => escape_unit c
        end
      else if is_low_surrogate c then escape_unit c ++ escape r
      else c :: escape r
  end.

Definition quote (s : jsstring) : jsstring := [34%N] ++ escape s ++ [34%N].

Fixpoint strip_zeros (rev_digits : jsstring) : jsstring :=
  match rev_digits with
  | c :: r => if (c =? 48)%N then strip_zeros r else rev_digits
  | [] => []
  end.

Definition number_text (n : num) : jsstring :=
  match n with
  | NaN => JsStr.lit "null"
  | Fin m e =>
      if (0 <=? e)%Z then JsNum.int_to_string (m * 10 ^ e)
      else
        let k := Z.to_nat (- e) in
        let a := Z.abs m in
        let frac := rev (strip_zeros (rev (JsNum.fixed_digits k (a mod 10 ^ (- e))))) in
        (if (m <? 0)%Z then [45%N] else []) ++
        JsNum.int_to_string (a / 10 ^ (- e)) ++
        (match frac with [] => [] | _ :: _ => 46%N :: frac end)
  end.

Fixpoint stringify (v : value) : jsstring :=
  match v with
  | VUndef | VNull => JsStr.lit "null"
  | VBool true => JsStr.lit "true"
  | VBool false => JsStr.lit "false"
  | VNum n => number_text n
  | VStr s => quote s
  | VArr l =>
      [91%N] ++
      (fix elems (l : list value) (first : bool) : jsstring :=
         match l with
         | [] => []
         | x :: l' => (if first then [] else [44%N]) ++ stringify x ++ elems l' false
         end) l true ++ [93%N]
  | VObj o =>
      [123%N] ++
      (fix members (o : list (jsstring * value)) (first : bool) : jsstring :=
         match o with
         | [] => []
         | (k, VUndef) :: o' => members o' first
         | (k, x) :: o' =>
             (if first then [] else [44%N]) ++ quote k ++ [58%N] ++ stringify x ++
             members o' false
         end) o true ++ [125%N]
  end.

End JSON.

(* ===================================================================== *)
(** ** [Date] *)
(* ===================================================================== *)

Module JsDate.

Definition msPerDay : Z := 86400000.

(** The day a time value falls in, counted from 1970-01-01 (UTC). *)
Definition Day (t : Z) : Z := (t / msPerDay)%Z.

(** Year, month and day of the month of a day number in the proleptic
    Gregorian calendar.  Days are counted in eras of 400 years that start
    on a first of March: an era has four centuries of 36524 days and one
    more day, a century 25 spans of four years of 1461 days less its last
    day, a span four years of 365 days and one more day. *)
Definition civil_from_days (n : Z) : Z * Z * Z :=
  (let z := n + 719468 in
   let era := z / 146097 in
   let doe := z mod 146097 in
   let c := Z.min (doe / 36524) 3 in
   let doc := doe - 36524 * c in
   let q := doc / 1461 in
   let doq := doc mod 1461 in
   let y4 := Z.min (doq / 365) 3 in
   let doy := doq - 365 * y4 in
   let yoe := 100 * c + 4 * q + y4 in
   let mp := (5 * doy + 2) / 153 in
   let d := doy - (153 * mp + 2) / 5 + 1 in
   let m := if mp <? 10 then mp + 3 else mp - 9 in
   let y := yoe + era * 400 in
   (if m <=? 2 then y + 1 else y, m, d))%Z.

(** The day number of a calendar date. *)
Definition days_from_civil (y m d : Z) : Z :=
  (let y' := if m <=? 2 then y - 1 else y in
   let era := y' / 400 in
   let yoe := y' mod 400 in
   let mp := if m <=? 2 then m + 9 else m - 3 in
   let doy := (153 * mp + 2) / 5 + d - 1 in
   let doe := yoe * 365 + yoe / 4 - yoe / 100 + doy in
   era * 146097 + doe - 719468)%Z.

(** [new Date(iso)] for a date-only form [YYYY-MM-DD]: midnight UTC. *)
Definition of_date (y m d : Z) : Z := (days_from_civil y m d * msPerDay)%Z.

(** The year as [toISOString] writes it: four digits from 0 to 9999, else a
    sign and six digits. *)
Definition iso_year (y : Z) : jsstring :=
  if ((0 <=? y) && (y <=? 9999))%Z then JsNum.fixed_digits 4 y
  else (if (y <? 0)%Z then 45%N else 43%N) :: JsNum.fixed_digits 6 (Z.abs y).

Definition iso_date (n : Z) : jsstring :=
  let '(y, m, d) := civil_from_days n in
  iso_year y ++ [45%N] ++ JsNum.fixed_digits 2 m ++ [45%N] ++ JsNum.fixed_digits 2 d.

Definition iso_time (ms : Z) : jsstring :=
  (JsNum.fixed_digits 2 (ms / 3600000) ++ [58%N] ++
   JsNum.fixed_digits 2 (ms / 60000 mod 60) ++ [58%N] ++
   JsNum.fixed_digits 2 (ms / 1000 mod 60) ++ [46%N] ++
   JsNum.fixed_digits 3 (ms mod 1000))%Z.

(** [new Date(t).toISOString()]. *)
Definition toISOString (t : Z) : jsstring :=
  iso_date (Day t) ++ [84%N] ++ iso_time (t mod msPerDay)%Z ++ [90%N].

End JsDate.

(* ===================================================================== *)
(** ** GEMINI API HELPER: the recovery parser (lines 32-99) *)
(* ===================================================================== *)

Import RegExp.

(** [/```json\s*/gi] *)
Definition fence_json_re : regex :=
  map (fun c => Plain (ChrI c)) (JsStr.lit "```json") ++ [Plain (Star JsStr.is_space)].

(** [/```\s*/g] *)
Definition fence_re : regex :=
  lits (JsStr.lit "```") ++ [Plain (Star JsStr.is_space)].

(** [/\{[\s\S]*\}/] *)
Definition object_re : regex :=
  [Plain (Chr 123); Plain (Star any_char); Plain (Chr 125)].

(** [/Q([^Q]*?)Q/g], writing Q for the double quote *)
Definition quoted_re : regex :=
  [Plain (Chr 34); Group (StarLazy not_quote); Plain (Chr 34)].

(** [/\n/g] and [/\r/g] *)
Definition newline_re : regex := [Plain (Chr 10)].
Definition return_re : regex := [Plain (Chr 13)].

(** [/QnameQ\s*:\s*Q([^Q]+)Q/], writing Q for the double quote *)
Definition string_field_re (name : string) : regex :=
  lits ([34%N] ++ JsStr.lit name ++ [34%N]) ++
  [Plain (Star JsStr.is_space); Plain (Chr 58); Plain (Star JsStr.is_space);
   Plain (Chr 34); Group (Plus not_quote); Plain (Chr 34)].

(** [/QnameQ\s*:\s*\[(.*?)\]/], writing Q for the double quote *)
Definition array_field_re (name : string) : regex :=
  lits ([34%N] ++ JsStr.lit name ++ [34%N]) ++
  [Plain (Star JsStr.is_space); Plain (Chr 58); Plain (Star JsStr.is_space);
   Plain (Chr 91); Group (StarLazy dot); Plain (Chr 93)].

Definition erase (m : jsstring) (g : option jsstring) : jsstring := [].

(** Line 35: the fence markers removed, then [trim]. *)
Definition strip_fences (raw : jsstring) : jsstring :=
  JsStr.trim (replace_all fence_re erase (replace_all fence_json_re erase raw)).

(** Lines 35-41: the text the first attempt parses. *)
Definition cleaned1 (raw : jsstring) : jsstring :=
  let cleaned := strip_fences raw in
  match exec object_re cleaned with
  | Some jsonMatch => matched jsonMatch
  | None => cleaned
  end.

(** Lines 60-64: the callback of the replacement over quoted spans. *)
Definition fix_quoted (m : jsstring) (content : option jsstring) : jsstring :=
  let fixed :=
    replace_all return_re erase
      (replace_all newline_re (fun _ _ => [32%N]) (default [] content)) in
  [34%N] ++ fixed ++ [34%N].

(** Lines 51-64: the text the second attempt parses. *)
Definition cleaned2 (raw : jsstring) : jsstring :=
  let cleaned := cleaned1 raw in
  let startIdx := JsStr.indexOf cleaned 123 in
  let endIdx := JsStr.lastIndexOf cleaned 125 in
  let cleaned :=
    if negb (startIdx =? -1)%Z && negb (endIdx =? -1)%Z
    then JsStr.substring cleaned startIdx (endIdx + 1)
    else cleaned in
  replace_all quoted_re fix_quoted cleaned.

(** Lines 74-79: the six extractions, each the capture of its pattern. *)
Definition extract (r : regex) (cleaned : jsstring) : option jsstring :=
  match exec r cleaned with
  | Some m => Some (default [] (group1 m))
  | None => None
  end.

Definition titleMatch := extract (string_field_re "title").
Definition problemMatch := extract (string_field_re "problem").
Definition hintsMatch := extract (array_field_re "hints").
Definition metricsMatch := extract (array_field_re "keyMetrics").
Definition toolsMatch := extract (array_field_re "tools").
Definition teachingMatch := extract (string_field_re "teachingPoint").

(** [JSON.parse(`[${inner}]`)] *)
Definition parse_list (inner : jsstring) : JSON.error + value :=
  JSON.parse ([91%N] ++ inner ++ [93%N]).

(** Lines 72-93: the third attempt.  [None] when a pattern does not match,
    and when a list does not parse (the exception is caught on line 91). *)
Definition rebuild (cleaned : jsstring) : option value :=
  match titleMatch cleaned, problemMatch cleaned, hintsMatch cleaned,
        metricsMatch cleaned, toolsMatch cleaned, teachingMatch cleaned with
  | Some title, Some problem, Some hints, Some metrics, Some tools, Some teaching =>
      match parse_list hints, parse_list metrics, parse_list tools with
      | inr h, inr k, inr t =>
          Some (VObj [(JsStr.lit "title", VStr title);
                      (JsStr.lit "problem", VStr problem);
                      (JsStr.lit "hints", h);
                      (JsStr.lit "keyMetrics", k);
                      (JsStr.lit "tools", t);
                      (JsStr.lit "teachingPoint", VStr teaching)])
      | _, _, _ => None
      end
  | _, _, _, _, _, _ => None
  end.

(** Line 96. *)
Definition parse_failure (firstError : JSON.error) : jsstring :=
  JsStr.lit "Failed to parse JSON: " ++ JSON.message firstError ++
  JsStr.lit ". Check console for details.".

Definition parseGeminiJSON (raw : jsstring) : result value :=
  match JSON.parse (cleaned1 raw) with
  | inr v => ret v
  | inl firstError =>
      match JSON.parse (cleaned2 raw) with
      | inr v => ret v
      | inl secondError =>
          match rebuild (cleaned2 raw) with
          | Some v => ret v
          | None => throw (parse_failure firstError)
          end
      end
  end.

(* ===================================================================== *)
(** ** UTILS (lines 104-132) *)
(* ===================================================================== *)

Local Open Scope Z_scope.

(** [new Date().toISOString().slice(0, 10)] *)
Definition todayKey (now : Z) : jsstring :=
  JsStr.slice0 (JsDate.toISOString now) 10.

(** [new Date(Date.now() - 86400000).toISOString().slice(0,10)] (line 256) *)
Definition yesterdayKey (now : Z) : jsstring :=
  JsStr.slice0 (JsDate.toISOString (now - 86400000)) 10.

(** [new Date("2025-01-01")] *)
Definition start : Z := JsDate.of_date 2025 1 1.

Definition getDayNumber (now : Z) : Z := (now - start) / 86400000 + 1.

Record category := {
  id : jsstring;
  label : jsstring;
  emoji : jsstring;
  color : jsstring
}.

Definition CATEGORIES : list category := [
  {| id := JsStr.lit "btc";   label := JsStr.lit "BTC Fundamentals";
     emoji := [8383%N];           color := JsStr.lit "#f7931a" |};
  {| id := JsStr.lit "eth";   label := JsStr.lit "ETH Fundamentals";
     emoji := [926%N];            color := JsStr.lit "#627eea" |};
  {| id := JsStr.lit "whale"; label := JsStr.lit "Whale Tracking";
     emoji := [55357%N; 56331%N]; color := JsStr.lit "#0ea5e9" |};
  {| id := JsStr.lit "defi";  label := JsStr.lit "DeFi Analytics";
     emoji := [55356%N; 57318%N]; color := JsStr.lit "#00c9a7" |};
  {| id := JsStr.lit "nft";   label := JsStr.lit "NFT Markets";
     emoji := [55357%N; 56764%N]; color := JsStr.lit "#a855f7" |};
  {| id := JsStr.lit "l2";    label := JsStr.lit "L2 & Mempool";
     emoji := [9889%N];           color := JsStr.lit "#f59e0b" |};
  {| id := JsStr.lit "macro"; label := JsStr.lit "Cross-Chain Macro";
     emoji := [55356%N; 57104%N]; color := JsStr.lit "#ef4444" |}
].

Definition DIFFICULTIES : list jsstring :=
  [JsStr.lit "Beginner"; JsStr.lit "Intermediate"; JsStr.lit "Advanced"].

(** [arr[i]] for an integer [i]: [None] is [undefined], the value of every
    index outside the array, the negative ones included. *)
Definition at_index {A : Type} (arr : list A) (i : Z) : option A :=
  if i <? 0 then None else nth_error arr (Z.to_nat i).

(** The result of [getTodayMeta]; a [None] field is [undefined]. *)
Record meta := {
  cat : option category;
  diff : option jsstring;
  day : Z
}.

(** [%] is the remainder of the truncating division ([Z.rem]), which takes
    the sign of the dividend; [Math.floor(day / n)] is [day / n]. *)
Definition getTodayMeta (now : Z) (offsetDays : Z) : meta :=
  let day := getDayNumber now + offsetDays in
  {| cat := at_index CATEGORIES (Z.rem day (Z.of_nat (length CATEGORIES)));
     diff := at_index DIFFICULTIES
               (Z.rem (day / Z.of_nat (length CATEGORIES))
                      (Z.of_nat (length DIFFICULTIES)));
     day := day |}.

(* ===================================================================== *)
(** ** PROMPT BUILDERS (lines 137-172) *)
(* ===================================================================== *)

Definition category_angles : list (jsstring * jsstring) := [
  (JsStr.lit "btc", JsStr.lit "HODL waves, UTXO age bands, exchange reserves, miner behavior, SOPR, realized price, MVRV");
  (JsStr.lit "eth", JsStr.lit "staking flows, validator queue, EIP-1559 burn, blob fees, LST dominance, restaking risks");
  (JsStr.lit "whale", JsStr.lit "wallet clustering, exchange inflows/outflows, OTC desk signals, accumulation patterns, insider timing");
  (JsStr.lit "defi", JsStr.lit "TVL flows, liquidation cascades, yield farming incentives, protocol revenue, ve-token governance, bad debt");
  (JsStr.lit "nft", JsStr.lit "wash trading patterns, floor price manipulation, royalty evasion, collection lifecycle, blue-chip divergence");
  (JsStr.lit "l2", JsStr.lit "bridge flows, MEV extraction, sequencer centralization, gas arbitrage, rollup proof delays");
  (JsStr.lit "macro", JsStr.lit "stablecoin dominance, BTC correlation with TradFi, regulatory flow impact, stablecoin depegs, cross-chain contagion")
].

Fixpoint assoc (m : list (jsstring * jsstring)) (k : jsstring) : option jsstring :=
  match m with
  | [] => None
  | (k', v) :: m' => if JsStr.eqb k' k then Some v else assoc m' k
  end.

Definition getCategoryAngles (id : jsstring) : jsstring :=
  match assoc category_angles id with
  | Some angles => if JsStr.eqb angles [] then JsStr.lit "general onchain patterns" else angles
  | None => JsStr.lit "general onchain patterns"
  end.

(** [cat.label] and [cat.id] throw when [cat] is [undefined]. *)
Definition cat_field (f : category -> jsstring) (name : string) (c : option category)
  : result jsstring :=
  match c with
  | Some c => ret (f c)
  | None => throw (Js.type_error_read VUndef (JsStr.lit name))
  end.

(** A string or [undefined] inside a template literal. *)
Definition interpolate (d : option jsstring) : jsstring :=
  default (JsStr.lit "undefined") d.

Definition difficulty_hint (d : option jsstring) : jsstring :=
  if bool_decide (d = Some (JsStr.lit "Beginner"))
  then JsStr.lit "basic onchain signals, simple concepts"
  else if bool_decide (d = Some (JsStr.lit "Intermediate"))
  then JsStr.lit "connect 2-3 concepts together"
  else JsStr.lit "deep protocol knowledge, multi-step reasoning".

Definition buildChallengePrompt (now : Z) (c : option category) (d : option jsstring)
  (day : Z) : result jsstring :=
  let* label := cat_field label "label" c in
  let* id := cat_field id "id" c in
  ret (JsStr.lit "Create a daily onchain analysis challenge for Day " ++
       JsNum.int_to_string day ++ JsStr.lit ".

Category: " ++ label ++ JsStr.lit "
Difficulty: " ++ interpolate d ++ JsStr.lit "
Date context: " ++ todayKey now ++ JsStr.json "

Generate a challenge with this JSON structure:
{
  'title': '4-7 word punchy title',
  'problem': '3-5 sentence detailed scenario with specific numbers, percentages, and dollar amounts. Make it feel real and current. End with 1-2 clear questions.',
  'hints': ['hint 1', 'hint 2', 'hint 3'],
  'keyMetrics': ['Metric 1', 'Metric 2', 'Metric 3', 'Metric 4'],
  'tools': ['Tool 1', 'Tool 2', 'Tool 3'],
  'teachingPoint': 'One sentence explaining the core concept'
}

Requirements:
- Use realistic, specific numbers (e.g., '14 wallets' not 'some wallets')
- Make the scenario feel current and real
- Difficulty " ++ interpolate d ++ JsStr.lit ": " ++ difficulty_hint d ++ JsStr.lit "
- Category focus (" ++ label ++ JsStr.lit "): " ++ getCategoryAngles id).

(* ===================================================================== *)
(** ** STORAGE HELPERS (lines 224-275)

    [localStorage] is a map from strings to strings whose accesses succeed;
    the [catch] arms of the helpers are then reached only by the exceptions
    of the code between them. *)
(* ===================================================================== *)

Abbreviation storage := (gmap (list N) (list N)).

(** [localStorage.getItem(k) || dflt]: [null] and the empty string are
    falsy. *)
Definition getItem_or (st : storage) (k : jsstring) (dflt : jsstring) : jsstring :=
  match st !! k with
  | Some v => if JsStr.eqb v [] then dflt else v
  | None => dflt
  end.

Definition od_streak : jsstring := JsStr.lit "od_streak".
Definition od_streak_date : jsstring := JsStr.lit "od_streak_date".
Definition od_history : jsstring := JsStr.lit "od_history".

Definition challenge_key (dateKey : jsstring) : jsstring :=
  JsStr.lit "od_challenge_" ++ dateKey.

Definition loadChallenge (st : storage) (dateKey : jsstring) : value :=
  match st !! challenge_key dateKey with
  | Some raw =>
      if JsStr.eqb raw [] then VNull
      else match JSON.parse raw with
           | inr v => v
           | inl _ => VNull
           end
  | None => VNull
  end.

Record streak := {
  count : option Z;                (* [None] is [NaN] *)
  last : jsstring
}.

Definition loadStreak (st : storage) : streak :=
  {| count := JsNum.parseInt (getItem_or st od_streak (JsStr.lit "0"));
     last := getItem_or st od_streak_date [] |}.

Definition bumpStreak (now : Z) (st : storage) : storage * option Z :=
  let today := todayKey now in
  let s := loadStreak st in
  let yesterday := yesterdayKey now in
  let newCount :=
    if JsStr.eqb (last s) yesterday then JsNum.succ (count s)
    else if JsStr.eqb (last s) today then count s
    else Some 1 in
  (<[od_streak_date := today]> (<[od_streak := JsNum.to_string newCount]> st),
   newCount).

Definition loadHistory (st : storage) : value :=
  match JSON.parse (getItem_or st od_history (JsStr.lit "[]")) with
  | inr v => v
  | inl _ => VArr []
  end.

(** Equality of two decimals. *)
Definition num_eqb (a b : num) : bool :=
  match a, b with
  | Fin m1 e1, Fin m2 e2 =>
      let e := Z.min e1 e2 in
      m1 * 10 ^ (e1 - e) =? m2 * 10 ^ (e2 - e)
  | _, _ => false
  end.

(** [a === b] where the two values do not share an object: an object or an
    array is then equal to nothing. *)
Definition strict_eq (a b : value) : bool :=
  match a, b with
  | VUndef, VUndef => true
  | VNull, VNull => true
  | VBool x, VBool y => Bool.eqb x y
  | VNum x, VNum y => num_eqb x y
  | VStr x, VStr y => JsStr.eqb x y
  | _, _ => false
  end.

(** [hist.filter(h => h.date !== entry.date)]: reading [date] off [null]
    throws. *)
Fixpoint dedupe (entry : value) (hist : list value) : result (list value) :=
  match hist with
  | [] => ret []
  | h :: rest =>
      let* hd := Js.member h (JsStr.lit "date") in
      let* ed := Js.member entry (JsStr.lit "date") in
      let* deduped := dedupe entry rest in
      ret (if strict_eq hd ed then deduped else h :: deduped)
  end.

(** Line 272: [[entry, ...deduped].slice(0, 60)]. *)
Definition next_history (entry : value) (deduped : list value) : list value :=
  take 60 (entry :: deduped).

(** Lines 468-472: the entry [generateThread] records. *)
Definition history_entry (now : Z) (challenge : value) (analysis : jsstring) : value :=
  VObj [(JsStr.lit "date", VStr (todayKey now));
        (JsStr.lit "day", Js.get challenge (JsStr.lit "day"));
        (JsStr.lit "title", Js.get challenge (JsStr.lit "title"));
        (JsStr.lit "category", Js.get challenge (JsStr.lit "category"));
        (JsStr.lit "difficulty", Js.get challenge (JsStr.lit "diff"));
        (JsStr.lit "analysis", VStr (JsStr.slice0 analysis 120))].

(** The service behind [fetch], as [callGemini] sees one request: the
    request fails with an [Error] (no connection, a status that is not ok,
    lines 24-27), or the body of the response is read as JSON (line 28). *)
Inductive outcome :=
| Failed (msg : jsstring)
| Responded (data : value).

(** [localStorage] and the React state that [loadOrGenerateChallenge]
    touches, with counters of its effects. *)
Record world := {
  localStorage : storage;
  setItems : nat;                  (* calls of [localStorage.setItem] *)
  requests : nat;                  (* calls of [fetch] *)
  sleeps : nat;                    (* one-second waits *)
  challenge : value;
  generating : bool;
  genError : jsstring
}.

Definition setChallenge (v : value) (w : world) : world :=
  {| localStorage := localStorage w; setItems := setItems w; requests := requests w;
     sleeps := sleeps w; challenge := v; generating := generating w;
     genError := genError w |}.

Definition setGenerating (b : bool) (w : world) : world :=
  {| localStorage := localStorage w; setItems := setItems w; requests := requests w;
     sleeps := sleeps w; challenge := challenge w; generating := b;
     genError := genError w |}.

Definition setGenError (e : jsstring) (w : world) : world :=
  {| localStorage := localStorage w; setItems := setItems w; requests := requests w;
     sleeps := sleeps w; challenge := challenge w; generating := generating w;
     genError := e |}.

Definition sleep (w : world) : world :=
  {| localStorage := localStorage w; setItems := setItems w; requests := requests w;
     sleeps := S (sleeps w); challenge := challenge w; generating := generating w;
     genError := genError w |}.

Definition sent (w : world) : world :=
  {| localStorage := localStorage w; setItems := setItems w; requests := S (requests w);
     sleeps := sleeps w; challenge := challenge w; generating := generating w;
     genError := genError w |}.

Definition setItem (k v : jsstring) (w : world) : world :=
  {| localStorage := <[k := v]> (localStorage w); setItems := S (setItems w);
     requests := requests w; sleeps := sleeps w; challenge := challenge w;
     generating := generating w; genError := genError w |}.

(** The own enumerable properties that [{...v}] copies. *)
Fixpoint index_props (l : list value) (i : Z) : list (jsstring * value) :=
  match l with
  | [] => []
  | x :: r => (JsNum.int_to_string i, x) :: index_props r (i + 1)
  end.

Definition spread (v : value) : list (jsstring * value) :=
  match v with
  | VObj o => o
  | VArr l => index_props l 0
  | VStr s => index_props (map (fun c => VStr [c]) s) 0
  | _ => []
  end.

Definition set_all (o props : list (jsstring * value)) : list (jsstring * value) :=
  fold_left (fun o kv => Js.obj_set o (fst kv) (snd kv)) props o.

Definition cat_value (c : option category) : value :=
  match c with
  | Some c =>
      VObj [(JsStr.lit "id", VStr (id c)); (JsStr.lit "label", VStr (label c));
            (JsStr.lit "emoji", VStr (emoji c)); (JsStr.lit "color", VStr (color c))]
  | None => VUndef
  end.

Definition diff_value (d : option jsstring) : value :=
  match d with
  | Some s => VStr s
  | None => VUndef
  end.

(** Line 359: [{ ...cached, cat, diff, day }]. *)
Definition with_meta (cached : value) (m : meta) : value :=
  VObj (set_all (spread cached)
          [(JsStr.lit "cat", cat_value (cat m));
           (JsStr.lit "diff", diff_value (diff m));
           (JsStr.lit "day", VNum (Fin (day m) 0))]).

(** Line 386: [{ ...parsed, category: cat.label, cat, diff, day, dateKey }]. *)
Definition full_challenge (parsed : value) (cat_label : jsstring) (m : meta)
  (dateKey : jsstring) : value :=
  VObj (set_all (spread parsed)
          [(JsStr.lit "category", VStr cat_label);
           (JsStr.lit "cat", cat_value (cat m));
           (JsStr.lit "diff", diff_value (diff m));
           (JsStr.lit "day", VNum (Fin (day m) 0));
           (JsStr.lit "dateKey", VStr dateKey)]).

Definition required_fields : list jsstring :=
  [JsStr.lit "title"; JsStr.lit "problem"; JsStr.lit "hints";
   JsStr.lit "keyMetrics"; JsStr.lit "tools"; JsStr.lit "teachingPoint"].

Definition missing_fields : jsstring :=
  JsStr.lit "Invalid challenge format - missing required fields".

(** Lines 381-384.  Reading [title] off [null] throws a TypeError; the other
    values that are not objects have none of the six properties. *)
Definition validate (parsed : value) : result unit :=
  let* title := Js.member parsed (JsStr.lit "title") in
  if negb (Js.truthy title)
     || negb (Js.truthy (Js.get parsed (JsStr.lit "problem")))
     || negb (Js.truthy (Js.get parsed (JsStr.lit "hints")))
     || negb (Js.truthy (Js.get parsed (JsStr.lit "keyMetrics")))
     || negb (Js.truthy (Js.get parsed (JsStr.lit "tools")))
     || negb (Js.truthy (Js.get parsed (JsStr.lit "teachingPoint")))
  then throw missing_fields
  else ret tt.

(** Line 29: [data.candidates?.[0]?.content?.parts?.[0]?.text || ""]. *)
Definition completion_text (data : value) : result value :=
  let* candidates := Js.member data (JsStr.lit "candidates") in
  let first := Js.opt_member candidates (JsStr.lit "0") in
  let content := Js.opt_member first (JsStr.lit "content") in
  let parts := Js.opt_member content (JsStr.lit "parts") in
  let part := Js.opt_member parts (JsStr.lit "0") in
  ret (Js.or_else (Js.opt_member part (JsStr.lit "text")) (VStr [])).

(** Line 377: [raw.substring(0, 200)] throws unless [raw] is a string. *)
Definition as_string (raw : value) : result jsstring :=
  match raw with
  | VStr s => ret s
  | _ => throw (JsStr.lit "raw.substring is not a function")
  end.

(** Lines 379-384: recovery, then the check of the six fields. *)
Definition recover (raw : jsstring) : result value :=
  let* parsed := parseGeminiJSON raw in
  let* _ := validate parsed in
  ret parsed.

Definition dateKey_of (now : Z) (offset : Z) : jsstring :=
  if offset =? 0 then todayKey now
  else JsStr.lit "offset_" ++ JsNum.int_to_string (getDayNumber now + offset).

Definition failed_message (e : jsstring) : jsstring :=
  JsStr.lit "Failed after 3 attempts: " ++ e ++
  JsStr.lit ". Try clicking RETRY or check your API key.".

Section Pipeline.

(** [JSON.stringify], the serializer of the host. *)
Variable JSON_stringify : value -> jsstring.

(** The service: what the n-th request (counted from 0) with this key and
    prompt comes to. *)
Variable service : nat -> jsstring -> jsstring -> outcome.

Definition saveChallenge (dateKey : jsstring) (data : value) (w : world) : world :=
  setItem (challenge_key dateKey) (JSON_stringify data) w.

Definition pushHistory (entry : value) (st : storage) : storage :=
  match loadHistory st with
  | VArr hist =>
      match dedupe entry hist with
      | inr deduped =>
          <[od_history := JSON_stringify (VArr (next_history entry deduped))]> st
      | inl _ => st
      end
  | _ => st
  end.

(** Lines 465-474 of [generateThread]: the ledger after a thread. *)
Definition recordCompletion (now : Z) (challenge : value) (analysis : jsstring)
  (st : storage) : storage * option Z :=
  let '(st1, newStreak) := bumpStreak now st in
  (pushHistory (history_entry now challenge analysis) st1, newStreak).

(** Lines 6-30. *)
Definition callGemini (apiKey prompt : jsstring) (w : world) : result value * world :=
  match service (requests w) apiKey prompt with
  | Failed msg => (throw msg, sent w)
  | Responded data => (completion_text data, sent w)
  end.

(** Lines 376-386: one attempt, up to the assembled record. *)
Definition generate (now : Z) (m : meta) (dateKey key : jsstring) (w : world)
  : result value * world :=
  match buildChallengePrompt now (cat m) (diff m) (day m) with
  | inl e => (inl e, w)
  | inr prompt =>
      let '(r, w1) := callGemini key prompt w in
      (let* raw := r in
       let* text := as_string raw in
       let* parsed := recover text in
       let* cat_label := cat_field label "label" (cat m) in
       ret (full_challenge parsed cat_label m dateKey), w1)
  end.

(** Lines 369-399: the loop.  The flag tells whether the function returned
    from inside it (line 389). *)
Fixpoint retry (fuel : nat) (attempt : Z) (now : Z) (m : meta) (dateKey key : jsstring)
  (w : world) : bool * world :=
  match fuel with
  | O => (false, w)
  | S fuel' =>
      if attempt <=? 3 then
        let w0 := if 1 <? attempt then sleep w else w in
        match generate now m dateKey key w0 with
        | (inr full, w1) => (true, setChallenge full (saveChallenge dateKey full w1))
        | (inl e, w1) =>
            let w2 := if attempt =? 3 then setGenError (failed_message e) w1 else w1 in
            retry fuel' (attempt + 1) now m dateKey key w2
        end
      else (false, w)
  end.

(** Lines 352-402. *)
Definition loadOrGenerateChallenge (now : Z) (offset : Z) (key : jsstring) (w : world)
  : world :=
  let m := getTodayMeta now offset in
  let dateKey := dateKey_of now offset in
  let cached := loadChallenge (localStorage w) dateKey in
  if Js.truthy cached then setChallenge (with_meta cached m) w
  else
    let w1 := setChallenge VNull (setGenError [] (setGenerating true w)) in
    let '(returned, w2) := retry 3 1 now m dateKey key w1 in
    if returned then w2 else setGenerating false w2.

End Pipeline.

(* ===================================================================== *)
(** ** The credential (lines 235-241) *)
(* ===================================================================== *)

Definition od_gemini_key : jsstring := JsStr.lit "od_gemini_key".

Definition loadApiKey (st : storage) : jsstring := getItem_or st od_gemini_key [].

Definition saveApiKey (k : jsstring) (w : world) : world := setItem od_gemini_key k w.

(* ===================================================================== *)
(** ** The handlers of the component (lines 410-481)

    The React state a handler reads is the state of the render it was
    created in; the states below are those values, and a handler returns
    the state after its updates.  A handler runs from its call to its
    return without another one in between. *)
(* ===================================================================== *)

(** The state of the key screen (lines 311-314). *)
Record key_gate := {
  apiKey : jsstring;
  apiKeyInput : jsstring;
  apiKeyError : jsstring;
  testingKey : bool
}.

(** The state of the workspace (lines 320-335); [toast] is the message and
    the colour of the last call of [showToast]. *)
Record desk := {
  offsetDays : Z;
  phase : jsstring;
  hintsOpen : bool;
  analysis : jsstring;
  conclusion : jsstring;
  feedback : value;
  loadingFeedback : bool;
  thread : option (list jsstring);
  loadingThread : bool;
  streak_shown : option Z;
  history : value;
  toast : option (jsstring * jsstring)
}.

(** Line 413. *)
Definition wrong_prefix : jsstring :=
  JsStr.lit "Key should start with 'AI...' " ++ [8212%N] ++
  JsStr.lit " check your Gemini API key.".

(** Line 419. *)
Definition test_prompt : jsstring := JsStr.lit "Reply with only the word: OK".

(** [e.message || dflt] for the message of an [Error]. *)
Definition message_or (msg dflt : jsstring) : jsstring :=
  if JsStr.eqb msg [] then dflt else msg.

(** [!s.trim()] *)
Definition blank (s : jsstring) : bool := JsStr.eqb (JsStr.trim s) [].

(** [s.split(sep)] for a separator that is not empty.  [skip] counts the
    characters of a separator found that are still to be passed over,
    [cur] holds the piece read so far, last character first. *)
Fixpoint split_from (sep s cur : jsstring) (skip : nat) : list jsstring :=
  match s with
  | [] => [rev cur]
  | c :: r =>
      match skip with
      | S k => split_from sep r cur k
      | O =>
          if JsStr.starts_with sep s
          then rev cur :: split_from sep r [] (length sep - 1)
          else split_from sep r (c :: cur) 0
      end
  end.

Definition split (s sep : jsstring) : list jsstring := split_from sep s [] 0.

(** [l.join(sep)] for a list of strings. *)
Fixpoint join (sep : jsstring) (l : list jsstring) : jsstring :=
  match l with
  | [] => []
  | [x] => x
  | x :: r => x ++ sep ++ join sep r
  end.

Definition tweet_separator : jsstring := JsStr.lit "---TWEET---".

(** Line 461: [raw.split(...).map(t => t.trim()).filter(Boolean)]. *)
Definition tweets_of (raw : jsstring) : list jsstring :=
  List.filter (fun t => negb (JsStr.eqb t []))
    (map JsStr.trim (split raw tweet_separator)).

(** Line 461: [raw.split] is a method of strings only. *)
Definition splittable (raw : value) : result jsstring :=
  match raw with
  | VStr s => ret s
  | _ => throw (JsStr.lit "raw.split is not a function")
  end.

(** Line 475. *)
Definition thread_ready (newStreak : option Z) : jsstring :=
  [55357%N; 56613%N] ++ JsStr.lit " Thread ready! Streak: " ++
  JsNum.to_string newStreak ++ JsStr.lit " day" ++
  (if bool_decide (newStreak = Some 1) then [] else JsStr.lit "s").

(** [localStorage] after [n] more calls of [setItem] that left it [st]. *)
Definition stored (st : storage) (n : nat) (w : world) : world :=
  {| localStorage := st; setItems := (setItems w + n)%nat; requests := requests w;
     sleeps := sleeps w; challenge := challenge w; generating := generating w;
     genError := genError w |}.

(** Whether [pushHistory] reaches its [setItem] (line 273). *)
Definition history_written (entry : value) (st : storage) : bool :=
  match loadHistory st with
  | VArr hist =>
      match dedupe entry hist with
      | inr _ => true
      | inl _ => false
      end
  | _ => false
  end.

Section Handlers.

(** [JSON.stringify] and the conversion [ToString] of a template literal,
    both of the host. *)
Variable JSON_stringify : value -> jsstring.
Variable ToString : value -> jsstring.

(** The service, as in [callGemini]. *)
Variable service : nat -> jsstring -> jsstring -> outcome.

(** Lines 174-194. *)
Definition buildFeedbackPrompt (challenge : value) (analysis conclusion : jsstring)
  : result jsstring :=
  let* title := Js.member challenge (JsStr.lit "title") in
  let* problem := Js.member challenge (JsStr.lit "problem") in
  let* teachingPoint := Js.member challenge (JsStr.lit "teachingPoint") in
  ret (JsStr.json "Challenge: '" ++
       ToString title ++
       JsStr.json "'
Problem: " ++
       ToString problem ++
       JsStr.lit "
Teaching point: " ++
       ToString teachingPoint ++
       JsStr.lit "

Student's analysis: " ++
       analysis ++
       JsStr.lit "
Student's conclusion: " ++
       conclusion ++
       JsStr.lit "

Evaluate this onchain analysis. Be direct and specific. Format your response in exactly 3 sections using these headers:

" ++
       [9989%N] ++
       JsStr.lit " WHAT YOU NAILED
(2-3 specific things they got right, reference exact points from their analysis)

" ++
       [55357%N; 56615%N] ++
       JsStr.lit " SHARPEN THIS
(1-2 specific gaps, missed metrics, or wrong assumptions " ++
       [8212%N] ++
       JsStr.lit " be rigorous)

" ++
       [55357%N; 56481%N] ++
       JsStr.lit " CORE TAKEAWAY
(One memorable sentence they should never forget about this type of onchain signal)

Keep total response under 220 words. Use onchain analyst language. Don't be generic.").

(** Lines 196-219. *)
Definition buildThreadPrompt (challenge : value) (analysis conclusion : jsstring)
  (dayNum : value) : result jsstring :=
  let* title := Js.member challenge (JsStr.lit "title") in
  let* category := Js.member challenge (JsStr.lit "category") in
  let* difficulty := Js.member challenge (JsStr.lit "difficulty") in
  let* problem := Js.member challenge (JsStr.lit "problem") in
  ret (JsStr.lit "You're writing a viral crypto Twitter thread for Day " ++
       ToString dayNum ++
       JsStr.lit " of someone's daily onchain analysis practice.

Challenge: " ++
       [34%N] ++
       ToString title ++
       JsStr.json "' (" ++
       ToString category ++
       JsStr.lit " " ++
       [183%N] ++
       JsStr.lit " " ++
       ToString difficulty ++
       JsStr.lit ")
Problem studied: " ++
       ToString problem ++
       JsStr.lit "
Their analysis: " ++
       analysis ++
       JsStr.lit "
Their conclusion: " ++
       conclusion ++
       JsStr.lit "

Write a 5-tweet thread that:
Tweet 1 " ++
       [8212%N] ++
       JsStr.json " Hook: the puzzle with the most shocking/interesting number. Start with '" ++
       [55357%N; 56589%N] ++
       JsStr.lit " Day " ++
       ToString dayNum ++
       JsStr.json " | Onchain puzzle:'
Tweet 2 " ++
       [8212%N] ++
       JsStr.lit " The data: bullet points with the key onchain metrics from the problem  
Tweet 3 " ++
       [8212%N] ++
       JsStr.lit " The analysis: what the data actually means (use their analysis, make it crisp)
Tweet 4 " ++
       [8212%N] ++
       JsStr.lit " The conclusion + actionable insight
Tweet 5 " ++
       [8212%N] ++
       JsStr.lit " End with a thought-provoking question for followers + 3-4 relevant hashtags (always include #OnchainAnalysis)

Rules:
- Each tweet MUST be under 270 characters (strict limit)
- Use their actual analysis and numbers " ++
       [8212%N] ++
       JsStr.lit " this should feel authentic, not templated
- No hype language, pure data-driven insight
- Make it educational AND engaging " ++
       [8212%N] ++
       JsStr.lit " imagine 10k followers reading this

Separate each tweet with exactly: ---TWEET---
Return ONLY the tweets, nothing else.").

(** Lines 410-427. *)
Definition handleSaveKey (g : key_gate) (w : world) : key_gate * world :=
  let k := JsStr.trim (apiKeyInput g) in
  if negb (JsStr.starts_with (JsStr.lit "AI") k)
  then ({| apiKey := apiKey g; apiKeyInput := apiKeyInput g;
           apiKeyError := wrong_prefix; testingKey := testingKey g |}, w)
  else
    match callGemini service k test_prompt w with
    | (inr _, w1) =>
        ({| apiKey := k; apiKeyInput := apiKeyInput g;
            apiKeyError := []; testingKey := false |}, saveApiKey k w1)
    | (inl msg, w1) =>
        ({| apiKey := apiKey g; apiKeyInput := apiKeyInput g;
            apiKeyError := JsStr.lit "Key test failed: " ++
                           message_or msg (JsStr.lit "Invalid key");
            testingKey := false |}, w1)
    end.

(** Lines 701 and 779: [saveApiKey(""); setApiKey("")], the empty string
    being the argument of both. *)
Definition changeKey (g : key_gate) (w : world) : key_gate * world :=
  ({| apiKey := []; apiKeyInput := apiKeyInput g; apiKeyError := apiKeyError g;
      testingKey := testingKey g |}, saveApiKey [] w).

(** Lines 430-439. *)
Definition changeDay (dir : Z) (d : desk) : desk :=
  {| offsetDays := offsetDays d + dir; phase := JsStr.lit "challenge";
     hintsOpen := false; analysis := []; conclusion := []; feedback := VNull;
     loadingFeedback := loadingFeedback d; thread := None;
     loadingThread := loadingThread d; streak_shown := streak_shown d;
     history := history d; toast := toast d |}.

Definition showToast (msg color : jsstring) (d : desk) : desk :=
  {| offsetDays := offsetDays d; phase := phase d; hintsOpen := hintsOpen d;
     analysis := analysis d; conclusion := conclusion d; feedback := feedback d;
     loadingFeedback := loadingFeedback d; thread := thread d;
     loadingThread := loadingThread d; streak_shown := streak_shown d;
     history := history d; toast := Some (msg, color) |}.

(** Line 443 and line 457. *)
Definition nothing_to_send (d : desk) (w : world) : bool :=
  blank (analysis d) || blank (conclusion d) || negb (Js.truthy (challenge w)).

(** Lines 442-453. *)
Definition getFeedback (key : jsstring) (d : desk) (w : world) : desk * world :=
  if nothing_to_send d w then (d, w)
  else
    let '(r, w1) :=
      match buildFeedbackPrompt (challenge w) (analysis d) (conclusion d) with
      | inl e => (inl e, w)
      | inr prompt => callGemini service key prompt w
      end in
    match r with
    | inr text =>
        ({| offsetDays := offsetDays d; phase := phase d; hintsOpen := hintsOpen d;
            analysis := analysis d; conclusion := conclusion d; feedback := text;
            loadingFeedback := false; thread := thread d;
            loadingThread := loadingThread d; streak_shown := streak_shown d;
            history := history d; toast := toast d |}, w1)
    | inl e =>
        ({| offsetDays := offsetDays d; phase := phase d; hintsOpen := hintsOpen d;
            analysis := analysis d; conclusion := conclusion d;
            feedback := feedback d; loadingFeedback := false; thread := thread d;
            loadingThread := loadingThread d; streak_shown := streak_shown d;
            history := history d;
            toast := Some (JsStr.lit "Feedback failed: " ++ e, JsStr.lit "#ef4444") |},
         w1)
    end.

(** Lines 460-461: the text of the thread, or what the [catch] receives. *)
Definition thread_text (key : jsstring) (d : desk) (w : world)
  : result jsstring * world :=
  match (let* dayNum := Js.member (challenge w) (JsStr.lit "day") in
         buildThreadPrompt (challenge w) (analysis d) (conclusion d) dayNum) with
  | inl e => (inl e, w)
  | inr prompt =>
      let '(r, w1) := callGemini service key prompt w in
      (let* raw := r in splittable raw, w1)
  end.

(** Lines 456-481. *)
Definition generateThread (key : jsstring) (now : Z) (d : desk) (w : world)
  : desk * world :=
  if nothing_to_send d w then (d, w)
  else
    match thread_text key d w with
    | (inr raw, w1) =>
        let '(st1, newStreak) := bumpStreak now (localStorage w1) in
        let entry := history_entry now (challenge w) (analysis d) in
        let st2 := pushHistory JSON_stringify entry st1 in
        ({| offsetDays := offsetDays d; phase := JsStr.lit "tweet";
            hintsOpen := hintsOpen d; analysis := analysis d;
            conclusion := conclusion d; feedback := feedback d;
            loadingFeedback := loadingFeedback d; thread := Some (tweets_of raw);
            loadingThread := false; streak_shown := newStreak;
            history := loadHistory st2;
            toast := Some (thread_ready newStreak, JsStr.lit "#f59e0b") |},
         stored st2 (if history_written entry st1 then 3 else 2) w1)
    | (inl e, w1) =>
        ({| offsetDays := offsetDays d; phase := phase d; hintsOpen := hintsOpen d;
            analysis := analysis d; conclusion := conclusion d;
            feedback := feedback d; loadingFeedback := loadingFeedback d;
            thread := thread d; loadingThread := false;
            streak_shown := streak_shown d; history := history d;
            toast := Some (JsStr.lit "Thread generation failed: " ++ e,
                           JsStr.lit "#ef4444") |}, w1)
    end.

End Handlers.

(* ===================================================================== *)
(** ** The component as a whole (lines 308-499)

    The states of the component and what the user and its effects can
    make happen, one event at a time.  An event is applied whether or not
    its control is on the screen. *)
(* ===================================================================== *)

Record component := {
  keys : key_gate;
  work : desk;
  store : world
}.

(** Line 786: [challenge && !generating && !genError], the condition under
    which the challenge is on the screen. *)
Definition challenge_shown (w : world) : bool :=
  Js.truthy (challenge w) && negb (generating w) && JsStr.eqb (genError w) [].

Inductive event :=
| TypeKey (s : jsstring)          (* line 621 *)
| SaveKey                         (* lines 623 and 638 *)
| ChangeKey                       (* lines 701 and 779 *)
| Load                            (* lines 406, 778 and 901 *)
| ChangeDay (dir : Z)             (* lines 729, 748 and 1105 *)
| TypeAnalysis (s : jsstring)     (* line 937 *)
| TypeConclusion (s : jsstring)   (* line 952 *)
| SetPhase (p : jsstring)         (* lines 791, 904, 925 and 1006 *)
| ToggleHints                     (* line 882 *)
| GetFeedback                     (* line 960 *)
| GenerateThread.                 (* lines 968 and 1017 *)

Definition with_work (d : desk) (a : component) : component :=
  {| keys := keys a; work := d; store := store a |}.

Section Component.

Variable JSON_stringify : value -> jsstring.
Variable ToString : value -> jsstring.
Variable service : nat -> jsstring -> jsstring -> outcome.

(** One event at the clock [now]. *)
Definition step (now : Z) (e : event) (a : component) : component :=
  let d := work a in
  match e with
  | TypeKey s =>
      {| keys := {| apiKey := apiKey (keys a); apiKeyInput := s;
                    apiKeyError := []; testingKey := testingKey (keys a) |};
         work := d; store := store a |}
  | SaveKey =>
      let '(g, w) := handleSaveKey service (keys a) (store a) in
      {| keys := g; work := d; store := w |}
  | ChangeKey =>
      let '(g, w) := changeKey (keys a) (store a) in
      {| keys := g; work := d; store := w |}
  | Load =>
      if JsStr.eqb (apiKey (keys a)) [] then a
      else {| keys := keys a; work := d;
              store := loadOrGenerateChallenge JSON_stringify service now
                         (offsetDays d) (apiKey (keys a)) (store a) |}
  | ChangeDay dir => with_work (changeDay dir d) a
  | TypeAnalysis s =>
      with_work
        {| offsetDays := offsetDays d; phase := phase d; hintsOpen := hintsOpen d;
           analysis := s; conclusion := conclusion d; feedback := feedback d;
           loadingFeedback := loadingFeedback d; thread := thread d;
           loadingThread := loadingThread d; streak_shown := streak_shown d;
           history := history d; toast := toast d |} a
  | TypeConclusion s =>
      with_work
        {| offsetDays := offsetDays d; phase := phase d; hintsOpen := hintsOpen d;
           analysis := analysis d; conclusion := s; feedback := feedback d;
           loadingFeedback := loadingFeedback d; thread := thread d;
           loadingThread := loadingThread d; streak_shown := streak_shown d;
           history := history d; toast := toast d |} a
  | SetPhase p =>
      with_work
        {| offsetDays := offsetDays d; phase := p; hintsOpen := hintsOpen d;
           analysis := analysis d; conclusion := conclusion d; feedback := feedback d;
           loadingFeedback := loadingFeedback d; thread := thread d;
           loadingThread := loadingThread d; streak_shown := streak_shown d;
           history := history d; toast := toast d |} a
  | ToggleHints =>
      with_work
        {| offsetDays := offsetDays d; phase := phase d;
           hintsOpen := negb (hintsOpen d);
           analysis := analysis d; conclusion := conclusion d; feedback := feedback d;
           loadingFeedback := loadingFeedback d; thread := thread d;
           loadingThread := loadingThread d; streak_shown := streak_shown d;
           history := history d; toast := toast d |} a
  | GetFeedback =>
      let '(d', w) := getFeedback ToString service (apiKey (keys a)) d (store a) in
      {| keys := keys a; work := d'; store := w |}
  | GenerateThread =>
      let '(d', w) :=
        generateThread JSON_stringify ToString service (apiKey (keys a)) now d
          (store a) in
      {| keys := keys a; work := d'; store := w |}
  end.

(** Events in order, each with the clock at which it happens. *)
Definition run (events : list (Z * event)) (a : component) : component :=
  fold_left (fun a ev => step (fst ev) (snd ev) a) events a.

End Component.

(** The component when the page is loaded (lines 311-342). *)
Definition boot (st : storage) : component :=
  {| keys := {| apiKey := loadApiKey st; apiKeyInput := []; apiKeyError := [];
                testingKey := false |};
     work := {| offsetDays := 0; phase := JsStr.lit "challenge"; hintsOpen := false;
                analysis := []; conclusion := []; feedback := VNull;
                loadingFeedback := false; thread := None; loadingThread := false;
                streak_shown := count (loadStreak st); history := loadHistory st;
                toast := None |};
     store := {| localStorage := st; setItems := 0; requests := 0; sleeps := 0;
                 challenge := VNull; generating := false; genError := [] |} |}.

(* ===================================================================== *)
(** ** Vocabulary of the properties

    Predicates and sample inputs the statements below are written with. *)
(* ===================================================================== *)

(** The fence marker of a Markdown code block. *)
Definition ticks : jsstring := JsStr.lit "```".

(** Day numbers whose year [toISOString] writes with four digits. *)
Definition four_digit_year (n : Z) : Prop := -719468 <= n < 2932897.

(** A clock from 1970 up to the end of the year 9999. *)
Definition clock_in_range (now : Z) : Prop :=
  0 <= now < JsDate.of_date 10000 1 1.

Definition date_of (h : value) : value := Js.get h (JsStr.lit "date").

(** The test of the filter on line 271. *)
Definition other_date (entry h : value) : bool :=
  negb (strict_eq (date_of h) (date_of entry)).

(** The history after a completion: lines 271-272 on lists. *)
Definition completed (hist : list value) (entry : value) : list value :=
  next_history entry (List.filter (other_date entry) hist).

Definition has_string_date (h : value) : Prop := exists d, date_of h = VStr d.

(** All six patterns of lines 74-79 match. *)
Definition all_extracted (cleaned : jsstring) : Prop :=
  is_Some (titleMatch cleaned) /\ is_Some (problemMatch cleaned) /\
  is_Some (hintsMatch cleaned) /\ is_Some (metricsMatch cleaned) /\
  is_Some (toolsMatch cleaned) /\ is_Some (teachingMatch cleaned).

(** The record line 82 builds from the extracted pieces. *)
Definition rebuilt (title problem : jsstring) (h k t : value) (teaching : jsstring)
  : value :=
  VObj [(JsStr.lit "title", VStr title); (JsStr.lit "problem", VStr problem);
        (JsStr.lit "hints", h); (JsStr.lit "keyMetrics", k);
        (JsStr.lit "tools", t); (JsStr.lit "teachingPoint", VStr teaching)].

(** The six patterns match and the three lists parse, giving [v]. *)
Definition rebuilds_to (cleaned : jsstring) (v : value) : Prop :=
  exists title problem hints metrics tools teaching h k t,
    titleMatch cleaned = Some title /\ problemMatch cleaned = Some problem /\
    hintsMatch cleaned = Some hints /\ metricsMatch cleaned = Some metrics /\
    toolsMatch cleaned = Some tools /\ teachingMatch cleaned = Some teaching /\
    parse_list hints = inr h /\ parse_list metrics = inr k /\
    parse_list tools = inr t /\
    v = rebuilt title problem h k t teaching.

(** Each of the six fields has a truthy value: the test of line 382. *)
Definition has_fields (v : value) : bool :=
  forallb (fun f => Js.truthy (Js.get v f)) required_fields.

Definition is_string (v : value) : bool :=
  match v with VStr _ => true | _ => false end.

Definition is_string_list (v : value) : bool :=
  match v with VArr l => forallb is_string l | _ => false end.

(** The shapes section 4.4 of the specification asks of a record: three
    strings and three sequences of strings. *)
Definition well_shaped (v : value) : bool :=
  is_string (Js.get v (JsStr.lit "title")) &&
  is_string (Js.get v (JsStr.lit "problem")) &&
  is_string (Js.get v (JsStr.lit "teachingPoint")) &&
  is_string_list (Js.get v (JsStr.lit "hints")) &&
  is_string_list (Js.get v (JsStr.lit "keyMetrics")) &&
  is_string_list (Js.get v (JsStr.lit "tools")).

(** The response has no candidate: [candidates] is missing, [null] or empty. *)
Definition no_candidates (data : value) : bool :=
  match Js.get data (JsStr.lit "candidates") with
  | VUndef | VNull | VArr [] => true
  | _ => false
  end.

(** What an attempt leaves alone. *)
Definition same_but_requests (u w : world) : Prop :=
  localStorage u = localStorage w /\ setItems u = setItems w /\
  sleeps u = sleeps w /\ challenge u = challenge w /\
  generating u = generating w /\ genError u = genError w.

(** The state in which the loop starts (lines 363-365). *)
Definition loop_start (w : world) : world :=
  setChallenge VNull (setGenError [] (setGenerating true w)).

Section Trace.

Variable JSON_stringify : value -> jsstring.
Variable service : nat -> jsstring -> jsstring -> outcome.
Variables (now offset : Z) (key : jsstring).

(** The world in which attempt [n + 1] starts when the attempts before it
    failed: a wait of one second precedes every attempt but the first. *)
Fixpoint attempt_world (n : nat) (w : world) : world :=
  match n with
  | O => loop_start w
  | S n' =>
      sleep (snd (generate service now (getTodayMeta now offset)
                    (dateKey_of now offset) key (attempt_world n' w)))
  end.

(** Attempt [n + 1] throws. *)
Definition fails (n : nat) (w : world) : Prop :=
  exists e,
    fst (generate service now (getTodayMeta now offset) (dateKey_of now offset) key
           (attempt_world n w)) = throw e.

(** The names line 386 sets beside the fields of the completion. *)
Definition attached_fields : list jsstring :=
  [JsStr.lit "category"; JsStr.lit "cat"; JsStr.lit "diff"; JsStr.lit "day";
   JsStr.lit "dateKey"].

(** The record [full] is the one line 386 assembles from the answer to the
    request that the attempt started in [u] sent: the fields of the
    validated completion, with the label of the category, the category, the
    difficulty and the index of the day, and the key of the day. *)
Definition assembled (u : world) (full : value) : Prop :=
  let m := getTodayMeta now offset in
  exists c prompt data text parsed,
    cat m = Some c /\
    buildChallengePrompt now (cat m) (diff m) (day m) = ret prompt /\
    service (requests u) key prompt = Responded data /\
    completion_text data = ret (VStr text) /\
    recover text = ret parsed /\
    Js.get full (JsStr.lit "category") = VStr (label c) /\
    Js.get full (JsStr.lit "cat") = cat_value (Some c) /\
    Js.get full (JsStr.lit "diff") = diff_value (diff m) /\
    Js.get full (JsStr.lit "day") = VNum (Fin (day m) 0) /\
    Js.get full (JsStr.lit "dateKey") = VStr (dateKey_of now offset) /\
    (forall k, ~ In k attached_fields -> Js.get full k = Js.get parsed k).

(** The state [w'] reached from [w] by an attempt that started in [u] and
    gave [full]: one write of the record under the key of the day, the
    record exposed, all of its six fields present, and the record the one
    line 386 assembles. *)
Definition succeeded (w u : world) (full : value) (w' : world) : Prop :=
  w' = setChallenge full
         (saveChallenge JSON_stringify (dateKey_of now offset) full
            (snd (generate service now (getTodayMeta now offset)
                    (dateKey_of now offset) key u))) /\
  challenge w' = full /\
  setItems w' = S (setItems w) /\
  localStorage w' =
    <[challenge_key (dateKey_of now offset) := JSON_stringify full]> (localStorage w) /\
  genError w' = [] /\
  (exists o, full = VObj o) /\
  Forall (fun f => Js.truthy (Js.get full f) = true) required_fields /\
  assembled u full.

End Trace.

(** *** Sample inputs *)

(** 2026-11-03T10:02:03.456Z *)
Definition a_clock : Z := 1793700123456.

Definition api_key : jsstring := JsStr.lit "AIzaSample".

Definition fresh_world (st : storage) : world :=
  {| localStorage := st; setItems := 0; requests := 0; sleeps := 0;
     challenge := VNull; generating := false; genError := [] |}.

(** A service that cannot be reached. *)
Definition offline (n : nat) (key prompt : jsstring) : outcome :=
  Failed (JsStr.lit "Failed to fetch").

(** The body of a response whose first candidate carries [text]. *)
Definition response_with (text : jsstring) : value :=
  VObj [(JsStr.lit "candidates",
         VArr [VObj [(JsStr.lit "content",
                      VObj [(JsStr.lit "parts",
                             VArr [VObj [(JsStr.lit "text", VStr text)]])])]])].

Definition good_completion : jsstring :=
  JsStr.json "{'title':'Whale wakes up','problem':'14 wallets moved 3200 BTC. Why?','hints':['check age'],'keyMetrics':['SOPR'],'tools':['explorer'],'teachingPoint':'Old coins moving is a signal.'}".

(** A service that fails, then answers with prose, then with a record. *)
Definition flaky (n : nat) (key prompt : jsstring) : outcome :=
  match n with
  | O => Failed (JsStr.lit "Failed to fetch")
  | S O => Responded (response_with (JsStr.lit "Sorry, I cannot help with that."))
  | _ => Responded (response_with good_completion)
  end.

(** Six fields in the form of the third tier, one list not being JSON. *)
Definition unparsable_list : jsstring :=
  JsStr.json "'title': 'T' 'problem': 'P' 'hints': [x] 'keyMetrics': [] 'tools': [] 'teachingPoint': 'Z'".

(** The same with lists that parse. *)
Definition loose_fields : jsstring :=
  JsStr.json "'title': 'T' 'problem': 'P' 'hints': ['x', 'y'] 'keyMetrics': [] 'tools': ['t'] 'teachingPoint': 'Z'".

(** A JSON object whose six fields are numbers. *)
Definition numbers_for_fields : jsstring :=
  JsStr.json "{'title':1,'problem':2,'hints':3,'keyMetrics':4,'tools':5,'teachingPoint':6}".

(** A store whose entry for 2026-11-03 is not JSON. *)
Definition unreadable_store : storage :=
  {[ challenge_key (JsStr.lit "2026-11-03") := JsStr.lit "not JSON" ]}.

(** A store with a readable entry for 2026-11-03. *)
Definition cached_store : storage :=
  {[ challenge_key (JsStr.lit "2026-11-03") := good_completion ]}.

(** A ledger with a streak of four days, completed last on 2026-11-02. *)
Definition streak_store : storage :=
  <[od_streak := JsStr.lit "4"]> {[ od_streak_date := JsStr.lit "2026-11-02" ]}.

(** A ledger whose history holds the two days before. *)
Definition history_store : storage :=
  {[ od_history :=
       JsStr.json "[{'date':'2026-11-02','day':671},{'date':'2026-11-01','day':670}]" ]}.

(** The record [good_completion] denotes. *)
Definition good_record : value :=
  match JSON.parse good_completion with
  | inr v => v
  | inl _ => VNull
  end.

(** The challenge of 2026-11-03 assembled from it (line 386). *)
Definition todays_challenge : value :=
  full_challenge good_record (JsStr.lit "BTC Fundamentals")
    (getTodayMeta a_clock 0) (JsStr.lit "2026-11-03").

(** What [history_store] holds, and the entry of a completion that day. *)
Definition two_days : list value :=
  [VObj [(JsStr.lit "date", VStr (JsStr.lit "2026-11-02"));
         (JsStr.lit "day", VNum (Fin 671 0))];
   VObj [(JsStr.lit "date", VStr (JsStr.lit "2026-11-01"));
         (JsStr.lit "day", VNum (Fin 670 0))]].

Definition todays_entry : value :=
  history_entry a_clock todays_challenge (JsStr.lit "Coins moved to exchanges.").

(** *** The ledger over several completions *)

(** A count that is [NaN], or an integer that a double holds exactly as
    well as its successor. *)
Definition safe_integer (x : option Z) : Prop :=
  match x with
  | Some n => - (2 ^ 53 - 1) < n < 2 ^ 53 - 1
  | None => True
  end.

(** The ledger after completions at the clocks of a list, in order. *)
Definition completions (clocks : list Z) (st : storage) : storage :=
  fold_left (fun st t => fst (bumpStreak t st)) clocks st.

(** Each clock falls on the day of the one before it or on the next day. *)
Fixpoint gapless (t : Z) (clocks : list Z) : Prop :=
  match clocks with
  | [] => True
  | t' :: rest =>
      (JsDate.Day t' = JsDate.Day t \/ JsDate.Day t' = JsDate.Day t + 1) /\
      gapless t' rest
  end.

(** *** What a pattern can consume *)

Definition atom_takes (a : RegExp.atom) (c : N) : bool :=
  match a with
  | RegExp.Chr x => (c =? x)%N
  | RegExp.ChrI x => (RegExp.canonicalize c =? RegExp.canonicalize x)%N
  | RegExp.Cls p | RegExp.Star p | RegExp.StarLazy p | RegExp.Plus p => p c
  end.

Definition item_atom (i : RegExp.item) : RegExp.atom :=
  match i with
  | RegExp.Plain a | RegExp.Group a => a
  end.

(** Some item of the pattern accepts the character. *)
Definition regex_takes (r : RegExp.regex) (c : N) : bool :=
  existsb (fun i => atom_takes (item_atom i) c) r.

(** *** Once a generation has run *)

(** The spinner is on, or an error is up. *)
Definition hidden (w : world) : Prop := generating w = true \/ genError w <> [].

(** A key that [handleSaveKey] accepts: trimmed, starting with AI. *)
Definition well_formed_key (k : jsstring) : Prop :=
  JsStr.starts_with (JsStr.lit "AI") k = true /\ JsStr.trim k = k.

(** *** What a handler leaves behind *)

(** What a handler may have done to the world: [ks] are the keys of
    [localStorage] it may have written, [r], [s] and [i] bound the
    requests, the waits and the calls of [setItem]. *)
Definition touched (ks : jsstring -> Prop) (r s i : nat) (w w' : world) : Prop :=
  (forall k, ~ ks k -> localStorage w' !! k = localStorage w !! k) /\
  (requests w <= requests w' <= requests w + r)%nat /\
  (sleeps w <= sleeps w' <= sleeps w + s)%nat /\
  (setItems w <= setItems w' <= setItems w + i)%nat.


(** The keys of the ledger. *)
Definition ledger_keys (k : jsstring) : Prop :=
  k = od_streak \/ k = od_streak_date \/ k = od_history.


(** A record as [loadOrGenerateChallenge] writes it: an object whose six
    fields are truthy. *)
Definition validated (full : value) : Prop :=
  (exists o, full = VObj o) /\
  Forall (fun f => Js.truthy (Js.get full f) = true) required_fields.

(** *** More sample inputs *)

(** 2026-11-04T10:02:03.456Z, a day after [a_clock]. *)
Definition next_day : Z := a_clock + 86400000.

(** A service that answers every request with a record. *)
Definition steady (n : nat) (key prompt : jsstring) : outcome :=
  Responded (response_with good_completion).

(** A store that holds a key. *)
Definition keyed_store : storage := {[ od_gemini_key := api_key ]}.

(** The fields of [good_record]. *)
Definition good_fields : list (jsstring * value) :=
  match good_record with
  | VObj o => o
  | _ => []
  end.

(** [good_completion] in a fenced block, between two sentences. *)
Definition fence_open : jsstring := JsStr.lit "Here is the challenge:
```json
".

Definition fence_close : jsstring := JsStr.lit "
```
Good luck!".

(** A completion without a quotation mark. *)
Definition refusal : jsstring := JsStr.lit "Sorry, I cannot help with that.".

(** A stand-in for the conversion [ToString] of the host in the examples:
    exact on strings. *)
Definition to_text (v : value) : jsstring :=
  match v with
  | VStr s => s
  | _ => JSON.stringify v
  end.

(** Line 62 on a whole text: every line feed a space, every carriage
    return dropped. *)
Definition without_breaks (s : jsstring) : jsstring :=
  List.filter (fun c => negb (c =? 13)%N)
    (map (fun c => if (c =? 10)%N then 32%N else c) s).

(** An object with a line feed inside a string. *)
Definition broken_line : jsstring := JsStr.json "{'title':'Whale
wakes up'}".

(** 2024-12-24T10:02:03.456Z: eight days before the first day, day index -7. *)
Definition early_clock : Z := 1735034523456.

(** An entry of the history of the day [i] days before [a_clock]. *)
Definition dated (i : nat) : value :=
  VObj [(JsStr.lit "date", VStr (todayKey (a_clock - 86400000 * Z.of_nat i)));
        (JsStr.lit "day", VNum (Fin (672 - Z.of_nat i) 0))].

(** Sixty-one days of history, 2026-11-03 first. *)
Definition sixty_one_days : list value := map dated (seq 0 61).

Definition crowded_store : storage :=
  {[ od_history := JSON.stringify (VArr sixty_one_days) ]}.




(* ===================================================================== *)
(** ** Properties *)
(* ===================================================================== *)

#[local] Arguments N.eqb : simpl never.
#[local] Arguments N.leb : simpl never.
#[local] Arguments N.ltb : simpl never.

Ltac div_lia := Z.div_mod_to_equations; lia.

Lemma jsstr_eqb_eq a b : JsStr.eqb a b = true <-> a = b.
Proof. unfold JsStr.eqb. apply bool_decide_eq_true. Qed.

Lemma jsstr_eqb_neq a b : JsStr.eqb a b = false <-> a <> b.
Proof. unfold JsStr.eqb. apply bool_decide_eq_false. Qed.

Lemma jsstr_eqb_refl a : JsStr.eqb a a = true.
Proof. now apply jsstr_eqb_eq. Qed.

Lemma member_get v k : Js.nullish v = false -> Js.member v k = ret (Js.get v k).
Proof. unfold Js.member. now intros ->. Qed.

Local Close Scope Z_scope.

Lemma drop_while_split p s :
  exists w, s = w ++ JsStr.drop_while p s /\ forallb p w = true.
Proof.
  induction s as [|c r IH]; simpl.
  - exists []. auto.
  - destruct (p c) eqn:Hc.
    + destruct IH as [w [Hw Hp]]. exists (c :: w). simpl. rewrite Hc, Hp.
      split; [congruence | reflexivity].
    + exists []. auto.
Qed.

Lemma drop_while_stop p w c r :
  forallb p w = true -> p c = false -> JsStr.drop_while p (w ++ c :: r) = c :: r.
Proof.
  induction w as [|x w IH]; simpl; intros Hw Hc.
  - now rewrite Hc.
  - apply andb_true_iff in Hw as [Hx Hw]. rewrite Hx. auto.
Qed.

Lemma forallb_rev {A} (p : A -> bool) l : forallb p (rev l) = forallb p l.
Proof.
  induction l as [|x l IH]; simpl; [reflexivity|].
  rewrite forallb_app, IH. simpl. rewrite andb_true_r. apply andb_comm.
Qed.

Lemma trim_with_split p s :
  exists w1 w2, s = w1 ++ JsStr.trim_with p s ++ w2 /\
                forallb p w1 = true /\ forallb p w2 = true.
Proof.
  unfold JsStr.trim_with.
  destruct (drop_while_split p s) as [w1 [H1 P1]].
  destruct (drop_while_split p (rev (JsStr.drop_while p s))) as [w2 [H2 P2]].
  exists w1, (rev w2). split; [|split; [assumption | now rewrite forallb_rev]].
  rewrite H1 at 1. f_equal.
  rewrite <- (rev_involutive (JsStr.drop_while p s)) at 1.
  rewrite H2 at 1. now rewrite rev_app_distr.
Qed.

Lemma trim_with_unique p s w1 w2 a body b :
  s = w1 ++ (a :: body ++ [b]) ++ w2 ->
  forallb p w1 = true -> forallb p w2 = true -> p a = false -> p b = false ->
  JsStr.trim_with p s = a :: body ++ [b].
Proof.
  intros -> P1 P2 Ha Hb. unfold JsStr.trim_with.
  simpl ((a :: body ++ [b]) ++ w2).
  rewrite drop_while_stop by assumption.
  assert (E : rev (a :: (body ++ [b]) ++ w2) = rev w2 ++ b :: rev (a :: body)).
  { change (a :: (body ++ [b]) ++ w2) with (((a :: body) ++ [b]) ++ w2).
    now rewrite !rev_app_distr. }
  rewrite E, drop_while_stop by (rewrite ?forallb_rev; assumption).
  change (b :: rev (a :: body)) with (rev [b] ++ rev (a :: body)).
  rewrite <- rev_app_distr, rev_involutive. reflexivity.
Qed.

Lemma trim_with_single p s w1 w2 a :
  s = w1 ++ [a] ++ w2 ->
  forallb p w1 = true -> forallb p w2 = true -> p a = false ->
  JsStr.trim_with p s = [a].
Proof.
  intros -> P1 P2 Ha. unfold JsStr.trim_with.
  simpl. rewrite drop_while_stop by assumption.
  change (rev (a :: w2)) with (rev w2 ++ [a]).
  rewrite drop_while_stop by (rewrite ?forallb_rev; assumption). reflexivity.
Qed.

(* ---------- the reader leaves a suffix of its input ---------- *)

Lemma skip_ws_suffix s : JSON.skip_ws s `suffix_of` s.
Proof.
  destruct (drop_while_split JSON.is_ws s) as [w [H _]].
  exists w. exact H.
Qed.

Lemma skip_ws_eq_suffix s t : JSON.skip_ws s = t -> t `suffix_of` s.
Proof. intros <-. apply skip_ws_suffix. Qed.

Lemma suffix_step (a b c : jsstring) :
  a `suffix_of` b -> b `suffix_of` c -> a `suffix_of` c.
Proof. intros H1 H2. etrans; eassumption. Qed.

(** Closes [a `suffix_of` c] by following the hypotheses from [a] on. *)
Ltac suffix_chain :=
  solve [ repeat first
    [ assumption
    | reflexivity
    | match goal with
      | H : ?a `suffix_of` ?b |- ?a `suffix_of` _ => apply (suffix_step _ _ _ H); clear H
      | H : (?x :: ?a) `suffix_of` ?b |- ?a `suffix_of` _ =>
          apply (suffix_step _ _ _ (suffix_cons_l _ _ _ H)); clear H
      end
    | apply suffix_cons_r ] ].

Ltac break_hyp H :=
  match type of H with
  | context [match ?x with _ => _ end] => destruct x eqn:?
  | context [if ?x then _ else _] => destruct x eqn:?
  end.

Ltac break_all H := repeat (first [discriminate H | break_hyp H]).

Lemma lex_string_suffix_n n : forall s acc str r,
  length s <= n -> JSON.lex_string s acc = inr (str, r) -> r `suffix_of` s.
Proof.
  induction n as [|n IH]; intros s acc str r Hlen H.
  - destruct s; [discriminate H | simpl in Hlen; lia].
  - destruct s as [|c s]; [discriminate H|]. simpl in Hlen, H.
    break_all H; try (injection H as <- <-);
      repeat apply suffix_cons_r; try reflexivity;
      (eapply IH; [|eassumption]); simpl in *; lia.
Qed.

Lemma lex_string_suffix s acc str r :
  JSON.lex_string s acc = inr (str, r) -> r `suffix_of` s.
Proof. apply (lex_string_suffix_n (length s)). lia. Qed.

Lemma lex_digits_suffix s : forall acc n v k r,
  JSON.lex_digits s acc n = (v, k, r) -> r `suffix_of` s.
Proof.
  induction s as [|c s IH]; simpl; intros acc n v k r H.
  - injection H as <- <- <-. reflexivity.
  - destruct (Js.is_digit c).
    + apply suffix_cons_r. eapply IH. eassumption.
    + injection H as <- <- <-. reflexivity.
Qed.

Lemma lex_digits1_suffix s v k r :
  JSON.lex_digits1 s = inr (v, k, r) -> r `suffix_of` s.
Proof.
  unfold JSON.lex_digits1. intros H. break_all H.
  injection H as H. eapply lex_digits_suffix. eassumption.
Qed.

Lemma lex_int_suffix s v r : JSON.lex_int s = inr (v, r) -> r `suffix_of` s.
Proof.
  unfold JSON.lex_int. intros H. break_all H.
  - injection H as <- <-. apply suffix_cons_r. reflexivity.
  - injection H as <- <-. eapply lex_digits_suffix. eassumption.
Qed.

Lemma lex_fraction_suffix s v k r :
  JSON.lex_fraction s = inr (v, k, r) -> r `suffix_of` s.
Proof.
  unfold JSON.lex_fraction. intros H. break_all H.
  - injection H as <- <- <-. reflexivity.
  - apply suffix_cons_r. eapply lex_digits1_suffix. eassumption.
  - injection H as <- <- <-. reflexivity.
Qed.

Lemma lex_exponent_suffix s v r :
  JSON.lex_exponent s = inr (v, r) -> r `suffix_of` s.
Proof.
  unfold JSON.lex_exponent. intros H. break_all H;
    try (injection H as <- <-); try reflexivity;
    repeat match goal with
    | E : (_, _) = (_, _) |- _ => injection E as <- <-
    | E : JSON.lex_digits1 _ = inr _ |- _ => apply lex_digits1_suffix in E
    end;
    apply suffix_cons_r;
    try match goal with
    | E : match ?l with _ => _ end = (_, _) |- _ =>
        destruct l; break_all E; inversion E; subst
    end;
    first [assumption | apply suffix_cons_r; assumption].
Qed.

Lemma lex_number_suffix s x r :
  JSON.lex_number s = inr (x, r) -> r `suffix_of` s.
Proof.
  unfold JSON.lex_number. intros H. break_all H;
    injection H as <- <-;
    repeat match goal with
    | E : (_, _) = (_, _) |- _ => injection E as <- <-
    | E : JSON.lex_int _ = inr _ |- _ => apply lex_int_suffix in E
    | E : JSON.lex_fraction _ = inr _ |- _ => apply lex_fraction_suffix in E
    | E : JSON.lex_exponent _ = inr _ |- _ => apply lex_exponent_suffix in E
    | E : match ?l with _ => _ end = (_, _) |- _ =>
        destruct l; break_all E; inversion E; subst; clear E
    end; suffix_chain.
Qed.

Lemma lex_literal_suffix s v r :
  JSON.lex_literal s = inr (v, r) -> r `suffix_of` s.
Proof.
  unfold JSON.lex_literal. intros H. break_all H;
    injection H as <- <-; apply suffix_drop.
Qed.

Lemma lex_literal_kind s v r :
  JSON.lex_literal s = inr (v, r) -> forall o, v <> VObj o.
Proof.
  unfold JSON.lex_literal. intros H. break_all H;
    injection H as <- <-; discriminate.
Qed.

Ltac eqb_subst :=
  repeat match goal with
  | E : (_ =? _)%N = true |- _ => apply N.eqb_eq in E; subst
  end.

Lemma parse_shape n :
  (forall s v r, JSON.parse_value n s = inr (v, r) ->
     r `suffix_of` s /\
     (forall o, v = VObj o ->
        (125%N :: r) `suffix_of` s /\ exists r0, JSON.skip_ws s = 123%N :: r0)) /\
  (forall acc s v r, JSON.parse_elems n acc s = inr (v, r) ->
     r `suffix_of` s /\ exists l, v = VArr l) /\
  (forall acc s v r, JSON.parse_member n acc s = inr (v, r) ->
     (125%N :: r) `suffix_of` s).
Proof.
  induction n as [|n (IHv & IHe & IHm)].
  { repeat split; intros; discriminate. }
  assert (Hm : forall acc s v r, JSON.parse_member (S n) acc s = inr (v, r) ->
                 (125%N :: r) `suffix_of` s).
  { intros acc s v r H. simpl in H. break_all H; eqb_subst;
      try (injection H as <- <-);
      repeat match goal with
      | E : JSON.skip_ws _ = _ |- _ => apply skip_ws_eq_suffix in E
      | E : JSON.lex_string _ _ = inr _ |- _ => apply lex_string_suffix in E
      | E : JSON.parse_value _ _ = inr _ |- _ => apply IHv in E; destruct E as [E _]
      | E : JSON.parse_member _ _ _ = inr _ |- _ => apply IHm in E
      end; suffix_chain. }
  assert (He : forall acc s v r, JSON.parse_elems (S n) acc s = inr (v, r) ->
                 r `suffix_of` s /\ exists l, v = VArr l).
  { intros acc s v r H. simpl in H. break_all H; eqb_subst;
      try (injection H as <- <-);
      repeat match goal with
      | E : JSON.skip_ws _ = _ |- _ => apply skip_ws_eq_suffix in E
      | E : JSON.parse_value _ _ = inr _ |- _ => apply IHv in E; destruct E as [E _]
      | E : JSON.parse_elems _ _ _ = inr _ |- _ =>
          apply IHe in E; destruct E as [E [? ->]]
      end; (split; [suffix_chain | eauto]). }
  split; [|split; assumption].
  intros s v r H. simpl in H. break_all H; eqb_subst;
    try (injection H as <- <-).
  all: repeat match goal with
      | E : JSON.lex_string _ _ = inr _ |- _ => apply lex_string_suffix in E
      | E : JSON.lex_number _ = inr _ |- _ => apply lex_number_suffix in E
      | E : JSON.parse_value _ _ = inr _ |- _ => apply IHv in E; destruct E as [E _]
      | E : JSON.parse_elems _ _ _ = inr _ |- _ =>
          apply IHe in E; destruct E as [E [? ->]]
      | E : JSON.parse_member _ _ _ = inr _ |- _ => apply IHm in E
      end.
  all: try (pose proof (lex_literal_kind _ _ _ H);
            apply lex_literal_suffix in H).
  all: repeat match goal with
      | E : JSON.skip_ws ?s = ?t |- _ =>
          lazymatch goal with
          | _ : t `suffix_of` s |- _ => fail
          | _ => pose proof (skip_ws_eq_suffix _ _ E)
          end
      end.
  all: split; [ first [suffix_chain | apply suffix_cons_l with 125%N; suffix_chain]
              | intros o Ho; first [discriminate Ho | congruence | idtac] ].
  all: split; [suffix_chain | eauto].
Qed.

(* ---------- a JSON object text, seen from outside ---------- *)

Lemma parse_object_shape raw o :
  JSON.parse raw = inr (VObj o) ->
  exists w1 mid w2,
    raw = w1 ++ (123%N :: mid ++ [125%N]) ++ w2 /\
    forallb JSON.is_ws w1 = true /\ forallb JSON.is_ws w2 = true.
Proof.
  unfold JSON.parse. intros H.
  destruct (JSON.parse_value _ _) as [e|[v rest]] eqn:Hp; [discriminate|].
  destruct rest; [|discriminate]. injection H as ->.
  destruct (parse_shape (S (length (JSON.trim raw)))) as [Hv _].
  destruct (Hv _ _ _ Hp) as [_ Hobj].
  destruct (Hobj o eq_refl) as [[k Hk] [r0 Hr0]].
  destruct (trim_with_split JSON.is_ws raw) as (w1 & w2 & Hraw & P1 & P2).
  fold (JSON.trim raw) in Hraw.
  destruct (drop_while_split JSON.is_ws (JSON.trim raw)) as [w [Hw Pw]].
  fold (JSON.skip_ws (JSON.trim raw)) in Hw. rewrite Hr0 in Hw.
  assert (Hmid : exists mid, r0 = mid ++ [125%N]).
  { destruct r0 as [|x r0 _] using rev_ind.
    - rewrite Hw in Hk. apply app_inj_tail in Hk as [_ Hk]. discriminate.
    - rewrite Hw in Hk.
      change (w ++ 123%N :: r0 ++ [x]) with (w ++ (123%N :: r0) ++ [x]) in Hk.
      rewrite app_assoc in Hk. apply app_inj_tail in Hk as [_ ->]. eauto. }
  destruct Hmid as [mid ->].
  exists (w1 ++ w), mid, w2. split; [|split].
  - rewrite Hraw at 1. rewrite Hw. now rewrite <- !app_assoc.
  - rewrite forallb_app, P1, Pw. reflexivity.
  - assumption.
Qed.

Lemma json_ws_is_space c : JSON.is_ws c = true -> JsStr.is_space c = true.
Proof.
  unfold JSON.is_ws, JsStr.is_space, JsStr.is_white_space, JsStr.is_line_terminator.
  intros H. repeat (apply orb_true_iff in H as [H|H]);
    apply N.eqb_eq in H; subst; reflexivity.
Qed.

Lemma forallb_impl {A} (p q : A -> bool) l :
  (forall x, p x = true -> q x = true) -> forallb p l = true -> forallb q l = true.
Proof.
  intros Hpq. induction l as [|x l IH]; simpl; [auto|].
  intros H. apply andb_true_iff in H as [Hx Hl]. rewrite (Hpq _ Hx). auto.
Qed.

(* ---------- the patterns on a text without fences, and on an object ---------- *)

Lemma ticks_eq : ticks = [96; 96; 96]%N.
Proof. reflexivity. Qed.

Lemma fence_re_eq :
  fence_re = [Plain (Chr 96); Plain (Chr 96); Plain (Chr 96); Plain (Star JsStr.is_space)].
Proof. reflexivity. Qed.

Lemma fence_json_re_eq :
  fence_json_re =
  [Plain (ChrI 96); Plain (ChrI 96); Plain (ChrI 96); Plain (ChrI 106);
   Plain (ChrI 115); Plain (ChrI 111); Plain (ChrI 110); Plain (Star JsStr.is_space)].
Proof. reflexivity. Qed.

Lemma fence_needs_ticks s :
  JsStr.starts_with ticks s = false -> m_items fence_re None s = None.
Proof.
  rewrite ticks_eq, fence_re_eq. intros H.
  destruct s as [|a [|b [|c s]]]; simpl in *; try reflexivity;
    repeat match goal with
    | |- context [(?x =? 96)%N] => destruct (N.eqb_spec x 96); subst; simpl in *
    end; try reflexivity; discriminate.
Qed.

Lemma canonicalize_tick x :
  (canonicalize x =? canonicalize 96)%N = true -> x = 96%N.
Proof.
  unfold canonicalize.
  change ((97 <=? 96)%N && (96 <=? 122)%N) with false. cbv iota.
  destruct ((97 <=? x)%N && (x <=? 122)%N) eqn:E; intros H; apply N.eqb_eq in H.
  - apply andb_true_iff in E as [E1 E2].
    apply N.leb_le in E1, E2. lia.
  - assumption.
Qed.

Lemma fence_json_needs_ticks s :
  JsStr.starts_with ticks s = false -> m_items fence_json_re None s = None.
Proof.
  rewrite ticks_eq, fence_json_re_eq. intros H.
  destruct s as [|a [|b [|c s]]]; simpl in *; try reflexivity;
    repeat match goal with
    | |- context [(canonicalize ?x =? canonicalize 96)%N] =>
        let E := fresh "E" in
        destruct (canonicalize x =? canonicalize 96)%N eqn:E;
        [apply canonicalize_tick in E; subst; simpl in *|]
    end; try reflexivity; discriminate.
Qed.

Lemma includes_cons c s nd :
  JsStr.includes (c :: s) nd = false ->
  JsStr.starts_with nd (c :: s) = false /\ JsStr.includes s nd = false.
Proof. simpl. intros H. apply orb_false_iff in H. exact H. Qed.

Lemma replace_loop_id r f :
  (forall s, JsStr.starts_with ticks s = false -> m_items r None s = None) ->
  forall fuel s, JsStr.includes s ticks = false -> replace_loop fuel r f s = s.
Proof.
  intros Hr. induction fuel as [|fuel IH]; intros s Hs; [reflexivity|].
  destruct s as [|c s]; simpl.
  - rewrite Hr by reflexivity. reflexivity.
  - apply includes_cons in Hs as [H1 H2]. rewrite (Hr _ H1).
    f_equal. now apply IH.
Qed.

Lemma strip_fences_plain raw :
  JsStr.includes raw ticks = false -> strip_fences raw = JsStr.trim raw.
Proof.
  intros H. unfold strip_fences, replace_all.
  rewrite (replace_loop_id fence_json_re) by (auto using fence_json_needs_ticks).
  rewrite (replace_loop_id fence_re) by (auto using fence_needs_ticks).
  reflexivity.
Qed.

Lemma star_any_to_last_brace mid :
  star_greedy any_char
    (m_atom (Chr 125) (fun s => Some (@None jsstring, s))) (mid ++ [125%N])
  = Some (None, []).
Proof.
  induction mid as [|c mid IH]; [reflexivity|].
  simpl. simpl in IH. rewrite IH. reflexivity.
Qed.

Lemma exec_from_hit r s i cap rest :
  m_items r None s = Some (cap, rest) ->
  exec_from r s i
  = Some {| index := i; matched := take (length s - length rest) s; group1 := cap |}.
Proof. intros H. destruct s; simpl; rewrite H; reflexivity. Qed.

Lemma exec_object_whole mid :
  exec object_re (123%N :: mid ++ [125%N])
  = Some {| index := 0; matched := 123%N :: mid ++ [125%N]; group1 := None |}.
Proof.
  assert (E : m_items object_re None (123%N :: mid ++ [125%N]) = Some (None, [])).
  { simpl. apply star_any_to_last_brace. }
  unfold exec. rewrite (exec_from_hit _ _ _ _ _ E).
  change (length (@nil N)) with 0%nat. now rewrite Nat.sub_0_r, firstn_all.
Qed.

(** C8. A completion text that is the text of a JSON object and holds no
    fence marker passes the first tier: the cleaning of lines 35-41 leaves
    the object with the white space around it removed, its parse gives the
    same record, and [parseGeminiJSON] returns the record [JSON.parse]
    gives for the text itself. *)
Theorem tier1_direct_parse raw o :
  JSON.parse raw = inr (VObj o) ->
  JsStr.includes raw (JsStr.lit "```") = false ->
  JSON.parse (cleaned1 raw) = inr (VObj o) /\ parseGeminiJSON raw = ret (VObj o).
Proof.
  intros Hp Hf.
  destruct (parse_object_shape _ _ Hp) as (w1 & mid & w2 & Hraw & P1 & P2).
  assert (Hc : cleaned1 raw = 123%N :: mid ++ [125%N]).
  { unfold cleaned1. rewrite (strip_fences_plain _ Hf). unfold JsStr.trim.
    rewrite (trim_with_unique _ _ _ _ _ _ _ Hraw)
      by (eauto using forallb_impl, json_ws_is_space).
    now rewrite exec_object_whole. }
  assert (Ht : JSON.trim raw = 123%N :: mid ++ [125%N]).
  { unfold JSON.trim. now rewrite (trim_with_unique _ _ _ _ _ _ _ Hraw). }
  assert (Ht' : JSON.trim (123%N :: mid ++ [125%N]) = 123%N :: mid ++ [125%N]).
  { unfold JSON.trim. apply (trim_with_unique _ _ [] []); auto.
    now rewrite app_nil_r. }
  assert (Hq : JSON.parse (cleaned1 raw) = inr (VObj o)).
  { rewrite Hc. unfold JSON.parse in *. rewrite Ht'. rewrite Ht in Hp. exact Hp. }
  split; [exact Hq|]. unfold parseGeminiJSON. now rewrite Hq.
Qed.
(* ---------- the fuel of the parser ---------- *)

Lemma lex_string_fuel_n n : forall s acc,
  length s <= n -> JSON.lex_string s acc <> inl JSON.Exhausted.
Proof.
  induction n as [|n IH]; intros s acc Hlen H.
  - destruct s; [discriminate H | simpl in Hlen; lia].
  - destruct s as [|c s]; [discriminate H|]. simpl in Hlen, H.
    break_all H; (eapply IH; [|exact H]); simpl in *; lia.
Qed.

Lemma lex_string_fuel s acc : JSON.lex_string s acc <> inl JSON.Exhausted.
Proof. apply (lex_string_fuel_n (length s)). lia. Qed.

Lemma lex_digits1_fuel s : JSON.lex_digits1 s <> inl JSON.Exhausted.
Proof. unfold JSON.lex_digits1. intros H. break_all H. Qed.

Lemma lex_number_fuel s : JSON.lex_number s <> inl JSON.Exhausted.
Proof.
  unfold JSON.lex_number, JSON.lex_int, JSON.lex_fraction, JSON.lex_exponent.
  intros H.
  repeat match goal with
    | E : JSON.lex_digits1 _ = inl JSON.Exhausted |- _ =>
        exfalso; exact (lex_digits1_fuel _ E)
    | E : _ = _ |- _ => discriminate E
    | E : inl _ = inl JSON.Exhausted |- _ => injection E as ->
    | E : context [match ?x with _ => _ end] |- _ => destruct x eqn:?
    | E : context [if ?x then _ else _] |- _ => destruct x eqn:?
    end.
Qed.

Lemma lex_literal_fuel s : JSON.lex_literal s <> inl JSON.Exhausted.
Proof. unfold JSON.lex_literal. intros H. break_all H. Qed.

Lemma suffix_length_le (a b : jsstring) : a `suffix_of` b -> length a <= length b.
Proof. intros [k ->]. rewrite length_app. lia. Qed.

Lemma parse_fuel n :
  (forall s, length s < n -> JSON.parse_value n s <> inl JSON.Exhausted) /\
  (forall acc s, length s < n -> JSON.parse_elems n acc s <> inl JSON.Exhausted) /\
  (forall acc s, length s < n -> JSON.parse_member n acc s <> inl JSON.Exhausted).
Proof.
  induction n as [|n (IHv & IHe & IHm)]; [split_and!; intros; lia|].
  split_and!.
  - intros s Hlen H. simpl in H.
    break_all H.
    all: repeat match goal with
      | E : JSON.skip_ws _ = _ |- _ =>
          apply skip_ws_eq_suffix, suffix_length_le in E; simpl in E
      | E : JSON.parse_value _ _ = inr _ |- _ =>
          apply (parse_shape n) in E; destruct E as [E _];
          apply suffix_length_le in E; simpl in E
      | E : JSON.lex_string _ _ = inl _ |- _ =>
          injection H as ->; exact (lex_string_fuel _ _ E)
      | E : JSON.lex_number _ = inl _ |- _ =>
          injection H as ->; exact (lex_number_fuel _ E)
      end.
    all: try (exact (lex_literal_fuel _ H)).
    all: first [ (eapply IHm; [|exact H]); simpl; lia
               | (eapply IHe; [|exact H]); simpl; lia
               | injection H as ->; (eapply IHv; [|eassumption]); simpl; lia ].
  - intros acc s Hlen H. simpl in H.
    break_all H.
    all: repeat match goal with
      | E : JSON.skip_ws _ = _ |- _ =>
          apply skip_ws_eq_suffix, suffix_length_le in E; simpl in E
      | E : JSON.parse_value _ _ = inr _ |- _ =>
          apply (parse_shape n) in E; destruct E as [E _];
          apply suffix_length_le in E; simpl in E
      end.
    all: first [ (eapply IHe; [|exact H]); simpl; lia
               | injection H as ->; (eapply IHv; [|eassumption]); simpl; lia ].
  - intros acc s Hlen H. simpl in H.
    break_all H.
    all: repeat match goal with
      | E : JSON.skip_ws _ = _ |- _ =>
          apply skip_ws_eq_suffix, suffix_length_le in E; simpl in E
      | E : JSON.parse_value _ _ = inr _ |- _ =>
          apply (parse_shape n) in E; destruct E as [E _];
          apply suffix_length_le in E; simpl in E
      | E : JSON.lex_string _ _ = inr _ |- _ =>
          apply lex_string_suffix, suffix_length_le in E; simpl in E
      | E : JSON.lex_string _ _ = inl _ |- _ =>
          injection H as ->; exact (lex_string_fuel _ _ E)
      end.
    all: first [ (eapply IHm; [|exact H]); simpl; lia
               | injection H as ->; (eapply IHv; [|eassumption]); simpl; lia ].
Qed.

(** [JSON.parse] never runs out of fuel: its answer is a value or one of
    the two syntax errors. *)
Lemma JSON_parse_fuel s : JSON.parse s <> inl JSON.Exhausted.
Proof.
  unfold JSON.parse. intros H.
  destruct (JSON.parse_value _ _) as [e|[v [|c r]]] eqn:E; try discriminate H.
  injection H as ->.
  apply (proj1 (parse_fuel (S (length (JSON.trim s)))) (JSON.trim s)) in E; [exact E|lia].
Qed.

Local Open Scope Z_scope.

(* ---------- the calendar ---------- *)

Lemma civil_from_days_inv n :
  let '(y, m, d) := JsDate.civil_from_days n in
  JsDate.days_from_civil y m d = n /\ 1 <= m <= 12 /\ 1 <= d <= 31.
Proof.
  unfold JsDate.civil_from_days, JsDate.days_from_civil.
  set (z := n + 719468).
  set (era := z / 146097). set (doe := z mod 146097).
  set (c := Z.min (doe / 36524) 3). set (doc := doe - 36524 * c).
  set (q := doc / 1461). set (doq := doc mod 1461).
  set (y4 := Z.min (doq / 365) 3). set (doy := doq - 365 * y4).
  set (mp := (5 * doy + 2) / 153).
  assert (Hdoe : 0 <= doe < 146097) by (apply Z.mod_pos_bound; lia).
  assert (Hz : z = 146097 * era + doe) by (apply Z.div_mod; lia).
  assert (Hc : 0 <= c <= 3 /\ 0 <= doc <= 36524 /\ (c <= 2 -> doc < 36524))
    by (unfold doc, c; div_lia).
  assert (Hq : 0 <= q <= 24 /\ 0 <= doq <= 1460 /\ doc = 1461 * q + doq /\
               (q = 24 -> c <= 2 -> doq < 1460))
    by (unfold q, doq; div_lia).
  assert (Hy4 : 0 <= y4 <= 3 /\ 0 <= doy <= 365 /\ (y4 <= 2 -> doy < 365))
    by (unfold doy, y4; div_lia).
  assert (Hmp : 0 <= mp <= 11 /\ 1 <= doy - (153 * mp + 2) / 5 + 1 <= 31)
    by (unfold mp; div_lia).
  assert (E1 : (100 * c + 4 * q + y4 + era * 400) / 400 = era) by div_lia.
  assert (E2 : (100 * c + 4 * q + y4 + era * 400) mod 400 = 100 * c + 4 * q + y4)
    by div_lia.
  assert (E3 : (100 * c + 4 * q + y4) / 4 = 25 * c + q) by div_lia.
  assert (E4 : (100 * c + 4 * q + y4) / 100 = c) by div_lia.
  destruct (mp <? 10) eqn:Emp.
  - apply Z.ltb_lt in Emp.
    replace (mp + 3 <=? 2) with false by (symmetry; apply Z.leb_gt; lia).
    replace (mp + 3 - 3) with mp by lia.
    rewrite E1, E2, E3, E4. unfold doy, doc in *. lia.
  - apply Z.ltb_ge in Emp.
    replace (mp - 9 <=? 2) with true by (symmetry; apply Z.leb_le; lia).
    replace (mp - 9 + 9) with mp by lia.
    replace (100 * c + 4 * q + y4 + era * 400 + 1 - 1)
      with (100 * c + 4 * q + y4 + era * 400) by lia.
    rewrite E1, E2, E3, E4. unfold doy, doc in *. lia.
Qed.

Lemma civil_year_range n :
  four_digit_year n ->
  let '(y, m, d) := JsDate.civil_from_days n in 0 <= y <= 9999.
Proof.
  unfold four_digit_year. intros Hn.
  pose proof (civil_from_days_inv n) as H.
  destruct (JsDate.civil_from_days n) as [[y m] d].
  destruct H as (H & Hm & Hd). unfold JsDate.days_from_civil in H.
  destruct (m <=? 2) eqn:Em.
  - apply Z.leb_le in Em.
    assert (0 <= (153 * (m + 9) + 2) / 5 - 306 <= 31) by div_lia.
    div_lia.
  - apply Z.leb_gt in Em.
    assert (0 <= (153 * (m - 3) + 2) / 5 <= 275) by div_lia.
    div_lia.
Qed.

Lemma fixed_digits_length w : forall n, length (JsNum.fixed_digits w n) = w.
Proof.
  induction w as [|w IH]; intros n; simpl; [reflexivity|].
  rewrite length_app, IH. simpl. lia.
Qed.

Lemma fixed_digits_inj w : forall a b,
  0 <= a < 10 ^ Z.of_nat w -> 0 <= b < 10 ^ Z.of_nat w ->
  JsNum.fixed_digits w a = JsNum.fixed_digits w b -> a = b.
Proof.
  induction w as [|w IH]; intros a b Ha Hb H.
  - simpl in Ha, Hb. lia.
  - simpl in H. apply app_inj_tail in H as [H1 H2].
    rewrite Nat2Z.inj_succ, Z.pow_succ_r in Ha, Hb by lia.
    assert (E : a / 10 = b / 10) by (apply IH; [div_lia | div_lia | exact H1]).
    assert (Ea : 0 <= a mod 10 < 10) by (apply Z.mod_pos_bound; lia).
    assert (Eb : 0 <= b mod 10 < 10) by (apply Z.mod_pos_bound; lia).
    assert (E' : a mod 10 = b mod 10) by lia.
    rewrite (Z.div_mod a 10), (Z.div_mod b 10) by lia. congruence.
Qed.

Lemma iso_date_four n :
  four_digit_year n ->
  let '(y, m, d) := JsDate.civil_from_days n in
  JsDate.iso_date n =
    JsNum.fixed_digits 4 y ++ [45%N] ++ JsNum.fixed_digits 2 m ++ [45%N] ++
    JsNum.fixed_digits 2 d.
Proof.
  intros Hn. pose proof (civil_year_range n Hn) as Hy.
  unfold JsDate.iso_date, JsDate.iso_year.
  destruct (JsDate.civil_from_days n) as [[y m] d].
  replace ((0 <=? y) && (y <=? 9999)) with true; [reflexivity|].
  symmetry. apply andb_true_iff. split; apply Z.leb_le; lia.
Qed.

Lemma iso_date_length n : four_digit_year n -> length (JsDate.iso_date n) = 10%nat.
Proof.
  intros Hn. pose proof (iso_date_four n Hn) as H.
  destruct (JsDate.civil_from_days n) as [[y m] d]. rewrite H.
  rewrite !length_app, !fixed_digits_length. reflexivity.
Qed.

Lemma iso_date_inj a b :
  four_digit_year a -> four_digit_year b ->
  JsDate.iso_date a = JsDate.iso_date b -> a = b.
Proof.
  intros Ha Hb H.
  pose proof (iso_date_four a Ha) as Fa. pose proof (iso_date_four b Hb) as Fb.
  pose proof (civil_year_range a Ha) as Ya. pose proof (civil_year_range b Hb) as Yb.
  pose proof (civil_from_days_inv a) as Ia. pose proof (civil_from_days_inv b) as Ib.
  destruct (JsDate.civil_from_days a) as [[y1 m1] d1].
  destruct (JsDate.civil_from_days b) as [[y2 m2] d2].
  rewrite Fa, Fb in H.
  apply app_inj_1 in H as [Hy H]; [|now rewrite !fixed_digits_length].
  apply app_inj_1 in H as [_ H]; [|reflexivity].
  apply app_inj_1 in H as [Hm H]; [|now rewrite !fixed_digits_length].
  apply app_inj_1 in H as [_ Hd]; [|reflexivity].
  apply fixed_digits_inj in Hy; [|simpl; lia..].
  apply fixed_digits_inj in Hm; [|simpl; lia..].
  apply fixed_digits_inj in Hd; [|simpl; lia..].
  destruct Ia as [Ia _], Ib as [Ib _]. congruence.
Qed.

Lemma slice_iso_date t :
  four_digit_year (JsDate.Day t) ->
  JsStr.slice0 (JsDate.toISOString t) 10 = JsDate.iso_date (JsDate.Day t).
Proof.
  intros H. unfold JsStr.slice0, JsDate.toISOString.
  rewrite <- (iso_date_length _ H) at 1. apply take_app_length.
Qed.

Lemma Day_yesterday now : JsDate.Day (now - 86400000) = JsDate.Day now - 1.
Proof. unfold JsDate.Day, JsDate.msPerDay. div_lia. Qed.

Lemma clock_days now :
  clock_in_range now ->
  four_digit_year (JsDate.Day now) /\ four_digit_year (JsDate.Day now - 1).
Proof.
  unfold clock_in_range, four_digit_year, JsDate.Day, JsDate.msPerDay.
  change (JsDate.of_date 10000 1 1) with 253402300800000. intros H.
  split; div_lia.
Qed.

Lemma todayKey_date now :
  clock_in_range now -> todayKey now = JsDate.iso_date (JsDate.Day now).
Proof.
  intros H. unfold todayKey. rewrite slice_iso_date; [reflexivity|].
  apply clock_days, H.
Qed.

Lemma yesterdayKey_date now :
  clock_in_range now -> yesterdayKey now = JsDate.iso_date (JsDate.Day now - 1).
Proof.
  intros H. unfold yesterdayKey. rewrite slice_iso_date; rewrite Day_yesterday.
  - reflexivity.
  - apply clock_days, H.
Qed.

Lemma today_not_yesterday now :
  clock_in_range now -> todayKey now <> yesterdayKey now.
Proof.
  intros H E. rewrite todayKey_date, yesterdayKey_date in E by assumption.
  destruct (clock_days now H) as [H1 H2].
  apply iso_date_inj in E; [lia | assumption..].
Qed.

(** C4. For every ledger whose count is [NaN] or an integer that a double
    holds exactly together with its successor, and every clock from 1970
    to the end of the year 9999, with [today] the date of the clock and
    [yesterday] the date of the day before: [bumpStreak] gives the count
    plus one when the last completion was yesterday, the count itself when
    it was today, and 1 otherwise; it stores today as the date of the last
    completion and the new count, and changes no other key. *)
Theorem bumpStreak_rule (st : storage) (now : Z) :
  clock_in_range now ->
  safe_integer (count (loadStreak st)) ->
  let today := todayKey now in
  let yesterday := JsDate.iso_date (JsDate.Day now - 1) in
  let s := loadStreak st in
  let st' := fst (bumpStreak now st) in
  let newCount := snd (bumpStreak now st) in
  today = JsDate.iso_date (JsDate.Day now) /\
  (last s = yesterday ->
     newCount = JsNum.succ (count s) /\
     forall n, count s = Some n -> newCount = Some (n + 1)) /\
  (last s = today -> newCount = count s) /\
  (last s <> yesterday -> last s <> today -> newCount = Some 1) /\
  st' !! od_streak_date = Some today /\
  st' !! od_streak = Some (JsNum.to_string newCount) /\
  (forall k, k <> od_streak -> k <> od_streak_date -> st' !! k = st !! k).
Proof.
  intros Hc _. cbv zeta.
  pose proof (today_not_yesterday now Hc) as Hne.
  rewrite <- (yesterdayKey_date now Hc).
  unfold bumpStreak. cbn [fst snd].
  split_and!.
  - apply todayKey_date, Hc.
  - intros ->. rewrite jsstr_eqb_refl. split; [reflexivity|].
    now intros n ->.
  - intros E. rewrite E.
    replace (JsStr.eqb (todayKey now) (yesterdayKey now)) with false
      by (symmetry; now apply jsstr_eqb_neq).
    now rewrite jsstr_eqb_refl.
  - intros H1 H2.
    apply jsstr_eqb_neq in H1, H2. now rewrite H1, H2.
  - apply lookup_insert_eq.
  - rewrite lookup_insert_ne by (vm_compute; discriminate). apply lookup_insert_eq.
  - intros k H1 H2. rewrite !lookup_insert_ne by congruence. reflexivity.
Qed.
(* ---------- the history list ---------- *)

Lemma dedupe_filter entry hist :
  Forall (fun h => Js.nullish h = false) hist -> Js.nullish entry = false ->
  dedupe entry hist = ret (List.filter (other_date entry) hist).
Proof.
  intros Hh He. induction Hh as [|h hist Hn _ IH]; [reflexivity|].
  simpl. rewrite (member_get _ _ Hn), (member_get _ _ He). simpl.
  rewrite IH. simpl. unfold other_date, date_of.
  now destruct (strict_eq _ _).
Qed.

Lemma filter_all {A} (p : A -> bool) l :
  (forall x, In x l -> p x = true) -> List.filter p l = l.
Proof.
  induction l as [|x l IH]; intros H; [reflexivity|]. simpl.
  rewrite (H x) by (now left). f_equal. apply IH. intros y Hy. apply H. now right.
Qed.

Lemma in_take {A} (x : A) n l : In x (take n l) -> In x l.
Proof.
  revert l. induction n as [|n IH]; intros [|y l]; simpl; try tauto.
  intros [->|H]; [now left | right; now apply IH].
Qed.

Lemma take_cons_take {A} (x : A) n l : take (S n) (x :: take (S n) l) = take (S n) (x :: l).
Proof.
  simpl. f_equal. rewrite take_take. f_equal. apply Nat.min_l. apply Nat.le_succ_diag_r.
Qed.

Lemma distinct_dates_other e x :
  has_string_date e -> has_string_date x -> date_of x <> date_of e ->
  other_date e x = true.
Proof.
  intros [d He] [d' Hx] Hne. unfold other_date. rewrite He, Hx in *. simpl.
  apply negb_true_iff, jsstr_eqb_neq. intros ->. now apply Hne.
Qed.

Lemma completed_sequence es :
  Forall has_string_date es -> NoDup (map date_of es) ->
  fold_left completed es [] = take 60 (rev es).
Proof.
  induction es as [|e es IH] using rev_ind; intros Hs Hd; [reflexivity|].
  rewrite fold_left_app. simpl.
  apply Forall_app in Hs as [Hs He]. apply Forall_inv in He.
  rewrite map_app in Hd. simpl in Hd.
  apply NoDup_app in Hd as (Hd & Hfresh & _).
  rewrite (IH Hs Hd). unfold completed, next_history.
  rewrite filter_all.
  - rewrite rev_app_distr. simpl rev. simpl app.
    apply (take_cons_take e 59).
  - intros x Hx. apply in_take, in_rev in Hx.
    apply distinct_dates_other; [assumption | | ].
    + rewrite Forall_forall in Hs. apply Hs, list_elem_of_In, Hx.
    + intros E. apply (Hfresh (date_of x)).
      * apply list_elem_of_In, in_map, Hx.
      * rewrite E. now left.
Qed.

Lemma completed_tail hist entry h :
  In h (tl (completed hist entry)) ->
  In h hist /\ strict_eq (date_of h) (date_of entry) = false.
Proof.
  unfold completed, next_history. simpl. intros H.
  apply in_take, filter_In in H as [H1 H2].
  split; [assumption|]. now apply negb_true_iff.
Qed.

Lemma completed_length hist entry : (length (completed hist entry) <= 60)%nat.
Proof. unfold completed, next_history. rewrite length_take. lia. Qed.

(** C5. For a stored history [hist] and an entry: [pushHistory] stores the
    entry followed by the entries of [hist] with another date, cut to 60;
    the entry is first, no later entry has its date.  The entry lines
    468-472 build is the record of the date of the day, the day, the title
    and the category of the challenge, its [diff] as difficulty, and the
    analysis cut to 120 characters; it is the entry lines 465-474 push
    after the streak is bumped.  Completions on distinct dates give the 60
    latest, the latest first; after 61 of them the oldest is gone. *)
Theorem pushHistory_update (JSON_stringify : value -> jsstring)
  (st : storage) (entry : value) (hist : list value) :
  loadHistory st = VArr hist ->
  Forall (fun h => Js.nullish h = false) hist ->
  Js.nullish entry = false ->
  pushHistory JSON_stringify entry st
    = <[od_history := JSON_stringify (VArr (completed hist entry))]> st /\
  completed hist entry = take 60 (entry :: List.filter (other_date entry) hist) /\
  hd_error (completed hist entry) = Some entry /\
  (length (completed hist entry) <= 60)%nat /\
  (forall h, In h (tl (completed hist entry)) ->
     In h hist /\ strict_eq (date_of h) (date_of entry) = false) /\
  (forall now challenge analysis,
     let e := history_entry now challenge analysis in
     e = VObj [(JsStr.lit "date", VStr (todayKey now));
               (JsStr.lit "day", Js.get challenge (JsStr.lit "day"));
               (JsStr.lit "title", Js.get challenge (JsStr.lit "title"));
               (JsStr.lit "category", Js.get challenge (JsStr.lit "category"));
               (JsStr.lit "difficulty", Js.get challenge (JsStr.lit "diff"));
               (JsStr.lit "analysis", VStr (take 120 analysis))] /\
     date_of e = VStr (todayKey now) /\
     fst (recordCompletion JSON_stringify now challenge analysis st) !! od_history
       = Some (JSON_stringify (VArr (completed hist e)))) /\
  (forall es, Forall has_string_date es -> NoDup (map date_of es) ->
     fold_left completed es [] = take 60 (rev es)) /\
  (forall oldest es, length es = 60%nat ->
     Forall has_string_date (oldest :: es) -> NoDup (map date_of (oldest :: es)) ->
     fold_left completed (oldest :: es) [] = rev es).
Proof.
  intros Hl Hh He. split_and!.
  - unfold pushHistory. rewrite Hl, (dedupe_filter _ _ Hh He). reflexivity.
  - reflexivity.
  - reflexivity.
  - apply completed_length.
  - apply completed_tail.
  - intros now challenge analysis. cbv zeta. split_and!; [reflexivity..|].
    unfold recordCompletion, bumpStreak. cbn [fst snd].
    set (st1 := <[od_streak_date := _]> (<[od_streak := _]> st)).
    assert (Hl1 : loadHistory st1 = VArr hist).
    { rewrite <- Hl. unfold loadHistory, getItem_or, st1.
      rewrite !lookup_insert_ne by (vm_compute; discriminate). reflexivity. }
    unfold pushHistory. rewrite Hl1.
    rewrite (dedupe_filter (history_entry now challenge analysis) hist Hh eq_refl).
    apply lookup_insert_eq.
  - apply completed_sequence.
  - intros oldest es Hlen Hs Hd. rewrite (completed_sequence _ Hs Hd).
    simpl rev. rewrite <- (length_rev es) in Hlen. rewrite <- Hlen.
    apply take_app_length.
Qed.
(* ---------- the third tier ---------- *)

Lemma rebuild_spec cleaned v : rebuild cleaned = Some v <-> rebuilds_to cleaned v.
Proof.
  unfold rebuilds_to, rebuilt. split.
  - unfold rebuild. intros H.
    destruct (titleMatch cleaned) as [a|]; [|discriminate].
    destruct (problemMatch cleaned) as [b|]; [|discriminate].
    destruct (hintsMatch cleaned) as [c|]; [|discriminate].
    destruct (metricsMatch cleaned) as [d|]; [|discriminate].
    destruct (toolsMatch cleaned) as [e|]; [|discriminate].
    destruct (teachingMatch cleaned) as [f|]; [|discriminate].
    destruct (parse_list c) as [|h] eqn:Eh; [discriminate|].
    destruct (parse_list d) as [|k] eqn:Ek; [discriminate|].
    destruct (parse_list e) as [|t] eqn:Et; [discriminate|].
    injection H as <-. exists a, b, c, d, e, f, h, k, t. tauto.
  - intros (a & b & c & d & e & f & h & k & t & Ha & Hb & Hc & Hd & He & Hf &
            Hh & Hk & Ht & ->).
    unfold rebuild. rewrite Ha, Hb, Hc, Hd, He, Hf, Hh, Hk, Ht. reflexivity.
Qed.

Lemma rebuild_needs_all cleaned v : rebuild cleaned = Some v -> all_extracted cleaned.
Proof.
  intros H. apply rebuild_spec in H.
  destruct H as (a & b & c & d & e & f & h & k & t & Ha & Hb & Hc & Hd & He & Hf & _).
  unfold all_extracted. rewrite Ha, Hb, Hc, Hd, He, Hf. eauto 10.
Qed.

(** C2 (as amended). When the first two tiers fail, [parseGeminiJSON]
    returns a record exactly when the six patterns match and each of the
    three bracketed lists parses as JSON, and the record is the one built
    from the six pieces; it throws the message of the first tier's error
    when that is not so, in particular when one of the patterns does not
    match. *)
Theorem rebuild_rule raw e1 e2 :
  JSON.parse (cleaned1 raw) = inl e1 ->
  JSON.parse (cleaned2 raw) = inl e2 ->
  (forall v, parseGeminiJSON raw = ret v <-> rebuilds_to (cleaned2 raw) v) /\
  ((forall v, ~ rebuilds_to (cleaned2 raw) v) ->
     parseGeminiJSON raw = throw (parse_failure e1)) /\
  (~ all_extracted (cleaned2 raw) ->
     parseGeminiJSON raw = throw (parse_failure e1)).
Proof.
  intros H1 H2. unfold parseGeminiJSON. rewrite H1, H2.
  split_and!.
  - intros v. rewrite <- rebuild_spec.
    destruct (rebuild (cleaned2 raw)); unfold ret, throw; split; congruence.
  - intros Hno. destruct (rebuild (cleaned2 raw)) as [v|] eqn:E; [|reflexivity].
    apply rebuild_spec in E. now apply Hno in E.
  - intros Hno. destruct (rebuild (cleaned2 raw)) as [v|] eqn:E; [|reflexivity].
    apply rebuild_needs_all in E. contradiction.
Qed.

(** The six patterns match on [unparsable_list], whose list of hints is
    not JSON; the third tier fails. *)
Lemma rebuild_list_failure :
  JSON.parse (cleaned1 unparsable_list) = inl (JSON.UnexpectedToken 58) /\
  JSON.parse (cleaned2 unparsable_list) = inl (JSON.UnexpectedToken 58) /\
  titleMatch (cleaned2 unparsable_list) = Some (JsStr.lit "T") /\
  problemMatch (cleaned2 unparsable_list) = Some (JsStr.lit "P") /\
  hintsMatch (cleaned2 unparsable_list) = Some (JsStr.lit "x") /\
  metricsMatch (cleaned2 unparsable_list) = Some [] /\
  toolsMatch (cleaned2 unparsable_list) = Some [] /\
  teachingMatch (cleaned2 unparsable_list) = Some (JsStr.lit "Z") /\
  parseGeminiJSON unparsable_list = throw (parse_failure (JSON.UnexpectedToken 58)).
Proof. split_and!; vm_compute; reflexivity. Qed.

(* ---------- the check of the six fields ---------- *)

Lemma validate_spec parsed :
  validate parsed =
    if Js.nullish parsed then throw (Js.type_error_read parsed (JsStr.lit "title"))
    else if has_fields parsed then ret tt else throw missing_fields.
Proof.
  unfold validate, Js.member, has_fields, required_fields.
  destruct (Js.nullish parsed); [reflexivity|]. simpl.
  repeat match goal with
  | |- context [Js.truthy ?x] => destruct (Js.truthy x); simpl; try reflexivity
  end.
Qed.

Lemma has_fields_object v : has_fields v = true -> exists o, v = VObj o.
Proof.
  destruct v; try (vm_compute; discriminate); eauto.
Qed.

(** C3 (as amended). What a tier returns is accepted exactly when it is not
    [null] or [undefined] and each of the six fields has a truthy value;
    it is then returned as it is.  A [null] makes the check throw a
    TypeError, a field that is missing or falsy the message of line 383. *)
Theorem recover_checks_presence raw parsed :
  parseGeminiJSON raw = ret parsed ->
  recover raw =
    (if Js.nullish parsed then throw (Js.type_error_read parsed (JsStr.lit "title"))
     else if has_fields parsed then ret parsed
     else throw missing_fields) /\
  (forall v, recover raw = ret v ->
     v = parsed /\ (exists o, v = VObj o) /\
     Forall (fun f => Js.truthy (Js.get v f) = true) required_fields).
Proof.
  intros Hp.
  assert (E : recover raw =
    (if Js.nullish parsed then throw (Js.type_error_read parsed (JsStr.lit "title"))
     else if has_fields parsed then ret parsed else throw missing_fields)).
  { unfold recover. rewrite Hp. simpl. rewrite validate_spec.
    destruct (Js.nullish parsed); [reflexivity|].
    destruct (has_fields parsed); reflexivity. }
  split; [exact E|]. intros v Hv. rewrite E in Hv.
  destruct (Js.nullish parsed); [discriminate|].
  destruct (has_fields parsed) eqn:Hf; [|discriminate].
  injection Hv as <-. split_and!.
  - reflexivity.
  - now apply has_fields_object.
  - apply Forall_forall. intros f Hin.
    unfold has_fields in Hf. rewrite forallb_forall in Hf.
    apply Hf, list_elem_of_In, Hin.
Qed.

(** A record whose six fields are numbers is accepted. *)
Lemma recover_accepts_wrong_shapes :
  recover numbers_for_fields
  = ret (VObj [(JsStr.lit "title", VNum (Fin 1 0)); (JsStr.lit "problem", VNum (Fin 2 0));
               (JsStr.lit "hints", VNum (Fin 3 0)); (JsStr.lit "keyMetrics", VNum (Fin 4 0));
               (JsStr.lit "tools", VNum (Fin 5 0));
               (JsStr.lit "teachingPoint", VNum (Fin 6 0))]) /\
  (forall v, recover numbers_for_fields = ret v -> well_shaped v = false).
Proof.
  split; [vm_compute; reflexivity|].
  intros v H. vm_compute in H. injection H as <-. reflexivity.
Qed.

(* ---------- the empty completion ---------- *)

(** C10. For a response without candidates [callGemini] gives the empty
    text; on the empty text each of the three tiers fails, so
    [parseGeminiJSON] throws, and an attempt whose response has no
    candidates throws. *)
Theorem empty_completion_fails (data : value) :
  Js.nullish data = false -> no_candidates data = true ->
  completion_text data = ret (VStr []) /\
  JSON.parse (cleaned1 []) = inl JSON.UnexpectedEnd /\
  JSON.parse (cleaned2 []) = inl JSON.UnexpectedEnd /\
  rebuild (cleaned2 []) = None /\
  parseGeminiJSON [] = throw (parse_failure JSON.UnexpectedEnd) /\
  recover [] = throw (parse_failure JSON.UnexpectedEnd) /\
  (forall service now m dateKey key w,
     service (requests w) key
       (match buildChallengePrompt now (cat m) (diff m) (day m) with
        | inr prompt => prompt
        | inl _ => []
        end) = Responded data ->
     exists e, fst (generate service now m dateKey key w) = throw e).
Proof.
  intros Hn Hc.
  assert (Ht : completion_text data = ret (VStr [])).
  { unfold completion_text. rewrite (member_get _ _ Hn). simpl.
    unfold no_candidates in Hc.
    destruct (Js.get data (JsStr.lit "candidates")) as [| | | | |[|x l]|];
      try discriminate; reflexivity. }
  split; [exact Ht|].
  do 5 (split; [vm_compute; reflexivity|]).
  intros service now m dateKey key w Hs. unfold generate.
  destruct (buildChallengePrompt now (cat m) (diff m) (day m)) as [e|prompt];
    [simpl; eauto|].
  unfold callGemini. rewrite Hs, Ht. simpl. eauto.
Qed.
(* ---------- objects ---------- *)

Ltac decide_keys :=
  repeat match goal with
  | |- context [JsStr.eqb (JsStr.lit ?a) (JsStr.lit ?b)] =>
      let v := eval vm_compute in (JsStr.eqb (JsStr.lit a) (JsStr.lit b)) in
      replace (JsStr.eqb (JsStr.lit a) (JsStr.lit b)) with v
        by (vm_compute; reflexivity);
      cbv iota
  end.

Lemma lookup_obj_set o k v k' :
  Js.lookup (Js.obj_set o k v) k' = if JsStr.eqb k k' then v else Js.lookup o k'.
Proof.
  induction o as [|[k0 v0] o IH]; simpl.
  - reflexivity.
  - destruct (JsStr.eqb k0 k) eqn:E0; simpl.
    + apply jsstr_eqb_eq in E0 as ->. now destruct (JsStr.eqb k k').
    + rewrite IH. destruct (JsStr.eqb k k') eqn:E1; [|reflexivity].
      apply jsstr_eqb_eq in E1 as <-. now rewrite E0.
Qed.

Lemma lookup_set_all props : forall o k,
  Forall (fun kv => fst kv <> k) props ->
  Js.lookup (set_all o props) k = Js.lookup o k.
Proof.
  unfold set_all. induction props as [|[k0 v0] props IH]; intros o k H; simpl.
  - reflexivity.
  - apply Forall_cons in H as [H0 H]. rewrite (IH _ _ H), lookup_obj_set.
    simpl in H0. apply jsstr_eqb_neq in H0. now rewrite H0.
Qed.

(* ---------- one attempt ---------- *)

Section Attempts.
Variable service : nat -> jsstring -> jsstring -> outcome.
Variables (now : Z) (m : meta) (dateKey key : jsstring).

Let attempt := generate service now m dateKey key.

Lemma attempt_frame w :
  same_but_requests (snd (attempt w)) w /\
  (requests w <= requests (snd (attempt w)) <= S (requests w))%nat.
Proof.
  unfold attempt, generate, same_but_requests.
  destruct (buildChallengePrompt _ _ _ _); simpl; [split_and!; auto; lia|].
  unfold callGemini. destruct (service _ _ _); simpl; split_and!; auto; lia.
Qed.

Lemma attempt_success w full :
  fst (attempt w) = ret full ->
  exists o cat_label, full = full_challenge (VObj o) cat_label m dateKey /\
                      has_fields (VObj o) = true.
Proof.
  unfold attempt, generate.
  destruct (buildChallengePrompt _ _ _ _); simpl; [discriminate|].
  destruct (callGemini _ _ _ _) as [r u]. simpl.
  destruct r as [e|raw]; simpl; [discriminate|].
  destruct (as_string raw) as [e|text]; simpl; [discriminate|].
  destruct (recover text) as [e|parsed] eqn:Hr; simpl; [discriminate|].
  destruct (cat_field label "label" (cat m)) as [e|cat_label]; simpl; [discriminate|].
  intros H. injection H as <-.
  unfold recover in Hr.
  destruct (parseGeminiJSON text) as [e|p] eqn:Hp; simpl in Hr; [discriminate|].
  rewrite validate_spec in Hr.
  destruct (Js.nullish p); [discriminate|].
  destruct (has_fields p) eqn:Hf; simpl in Hr; [|discriminate].
  injection Hr as <-.
  destruct (has_fields_object _ Hf) as [o ->]. eauto.
Qed.

Lemma attempt_success_trace w full :
  fst (attempt w) = ret full ->
  exists o c prompt data text,
    cat m = Some c /\
    buildChallengePrompt now (cat m) (diff m) (day m) = ret prompt /\
    service (requests w) key prompt = Responded data /\
    completion_text data = ret (VStr text) /\
    recover text = ret (VObj o) /\
    full = full_challenge (VObj o) (label c) m dateKey.
Proof.
  unfold attempt, generate.
  destruct (buildChallengePrompt _ _ _ _) as [e|prompt] eqn:Ep; simpl; [discriminate|].
  unfold callGemini.
  destruct (service (requests w) key prompt) as [msg|data] eqn:Es; simpl; [discriminate|].
  destruct (completion_text data) as [e|raw] eqn:Et; simpl; [discriminate|].
  destruct raw as [| | | |text| |]; simpl; try discriminate.
  destruct (recover text) as [e|parsed] eqn:Hr; simpl; [discriminate|].
  destruct (cat m) as [c|] eqn:Ec; simpl; [|discriminate].
  intros H. injection H as <-.
  assert (Ho : exists o, parsed = VObj o).
  { unfold recover in Hr.
    destruct (parseGeminiJSON text) as [e|p]; simpl in Hr; [discriminate|].
    rewrite validate_spec in Hr.
    destruct (Js.nullish p); [discriminate|].
    destruct (has_fields p) eqn:Hf; simpl in Hr; [|discriminate].
    injection Hr as <-. exact (has_fields_object _ Hf). }
  destruct Ho as [o ->]. exists o, c, prompt, data, text.
  split_and!; first [reflexivity | assumption].
Qed.

(** Line 386 on the names it sets and on the others. *)
Lemma full_challenge_reads o cat_label :
  let full := full_challenge (VObj o) cat_label m dateKey in
  Js.get full (JsStr.lit "category") = VStr cat_label /\
  Js.get full (JsStr.lit "cat") = cat_value (cat m) /\
  Js.get full (JsStr.lit "diff") = diff_value (diff m) /\
  Js.get full (JsStr.lit "day") = VNum (Fin (day m) 0) /\
  Js.get full (JsStr.lit "dateKey") = VStr dateKey /\
  (forall k, ~ In k attached_fields -> Js.get full k = Js.get (VObj o) k).
Proof.
  cbv zeta. unfold full_challenge, set_all.
  cbn [spread fold_left fst snd Js.get].
  split_and!.
  - rewrite !lookup_obj_set. decide_keys. reflexivity.
  - rewrite !lookup_obj_set. decide_keys. reflexivity.
  - rewrite !lookup_obj_set. decide_keys. reflexivity.
  - rewrite !lookup_obj_set. decide_keys. reflexivity.
  - rewrite !lookup_obj_set. decide_keys. reflexivity.
  - intros k Hk. rewrite !lookup_obj_set.
    assert (H : forall a, In a attached_fields -> JsStr.eqb a k = false).
    { intros a Ha. apply jsstr_eqb_neq. intros ->. now apply Hk. }
    rewrite !H by (unfold attached_fields; simpl; tauto). reflexivity.
Qed.

Lemma full_challenge_fields o cat_label :
  has_fields (VObj o) = true ->
  Forall (fun f => Js.truthy (Js.get (full_challenge (VObj o) cat_label m dateKey) f) = true)
         required_fields.
Proof.
  intros Hf. apply Forall_forall. intros f Hin.
  unfold has_fields in Hf. rewrite forallb_forall in Hf.
  specialize (Hf f (proj1 (list_elem_of_In _ _) Hin)).
  unfold full_challenge. cbn [Js.get spread].
  rewrite lookup_set_all; [exact Hf|].
  unfold required_fields in Hin.
  repeat (apply elem_of_cons in Hin as [->|Hin]);
    try (now apply elem_of_nil in Hin);
    repeat constructor; simpl; vm_compute; discriminate.
Qed.

End Attempts.

(* ---------- the retry loop ---------- *)

Section Loop.
Variable JSON_stringify : value -> jsstring.
Variable service : nat -> jsstring -> jsstring -> outcome.
Variables (now offset : Z) (key : jsstring).

Local Abbreviation m := (getTodayMeta now offset).
Local Abbreviation dateKey := (dateKey_of now offset).
Local Abbreviation attempt := (generate service now m dateKey key).
Local Abbreviation obtain := (loadOrGenerateChallenge JSON_stringify service now offset key).
Local Abbreviation save := (saveChallenge JSON_stringify dateKey).

Local Abbreviation world_at := (attempt_world service now offset key).
Local Abbreviation failing := (fails service now offset key).
Local Abbreviation success := (succeeded JSON_stringify service now offset key).

Lemma retry_unrolled u :
  retry JSON_stringify service 3 1 now m dateKey key u =
  match attempt u with
  | (inr full, x) => (true, setChallenge full (save full x))
  | (inl _, x1) =>
      match attempt (sleep x1) with
      | (inr full, x) => (true, setChallenge full (save full x))
      | (inl _, x2) =>
          match attempt (sleep x2) with
          | (inr full, x) => (true, setChallenge full (save full x))
          | (inl e, x3) => (false, setGenError (failed_message e) x3)
          end
      end
  end.
Proof.
  simpl.
  destruct (attempt u) as [[e1|f1] x1]; [|reflexivity].
  destruct (attempt (sleep x1)) as [[e2|f2] x2]; [|reflexivity].
  destruct (attempt (sleep x2)) as [[e3|f3] x3]; reflexivity.
Qed.

Lemma miss_starts_loop w :
  localStorage w !! challenge_key dateKey = None ->
  obtain w =
  let '(returned, w2) :=
    retry JSON_stringify service 3 1 now m dateKey key (loop_start w) in
  if returned then w2 else setGenerating false w2.
Proof.
  intros H. unfold loadOrGenerateChallenge, loadChallenge.
  cbv zeta. rewrite H. reflexivity.
Qed.

Lemma attempt_world_frame n w :
  localStorage (world_at n w) = localStorage w /\
  setItems (world_at n w) = setItems w /\
  sleeps (world_at n w) = (sleeps w + n)%nat /\
  challenge (world_at n w) = VNull /\
  genError (world_at n w) = [] /\
  (requests w <= requests (world_at n w) <= requests w + n)%nat.
Proof.
  induction n as [|n IH].
  - simpl. split_and!; auto; lia.
  - simpl.
    destruct IH as (H1 & H2 & H3 & H4 & H5 & H6).
    destruct (attempt_frame service now m dateKey key (world_at n w))
      as [(F1 & F2 & F3 & F4 & F5 & F6) F7].
    split_and!; try congruence; try lia.
Qed.

Lemma success_state n w full :
  fst (attempt (world_at n w)) = ret full ->
  success w (world_at n w) full
    (setChallenge full (save full (snd (attempt (world_at n w))))).
Proof.
  intros Hs. unfold succeeded.
  destruct (attempt_world_frame n w) as (H1 & H2 & H3 & H4 & H5 & H6).
  destruct (attempt_frame service now m dateKey key (world_at n w))
    as [(F1 & F2 & F3 & F4 & F5 & F6) F7].
  destruct (attempt_success service now m dateKey key _ _ Hs) as (o & lbl & Ef & Hf).
  destruct (attempt_success_trace service now m dateKey key _ _ Hs)
    as (o' & c & prompt & data & text & Ec & Ep & Ed & Et & Er & Ef').
  assert (Ha : assembled service now offset key (world_at n w) full).
  { unfold assembled. cbv zeta. exists c, prompt, data, text, (VObj o').
    destruct (full_challenge_reads m dateKey o' (label c))
      as (R1 & R2 & R3 & R4 & R5 & R6).
    rewrite <- Ef' in R1, R2, R3, R4, R5, R6. rewrite Ec in R2.
    split_and!; assumption. }
  subst full.
  split_and!;
    [reflexivity | reflexivity | simpl; congruence | simpl; congruence
    | simpl; congruence | eauto | now apply full_challenge_fields | exact Ha].
Qed.

(** The loop ends at the first attempt that succeeds, or after three
    failures. *)
Lemma obtain_outcome w :
  localStorage w !! challenge_key dateKey = None ->
  (exists n full, (n < 3)%nat /\ (forall j, (j < n)%nat -> failing j w) /\
     fst (attempt (world_at n w)) = ret full /\
     obtain w = setChallenge full (save full (snd (attempt (world_at n w))))) \/
  ((forall j, (j < 3)%nat -> failing j w) /\
   exists e, fst (attempt (world_at 2 w)) = throw e /\
     obtain w = setGenerating false
                  (setGenError (failed_message e) (snd (attempt (world_at 2 w))))).
Proof.
  intros Hmiss. rewrite (miss_starts_loop _ Hmiss), retry_unrolled.
  change (loop_start w) with (world_at 0 w).
  destruct (attempt (world_at 0 w)) as [[e1|f1] x1] eqn:E1.
  2:{ left. exists 0%nat, f1. rewrite E1. split_and!; [lia | lia | reflexivity..]. }
  assert (W1 : sleep x1 = world_at 1 w).
  { change (world_at 1 w) with (sleep (snd (attempt (world_at 0 w)))).
    now rewrite E1. }
  rewrite W1.
  destruct (attempt (world_at 1 w)) as [[e2|f2] x2] eqn:E2.
  2:{ left. exists 1%nat, f2. rewrite E2. split_and!; [lia | | reflexivity..].
      intros j Hj. assert (j = 0%nat) as -> by lia. exists e1. now rewrite E1. }
  assert (W2 : sleep x2 = world_at 2 w).
  { change (world_at 2 w) with (sleep (snd (attempt (world_at 1 w)))).
    now rewrite E2. }
  rewrite W2.
  assert (Hf2 : forall j, (j < 2)%nat -> failing j w).
  { intros j Hj. destruct j as [|[|j]]; [| |lia].
    - exists e1. now rewrite E1.
    - exists e2. now rewrite E2. }
  destruct (attempt (world_at 2 w)) as [[e3|f3] x3] eqn:E3.
  - right. split.
    + intros j Hj. destruct (Nat.eq_dec j 2%nat) as [->|];
        [exists e3; now rewrite E3 | apply Hf2; lia].
    + exists e3. rewrite ?E3. split; reflexivity.
  - left. exists 2%nat, f3. rewrite ?E3. split_and!; [lia | exact Hf2 | reflexivity..].
Qed.

Ltac project :=
  unfold setChallenge, saveChallenge, setItem, setGenerating, setGenError;
  cbn [requests sleeps setItems localStorage challenge generating genError].

(** C7 (as amended). When the entry stored for the key of the day is not
    empty and is the JSON text of a truthy value, [loadOrGenerateChallenge]
    exposes that value with category, difficulty and day index set from the
    clock, sends no request and writes nothing. *)
Theorem cache_hit (w : world) (raw : jsstring) (cached : value) :
  localStorage w !! challenge_key dateKey = Some raw ->
  raw <> [] ->
  JSON.parse raw = inr cached ->
  Js.truthy cached = true ->
  obtain w = setChallenge (with_meta cached m) w /\
  requests (obtain w) = requests w /\
  setItems (obtain w) = setItems w /\
  localStorage (obtain w) = localStorage w /\
  Js.get (challenge (obtain w)) (JsStr.lit "cat") = cat_value (cat m) /\
  Js.get (challenge (obtain w)) (JsStr.lit "diff") = diff_value (diff m) /\
  Js.get (challenge (obtain w)) (JsStr.lit "day") = VNum (Fin (day m) 0) /\
  (forall k, k <> JsStr.lit "cat" -> k <> JsStr.lit "diff" -> k <> JsStr.lit "day" ->
     Js.get (challenge (obtain w)) k = Js.lookup (spread cached) k).
Proof.
  intros Hraw Hne Hp Ht.
  assert (E : obtain w = setChallenge (with_meta cached m) w).
  { unfold loadOrGenerateChallenge, loadChallenge. cbv zeta.
    rewrite Hraw. apply jsstr_eqb_neq in Hne. rewrite Hne, Hp, Ht. reflexivity. }
  rewrite E. unfold with_meta, set_all.
  cbn [challenge setChallenge requests setItems localStorage Js.get fold_left fst snd].
  split_and!; try reflexivity.
  - rewrite !lookup_obj_set. reflexivity.
  - rewrite !lookup_obj_set. reflexivity.
  - rewrite !lookup_obj_set. reflexivity.
  - intros k H1 H2 H3. rewrite !lookup_obj_set.
    apply not_eq_sym, jsstr_eqb_neq in H1, H2, H3. now rewrite H1, H2, H3.
Qed.

(** Every attempt starts with the flag [generating] raised. *)
Lemma world_at_generating n w : generating (world_at n w) = true.
Proof.
  induction n as [|n IH]; [reflexivity|]. simpl.
  destruct (attempt_frame service now m dateKey key (world_at n w))
    as [(_ & _ & _ & _ & F5 & _) _].
  congruence.
Qed.

(** The flag [generating], raised on line 363, is lowered on line 401 only:
    a generation that succeeds returns on line 389 and leaves it raised. *)
Lemma generating_after_success (w : world) :
  localStorage w !! challenge_key dateKey = None ->
  (exists n full, (n < 3)%nat /\ fst (attempt (world_at n w)) = ret full) ->
  generating (obtain w) = true.
Proof.
  intros Hmiss (n & full & Hn & Hfull).
  destruct (obtain_outcome w Hmiss)
    as [(n' & full' & _ & _ & _ & Hw) | (Hall & _)].
  - rewrite Hw. project.
    destruct (attempt_frame service now m dateKey key (world_at n' w))
      as [(_ & _ & _ & _ & F5 & _) _].
    rewrite F5. apply world_at_generating.
  - destruct (Hall n Hn) as [e He]. rewrite He in Hfull. discriminate.
Qed.

End Loop.

(** An entry that is not JSON is taken for no entry: the service is
    called and the entry is written over. *)
Lemma unreadable_entry_regenerates :
  let w := fresh_world unreadable_store in
  let w' := loadOrGenerateChallenge JSON.stringify flaky a_clock 0 api_key w in
  localStorage w !! challenge_key (dateKey_of a_clock 0) = Some (JsStr.lit "not JSON") /\
  requests w' = 3%nat /\ setItems w' = 1%nat /\
  localStorage w' !! challenge_key (dateKey_of a_clock 0)
    = Some (JSON.stringify todays_challenge).
Proof. cbv zeta. split_and!; vm_compute; reflexivity. Qed.
(* ---------- the assignment of a day ---------- *)

(** C6 (the code departs from the claim). On the first day of the epoch,
    two days back, the day index is -1; the remainder [%] is then -1 and
    both table lookups give [undefined], where the formula of the claim,
    with the remainder in the range of the table, names the category
    Cross-Chain Macro and the difficulty Advanced. *)
Lemma getTodayMeta_negative_index :
  let m := getTodayMeta start (-2) in
  day m = -1 /\ cat m = None /\ diff m = None /\
  option_map label (nth_error CATEGORIES (Z.to_nat (day m mod 7)))
    = Some (JsStr.lit "Cross-Chain Macro") /\
  nth_error DIFFICULTIES (Z.to_nat ((day m / 7) mod 3)) = Some (JsStr.lit "Advanced").
Proof. cbv zeta. split_and!; reflexivity. Qed.

(** C9 (the code departs from the claim). On 2026-11-03, 673 days back, the
    triple has no category and no difficulty, and building the prompt from
    it throws a TypeError. *)
Lemma getTodayMeta_undefined_category :
  let m := getTodayMeta a_clock (-673) in
  day m = -1 /\ cat m = None /\ diff m = None /\
  buildChallengePrompt a_clock (cat m) (diff m) (day m)
    = throw (JsStr.lit "Cannot read properties of undefined (reading 'label')").
Proof. cbv zeta. split_and!; reflexivity. Qed.

(** From day index 0 on, the triple is the one of the formula: the category
    at [day mod 7] and the difficulty at [(day / 7) mod 3]. *)
Lemma getTodayMeta_nonnegative now offsetDays :
  0 <= getDayNumber now + offsetDays ->
  let m := getTodayMeta now offsetDays in
  day m = (now - JsDate.of_date 2025 1 1) / 86400000 + 1 + offsetDays /\
  (exists c, cat m = Some c /\
     nth_error CATEGORIES (Z.to_nat (day m mod 7)) = Some c) /\
  (exists d, diff m = Some d /\
     nth_error DIFFICULTIES (Z.to_nat ((day m / 7) mod 3)) = Some d).
Proof.
  intros Hd. cbv zeta. unfold getTodayMeta. cbn [day cat diff].
  change (Z.of_nat (length CATEGORIES)) with 7.
  change (Z.of_nat (length DIFFICULTIES)) with 3.
  set (d := getDayNumber now + offsetDays) in *.
  assert (Hq : 0 <= d / 7) by (apply Z.div_pos; lia).
  rewrite !Z.rem_mod_nonneg by lia.
  assert (H7 : 0 <= d mod 7 < 7) by (apply Z.mod_pos_bound; lia).
  assert (H3 : 0 <= (d / 7) mod 3 < 3) by (apply Z.mod_pos_bound; lia).
  unfold at_index.
  replace (d mod 7 <? 0) with false by (symmetry; apply Z.ltb_ge; lia).
  replace ((d / 7) mod 3 <? 0) with false by (symmetry; apply Z.ltb_ge; lia).
  split_and!.
  - reflexivity.
  - destruct (nth_error CATEGORIES (Z.to_nat (d mod 7))) as [c|] eqn:E; [eauto|].
    apply nth_error_None in E. simpl in E. lia.
  - destruct (nth_error DIFFICULTIES (Z.to_nat ((d / 7) mod 3))) as [x|] eqn:E; [eauto|].
    apply nth_error_None in E. simpl in E. lia.
Qed.

(** On 2026-11-03 the category is the first of the table. *)
Lemma getTodayMeta_nonnegative_witness :
  exists c, cat (getTodayMeta a_clock 0) = Some c /\ label c = JsStr.lit "BTC Fundamentals".
Proof.
  assert (H : 0 <= getDayNumber a_clock + 0) by (vm_compute; discriminate).
  destruct (getTodayMeta_nonnegative a_clock 0 H) as (_ & (c & Hc & Hn) & _).
  exists c. split; [exact Hc|].
  change (nth_error CATEGORIES 0 = Some c) in Hn. now injection Hn as <-.
Defined.

(** Two readings of the clock on one day (UTC) give the same triple. *)
Lemma getTodayMeta_same_day now1 now2 offsetDays :
  JsDate.Day now1 = JsDate.Day now2 ->
  getTodayMeta now1 offsetDays = getTodayMeta now2 offsetDays.
Proof.
  unfold JsDate.Day, JsDate.msPerDay. intros H.
  assert (E : getDayNumber now1 = getDayNumber now2).
  { unfold getDayNumber. change start with (20089 * 86400000).
    assert (D : forall t, (t - 20089 * 86400000) / 86400000 = t / 86400000 - 20089)
      by (intros t; div_lia).
    now rewrite !D, H. }
  unfold getTodayMeta. now rewrite E.
Qed.

(** An hour later on 2026-11-03. *)
Lemma getTodayMeta_same_day_witness :
  getTodayMeta a_clock 3 = getTodayMeta (a_clock + 3600000) 3.
Proof. apply getTodayMeta_same_day. vm_compute. reflexivity. Defined.

(** The third attempt of [flaky] succeeds. *)
Lemma generating_after_success_witness :
  generating (loadOrGenerateChallenge JSON.stringify flaky a_clock 0 api_key
                (fresh_world ∅)) = true.
Proof.
  apply generating_after_success; [reflexivity|].
  exists 2%nat, todays_challenge. split; [lia | vm_compute; reflexivity].
Defined.

(* ---------- the theorems at the sample inputs ---------- *)

Lemma a_clock_in_range : clock_in_range a_clock.
Proof. unfold clock_in_range. vm_compute. split; [discriminate | reflexivity]. Defined.

(** The third tier on [loose_fields]. *)
Lemma rebuild_rule_witness :
  parseGeminiJSON loose_fields
  = ret (rebuilt (JsStr.lit "T") (JsStr.lit "P")
           (VArr [VStr (JsStr.lit "x"); VStr (JsStr.lit "y")]) (VArr [])
           (VArr [VStr (JsStr.lit "t")]) (JsStr.lit "Z")).
Proof.
  assert (H1 : JSON.parse (cleaned1 loose_fields) = inl (JSON.UnexpectedToken 58))
    by (vm_compute; reflexivity).
  assert (H2 : JSON.parse (cleaned2 loose_fields) = inl (JSON.UnexpectedToken 58))
    by (vm_compute; reflexivity).
  destruct (rebuild_rule loose_fields _ _ H1 H2) as (Hiff & _).
  apply Hiff. unfold rebuilds_to.
  exists (JsStr.lit "T"), (JsStr.lit "P"), (JsStr.json "'x', 'y'"), [], (JsStr.json "'t'"),
    (JsStr.lit "Z"), (VArr [VStr (JsStr.lit "x"); VStr (JsStr.lit "y")]), (VArr []),
    (VArr [VStr (JsStr.lit "t")]).
  split_and!; vm_compute; reflexivity.
Defined.

(** A record with its six fields is accepted as it is. *)
Lemma recover_checks_presence_witness : recover good_completion = ret good_record.
Proof.
  assert (H : parseGeminiJSON good_completion = ret good_record)
    by (vm_compute; reflexivity).
  destruct (recover_checks_presence good_completion good_record H) as [E _].
  rewrite E. vm_compute. reflexivity.
Defined.

Lemma streak_store_safe : safe_integer (count (loadStreak streak_store)).
Proof. vm_compute. split; reflexivity. Defined.

(** A streak of four, last completed the day before, becomes five. *)
Lemma bumpStreak_rule_witness :
  snd (bumpStreak a_clock streak_store) = Some 5 /\
  fst (bumpStreak a_clock streak_store) !! od_streak_date = Some (JsStr.lit "2026-11-03").
Proof.
  pose proof (bumpStreak_rule streak_store a_clock a_clock_in_range streak_store_safe)
    as H.
  cbv zeta in H. destruct H as (_ & Hinc & _ & _ & Hdate & _).
  split.
  - apply Hinc; vm_compute; reflexivity.
  - rewrite Hdate. vm_compute. reflexivity.
Defined.

(** On a history of 61 days that starts with the day itself: the entry of
    the day replaces the one stored for its date and the oldest day goes. *)
Lemma pushHistory_update_witness :
  pushHistory JSON.stringify todays_entry crowded_store
  = <[od_history := JSON.stringify (VArr (todays_entry :: map dated (seq 1 59)))]>
      crowded_store.
Proof.
  assert (H1 : loadHistory crowded_store = VArr sixty_one_days)
    by (vm_compute; reflexivity).
  assert (H2 : Forall (fun h => Js.nullish h = false) sixty_one_days).
  { apply List.Forall_forall. intros h Hh. unfold sixty_one_days in Hh.
    apply in_map_iff in Hh as (i & <- & _). reflexivity. }
  assert (H3 : Js.nullish todays_entry = false) by reflexivity.
  assert (Ec : completed sixty_one_days todays_entry
               = todays_entry :: map dated (seq 1 59)) by (vm_compute; reflexivity).
  destruct (pushHistory_update JSON.stringify crowded_store todays_entry sixty_one_days
              H1 H2 H3) as (E & _).
  rewrite E, Ec. reflexivity.
Defined.

(** A stored record is shown without a request. *)
Lemma cache_hit_witness :
  let w' := loadOrGenerateChallenge JSON.stringify offline a_clock 0 api_key
              (fresh_world cached_store) in
  requests w' = 0%nat /\ setItems w' = 0%nat /\
  Js.get (challenge w') (JsStr.lit "title") = VStr (JsStr.lit "Whale wakes up").
Proof.
  cbv zeta.
  assert (H1 : localStorage (fresh_world cached_store)
                 !! challenge_key (dateKey_of a_clock 0) = Some good_completion)
    by (vm_compute; reflexivity).
  assert (H2 : good_completion <> []) by (vm_compute; discriminate).
  assert (H3 : JSON.parse good_completion = inr good_record)
    by (vm_compute; reflexivity).
  assert (H4 : Js.truthy good_record = true) by reflexivity.
  destruct (cache_hit JSON.stringify offline a_clock 0 api_key
              (fresh_world cached_store) good_completion good_record H1 H2 H3 H4)
    as (_ & R & S & _ & _ & _ & _ & K).
  split_and!; [exact R | exact S |].
  rewrite K by (vm_compute; discriminate). vm_compute. reflexivity.
Defined.

(** [good_completion] passes the first tier. *)
Lemma tier1_direct_parse_witness :
  JSON.parse (cleaned1 good_completion) = inr good_record /\
  parseGeminiJSON good_completion = ret good_record.
Proof.
  apply (tier1_direct_parse good_completion
           (match good_record with VObj o => o | _ => [] end)).
  - vm_compute. reflexivity.
  - vm_compute. reflexivity.
Defined.

(** A response that is the empty object. *)
Lemma empty_completion_fails_witness :
  completion_text (VObj []) = ret (VStr []) /\
  recover [] = throw (parse_failure JSON.UnexpectedEnd).
Proof.
  destruct (empty_completion_fails (VObj []) eq_refl eq_refl)
    as (A & _ & _ & _ & _ & B & _).
  split; assumption.
Defined.
(* ---------- integers as text ---------- *)

Lemma digit_value_digit c :
  Js.is_digit c = true -> JsNum.digit_value 10 c = Some (Z.of_N (c - 48)).
Proof.
  intros Hc. unfold JsNum.digit_value. unfold Js.is_digit in Hc. rewrite Hc.
  apply andb_true_iff in Hc as [H1 H2]. apply N.leb_le in H1, H2.
  replace (c - 48 <? 10)%N with true by (symmetry; apply N.ltb_lt; lia).
  reflexivity.
Qed.

(** The value of a numeral read after the value [a]. *)
Lemma parse_digits_app ds : forall rest a,
  forallb Js.is_digit ds = true ->
  JsNum.parse_digits 10 (ds ++ rest) (Some a)
  = JsNum.parse_digits 10 rest
      (Some (fold_left (fun a c => 10 * a + Z.of_N (c - 48)) ds a)).
Proof.
  induction ds as [|c ds IH]; intros rest a H; [reflexivity|].
  simpl in H. apply andb_true_iff in H as [Hc Hds].
  cbn [app JsNum.parse_digits fold_left].
  rewrite (digit_value_digit c Hc). cbn [default]. change (Z.of_N 10) with 10.
  now apply IH.
Qed.

Lemma dec_digits_spec fuel : forall n acc,
  0 <= n < 2 ^ Z.of_nat fuel -> fuel <> O ->
  exists ds, JsNum.dec_digits fuel n acc = ds ++ acc /\ ds <> [] /\
    forallb Js.is_digit ds = true /\
    forall a, fold_left (fun a c => 10 * a + Z.of_N (c - 48)) ds a
              = a * 10 ^ Z.of_nat (length ds) + n.
Proof.
  induction fuel as [|fuel IH]; intros n acc Hn Hf; [congruence|].
  assert (Hd : 0 <= n mod 10 < 10) by (apply Z.mod_pos_bound; lia).
  assert (Hc : Js.is_digit (48 + Z.to_N (n mod 10)) = true).
  { unfold Js.is_digit. apply andb_true_iff. split; apply N.leb_le; lia. }
  assert (Hv : Z.of_N (48 + Z.to_N (n mod 10) - 48) = n mod 10) by lia.
  cbn [JsNum.dec_digits]. destruct (n <? 10) eqn:E.
  - apply Z.ltb_lt in E. exists [(48 + Z.to_N (n mod 10))%N].
    split_and!; [reflexivity | discriminate | simpl; now rewrite Hc |].
    intros a. cbn [fold_left length]. rewrite Hv, Z.mod_small by lia.
    change (10 ^ Z.of_nat 1) with 10. lia.
  - apply Z.ltb_ge in E.
    destruct (IH (n / 10) ((48 + Z.to_N (n mod 10))%N :: acc)) as (ds & E1 & _ & E3 & E4).
    { rewrite Nat2Z.inj_succ, Z.pow_succ_r in Hn by lia. div_lia. }
    { intros ->. simpl in Hn. lia. }
    exists (ds ++ [(48 + Z.to_N (n mod 10))%N]).
    split_and!.
    + rewrite E1, <- app_assoc. reflexivity.
    + destruct ds; discriminate.
    + rewrite forallb_app, E3. simpl. now rewrite Hc.
    + intros a. rewrite fold_left_app, E4. cbn [fold_left]. rewrite Hv.
      rewrite length_app, Nat2Z.inj_add. change (Z.of_nat (length [_])) with 1.
      rewrite Z.pow_add_r by lia. change (10 ^ 1) with 10.
      pose proof (Z.div_mod n 10). lia.
Qed.

Lemma log2_fuel n : 0 <= n -> n < 2 ^ Z.of_nat (S (Z.to_nat (Z.log2 n))).
Proof.
  intros Hn. rewrite Nat2Z.inj_succ, Z2Nat.id by apply Z.log2_nonneg.
  destruct (Z.eq_dec n 0) as [->|]; [reflexivity|].
  apply Z.log2_spec. lia.
Qed.

(** The decimal numeral of a natural number: digits, at least one. *)
Lemma numeral_spec n :
  0 <= n ->
  exists ds, JsNum.dec_digits (S (Z.to_nat (Z.log2 n))) n [] = ds /\ ds <> [] /\
    forallb Js.is_digit ds = true /\
    JsNum.parse_digits 10 ds None = Some n.
Proof.
  intros Hn.
  destruct (dec_digits_spec _ n [] (conj Hn (log2_fuel n Hn)) (Nat.neq_succ_0 _))
    as (ds & E & Hne & Hd & Hv).
  rewrite app_nil_r in E. exists ds. split_and!; auto.
  destruct ds as [|c ds]; [congruence|].
  pose proof (parse_digits_app (c :: ds) [] 0 Hd) as P.
  rewrite app_nil_r, Hv in P.
  simpl in Hd. apply andb_true_iff in Hd as [Hc _].
  assert (Q : JsNum.parse_digits 10 (c :: ds) None
              = JsNum.parse_digits 10 (c :: ds) (Some 0))
    by (cbn [JsNum.parse_digits]; rewrite (digit_value_digit c Hc); reflexivity).
  rewrite Q, P. reflexivity.
Qed.

Lemma digit_head c ds :
  Js.is_digit c = true ->
  JsStr.drop_while JsStr.is_space (c :: ds) = c :: ds /\
  (c =? 45)%N = false /\ (c =? 43)%N = false /\
  (forall b r, ds = b :: r -> Js.is_digit b = true ->
     ((c =? 48) && ((b =? 120) || (b =? 88)))%N = false).
Proof.
  intros Hc. unfold Js.is_digit in Hc. apply andb_true_iff in Hc as [H1 H2].
  apply N.leb_le in H1, H2.
  assert (E1 : (c =? 45)%N = false) by (apply N.eqb_neq; lia).
  assert (E2 : (c =? 43)%N = false) by (apply N.eqb_neq; lia).
  split_and!; auto.
  - cbn [JsStr.drop_while].
    replace (JsStr.is_space c) with false; [reflexivity|].
    symmetry. unfold JsStr.is_space, JsStr.is_white_space, JsStr.is_line_terminator.
    repeat match goal with
    | |- context [(c =? ?k)%N] =>
        replace (c =? k)%N with false by (symmetry; apply N.eqb_neq; lia)
    end.
    replace (8192 <=? c)%N with false by (symmetry; apply N.leb_gt; lia).
    reflexivity.
  - intros b r -> Hb. unfold Js.is_digit in Hb. apply andb_true_iff in Hb as [H3 H4].
    apply N.leb_le in H3, H4.
    replace (b =? 120)%N with false by (symmetry; apply N.eqb_neq; lia).
    replace (b =? 88)%N with false by (symmetry; apply N.eqb_neq; lia).
    now rewrite andb_false_r.
Qed.

Lemma parseInt_numeral ds v :
  ds <> [] -> forallb Js.is_digit ds = true ->
  JsNum.parse_digits 10 ds None = Some v ->
  JsNum.parseInt ds = Some v /\ JsNum.parseInt (45%N :: ds) = Some (- v).
Proof.
  intros Hne Hd Hv. destruct ds as [|c ds]; [congruence|].
  pose proof Hd as Hd'. simpl in Hd'. apply andb_true_iff in Hd' as [Hc Hds].
  destruct (digit_head c ds Hc) as (D1 & D2 & D3 & D4).
  assert (R : (let '(radix, s3) :=
                 match c :: ds with
                 | a :: b :: r =>
                     if ((a =? 48) && ((b =? 120) || (b =? 88)))%N
                     then (16%N, r) else (10%N, c :: ds)
                 | _ => (10%N, c :: ds)
                 end in JsNum.parse_digits radix s3 None) = Some v).
  { destruct ds as [|b r]; [exact Hv|].
    simpl in Hds. apply andb_true_iff in Hds as [Hb _].
    now rewrite (D4 b r eq_refl Hb). }
  split.
  - unfold JsNum.parseInt. rewrite D1, D2, D3.
    destruct ds as [|b r].
    + rewrite Hv. reflexivity.
    + simpl in Hds. apply andb_true_iff in Hds as [Hb _].
      rewrite (D4 b r eq_refl Hb), Hv. reflexivity.
  - unfold JsNum.parseInt. cbn [JsStr.drop_while].
    change (JsStr.is_space 45) with false. cbv iota.
    change (45 =? 45)%N with true. cbv iota.
    destruct ds as [|b r].
    + rewrite Hv. reflexivity.
    + simpl in Hds. apply andb_true_iff in Hds as [Hb _].
      rewrite (D4 b r eq_refl Hb), Hv. reflexivity.
Qed.

Lemma parseInt_int_to_string n : JsNum.parseInt (JsNum.int_to_string n) = Some n.
Proof.
  unfold JsNum.int_to_string. destruct (n <? 0) eqn:E.
  - apply Z.ltb_lt in E.
    destruct (numeral_spec (- n)) as (ds & -> & H1 & H2 & H3); [lia|].
    destruct (parseInt_numeral ds _ H1 H2 H3) as [_ P]. rewrite P. f_equal. lia.
  - apply Z.ltb_ge in E.
    destruct (numeral_spec n E) as (ds & -> & H1 & H2 & H3).
    now destruct (parseInt_numeral ds _ H1 H2 H3) as [P _].
Qed.

Lemma parseInt_to_string x : JsNum.parseInt (JsNum.to_string x) = x.
Proof. destruct x as [n|]; [apply parseInt_int_to_string | reflexivity]. Qed.

Lemma int_to_string_inj a b : JsNum.int_to_string a = JsNum.int_to_string b -> a = b.
Proof.
  intros H. apply (f_equal JsNum.parseInt) in H.
  rewrite !parseInt_int_to_string in H. congruence.
Qed.

Lemma to_string_nonempty x : JsNum.to_string x <> [].
Proof.
  destruct x as [n|]; [|discriminate]. intros H.
  change (JsNum.int_to_string n = []) in H.
  apply (f_equal JsNum.parseInt) in H.
  rewrite (parseInt_int_to_string n) in H. discriminate H.
Qed.

(* ---------- the ledger read back ---------- *)

Lemma getItem_or_insert st k v d : v <> [] -> getItem_or (<[k := v]> st) k d = v.
Proof.
  intros Hv. unfold getItem_or. rewrite lookup_insert_eq.
  apply jsstr_eqb_neq in Hv. now rewrite Hv.
Qed.

Lemma getItem_or_insert_empty st k v : getItem_or (<[k := v]> st) k [] = v.
Proof.
  unfold getItem_or. rewrite lookup_insert_eq.
  destruct (JsStr.eqb v []) eqn:E; [|reflexivity].
  apply jsstr_eqb_eq in E. now subst.
Qed.

Lemma getItem_or_insert_ne st k k' v d :
  k' <> k -> getItem_or (<[k' := v]> st) k d = getItem_or st k d.
Proof. intros Hk. unfold getItem_or. now rewrite lookup_insert_ne. Qed.

Lemma streak_keys_differ : od_streak_date <> od_streak.
Proof. intros E. apply (f_equal length) in E. discriminate E. Qed.

Lemma loadStreak_after now st :
  loadStreak (fst (bumpStreak now st))
  = {| count := snd (bumpStreak now st); last := todayKey now |}.
Proof.
  unfold bumpStreak. cbn [fst snd]. unfold loadStreak. f_equal.
  - rewrite getItem_or_insert_ne by apply streak_keys_differ.
    rewrite getItem_or_insert by apply to_string_nonempty.
    apply parseInt_to_string.
  - apply getItem_or_insert_empty.
Qed.

Lemma bumpStreak_count now st :
  clock_in_range now ->
  snd (bumpStreak now st) =
    if JsStr.eqb (last (loadStreak st)) (JsDate.iso_date (JsDate.Day now - 1))
    then JsNum.succ (count (loadStreak st))
    else if JsStr.eqb (last (loadStreak st)) (JsDate.iso_date (JsDate.Day now))
    then count (loadStreak st)
    else Some 1.
Proof.
  intros H. unfold bumpStreak. cbn [snd].
  now rewrite (todayKey_date now H), (yesterdayKey_date now H).
Qed.

Lemma iso_date_eqb a b :
  four_digit_year a -> four_digit_year b ->
  JsStr.eqb (JsDate.iso_date a) (JsDate.iso_date b) = bool_decide (a = b).
Proof.
  intros Ha Hb. unfold JsStr.eqb. apply bool_decide_ext. split.
  - now apply iso_date_inj.
  - now intros ->.
Qed.

(** The count of a completion at [t2] on a ledger last completed on the day
    of [t1] with count [c]. *)
Lemma bumpStreak_next st t1 t2 c :
  clock_in_range t1 -> clock_in_range t2 ->
  loadStreak st = {| count := c; last := todayKey t1 |} ->
  snd (bumpStreak t2 st) =
    if bool_decide (JsDate.Day t1 = JsDate.Day t2 - 1) then JsNum.succ c
    else if bool_decide (JsDate.Day t1 = JsDate.Day t2) then c
    else Some 1.
Proof.
  intros H1 H2 E. rewrite (bumpStreak_count t2 st H2), E. cbn [last count].
  rewrite (todayKey_date t1 H1).
  destruct (clock_days t1 H1) as [F1 _]. destruct (clock_days t2 H2) as [F2 F3].
  now rewrite !iso_date_eqb by assumption.
Qed.

(** After a completion at [t1], a completion at [t2] on the same day
    changes nothing and returns the same count; on the next day it returns
    the count plus one; on any other day it returns 1. *)
Theorem second_completion (st : storage) (t1 t2 : Z) :
  clock_in_range t1 -> clock_in_range t2 ->
  safe_integer (count (loadStreak st)) ->
  let st1 := fst (bumpStreak t1 st) in
  let c1 := snd (bumpStreak t1 st) in
  (JsDate.Day t2 = JsDate.Day t1 -> bumpStreak t2 st1 = (st1, c1)) /\
  (JsDate.Day t2 = JsDate.Day t1 + 1 -> snd (bumpStreak t2 st1) = JsNum.succ c1) /\
  (JsDate.Day t2 <> JsDate.Day t1 -> JsDate.Day t2 <> JsDate.Day t1 + 1 ->
     snd (bumpStreak t2 st1) = Some 1).
Proof.
  intros H1 H2 _. cbv zeta.
  pose proof (bumpStreak_next _ t1 t2 _ H1 H2 (loadStreak_after t1 st)) as E.
  split_and!.
  - intros D.
    assert (Ec : snd (bumpStreak t2 (fst (bumpStreak t1 st))) = snd (bumpStreak t1 st)).
    { rewrite E, bool_decide_eq_false_2 by lia. now rewrite bool_decide_eq_true_2. }
    rewrite (surjective_pairing (bumpStreak t2 _)). f_equal; [|exact Ec].
    assert (Et : todayKey t2 = todayKey t1)
      by (rewrite !todayKey_date by assumption; now rewrite D).
    transitivity
      (<[od_streak_date := todayKey t2]>
         (<[od_streak := JsNum.to_string (snd (bumpStreak t2 (fst (bumpStreak t1 st))))]>
            (fst (bumpStreak t1 st)))); [reflexivity|].
    rewrite Ec, Et. unfold bumpStreak at 2 3. cbn [fst].
    rewrite (insert_insert_ne _ od_streak od_streak_date)
      by (apply not_eq_sym, streak_keys_differ).
    now rewrite !insert_insert_eq.
  - intros D. rewrite E. now rewrite bool_decide_eq_true_2 by lia.
  - intros D1 D2. rewrite E. now rewrite !bool_decide_eq_false_2 by lia.
Qed.

(** What [bumpStreak] stores is what [loadStreak] reads: the count it
    returned and the date of the day. *)
Theorem loadStreak_bumpStreak (now : Z) (st : storage) :
  safe_integer (count (loadStreak st)) ->
  count (loadStreak (fst (bumpStreak now st))) = snd (bumpStreak now st) /\
  last (loadStreak (fst (bumpStreak now st))) = todayKey now.
Proof. intros _. now rewrite loadStreak_after. Qed.

Lemma last_cons_default {A} (l : list A) : forall a d,
  List.last (a :: l) d = List.last l a.
Proof.
  induction l as [|x r IH]; intros a d; [reflexivity|].
  change (List.last (a :: x :: r) d) with (List.last (x :: r) d).
  now rewrite (IH x d), (IH x a).
Qed.

Lemma completions_run clocks : forall t st k,
  clock_in_range t -> Forall clock_in_range clocks -> gapless t clocks ->
  loadStreak st = {| count := Some k; last := todayKey t |} ->
  loadStreak (completions clocks st)
  = {| count := Some (k + JsDate.Day (List.last clocks t) - JsDate.Day t);
       last := todayKey (List.last clocks t) |}.
Proof.
  induction clocks as [|t' rest IH]; intros t st k Ht Hr Hg E.
  - simpl. rewrite E. do 2 f_equal. lia.
  - apply Forall_cons in Hr as [Ht' Hr]. destruct Hg as [Hd Hg].
    change (completions (t' :: rest) st)
      with (completions rest (fst (bumpStreak t' st))).
    pose proof (bumpStreak_next st t t' _ Ht Ht' E) as N.
    pose proof (last_cons_default rest t' t) as L.
    rewrite L. destruct Hd as [Hd|Hd].
    + rewrite bool_decide_eq_false_2, bool_decide_eq_true_2 in N by lia.
      rewrite (IH t' _ k Ht' Hr Hg); [do 2 f_equal; lia|].
      now rewrite loadStreak_after, N.
    + rewrite bool_decide_eq_true_2 in N by lia.
      rewrite (IH t' _ (k + 1) Ht' Hr Hg); [do 2 f_equal; lia|].
      now rewrite loadStreak_after, N.
Qed.

(** On a ledger without a completion on the day of [t0] or the day
    before, completions at [t0] and then at clocks that each fall on the
    same day as the one before or on the next day leave the streak at the
    number of days from the first to the last, both counted. *)
Theorem streak_of_run (st : storage) (t0 : Z) (clocks : list Z) :
  Forall clock_in_range (t0 :: clocks) -> gapless t0 clocks ->
  last (loadStreak st) <> todayKey t0 ->
  last (loadStreak st) <> yesterdayKey t0 ->
  loadStreak (completions (t0 :: clocks) st)
  = {| count := Some (JsDate.Day (List.last clocks t0) - JsDate.Day t0 + 1);
       last := todayKey (List.last clocks t0) |}.
Proof.
  intros Hr Hg N1 N2. apply Forall_cons in Hr as [Ht Hr].
  change (completions (t0 :: clocks) st)
    with (completions clocks (fst (bumpStreak t0 st))).
  rewrite (completions_run clocks t0 _ 1 Ht Hr Hg); [do 2 f_equal; lia|].
  rewrite loadStreak_after. f_equal.
  unfold bumpStreak. cbn [snd].
  apply jsstr_eqb_neq in N1, N2. now rewrite N1, N2.
Qed.

(* ---------- the keys of the cache ---------- *)

Lemma take_app_long {A} (a b : list A) n :
  (n <= length a)%nat -> take n (a ++ b) = take n a.
Proof. intros H. apply take_app_le. exact H. Qed.

Lemma fixed_digits_head w n :
  exists c r, JsNum.fixed_digits (S w) n = c :: r /\ (48 <= c <= 57)%N.
Proof.
  revert n. induction w as [|w IH]; intros n.
  - exists (48 + Z.to_N (n mod 10))%N, []. split; [reflexivity|].
    pose proof (Z.mod_pos_bound n 10). lia.
  - destruct (IH (n / 10)) as (c & r & E & Hc).
    change (JsNum.fixed_digits (S (S w)) n)
      with (JsNum.fixed_digits (S w) (n / 10) ++ [(48 + Z.to_N (n mod 10))%N]).
    rewrite E. eauto.
Qed.

(** A date key starts with a digit or a sign. *)
Lemma todayKey_head now :
  exists c r, todayKey now = c :: r /\ c <> 111%N.
Proof.
  unfold todayKey, JsStr.slice0, JsDate.toISOString, JsDate.iso_date.
  destruct (JsDate.civil_from_days (JsDate.Day now)) as [[y m] d].
  unfold JsDate.iso_year.
  destruct ((0 <=? y) && (y <=? 9999)).
  - destruct (fixed_digits_head 3 y) as (c & r & -> & Hc).
    exists c. eexists. split; [reflexivity | lia].
  - destruct (y <? 0); eexists _, _; (split; [reflexivity | discriminate]).
Qed.

Lemma dateKey_of_offset now o :
  o <> 0 ->
  dateKey_of now o = JsStr.lit "offset_" ++ JsNum.int_to_string (getDayNumber now + o).
Proof.
  intros H. unfold dateKey_of.
  now replace (o =? 0) with false by (symmetry; apply Z.eqb_neq; exact H).
Qed.

(** The slot of a day reached by navigation is named by its day index
    alone; no such slot is the slot of a date, which is the one used at
    offset 0; and the slots of two clocks at offset 0 are the same exactly
    when the clocks fall on the same day. *)
Theorem dateKey_slots (now now' o o' : Z) :
  (o <> 0 -> o' <> 0 ->
     (dateKey_of now o = dateKey_of now' o' <->
      getDayNumber now + o = getDayNumber now' + o')) /\
  (o <> 0 -> dateKey_of now o <> dateKey_of now' 0) /\
  (clock_in_range now -> clock_in_range now' ->
     (dateKey_of now 0 = dateKey_of now' 0 <-> JsDate.Day now = JsDate.Day now')).
Proof.
  split_and!.
  - intros H H'. rewrite !dateKey_of_offset by assumption. split.
    + intros E. apply app_inv_head in E. now apply int_to_string_inj.
    + now intros ->.
  - intros H E. rewrite dateKey_of_offset in E by assumption.
    change (dateKey_of now' 0) with (todayKey now') in E.
    destruct (todayKey_head now') as (c & r & Ek & Hc).
    rewrite Ek in E.
    change (JsStr.lit "offset_") with (111%N :: JsStr.lit "ffset_") in E.
    cbn [app] in E. injection E as E _. congruence.
  - intros H H'. change (dateKey_of now 0) with (todayKey now).
    change (dateKey_of now' 0) with (todayKey now').
    rewrite !todayKey_date by assumption.
    destruct (clock_days now H) as [F _]. destruct (clock_days now' H') as [F' _].
    split; [now apply iso_date_inj | now intros ->].
Qed.

(* ---------- the prompt of a day ---------- *)

Lemma meta_in_tables now offsetDays :
  0 <= getDayNumber now + offsetDays ->
  exists c d, cat (getTodayMeta now offsetDays) = Some c /\ In c CATEGORIES /\
              diff (getTodayMeta now offsetDays) = Some d /\ In d DIFFICULTIES.
Proof.
  intros Hd. unfold getTodayMeta. cbn [cat diff].
  change (Z.of_nat (length CATEGORIES)) with 7.
  change (Z.of_nat (length DIFFICULTIES)) with 3.
  set (d := getDayNumber now + offsetDays) in *.
  assert (Hq : 0 <= d / 7) by (apply Z.div_pos; lia).
  rewrite !Z.rem_mod_nonneg by lia.
  assert (H7 : 0 <= d mod 7 < 7) by (apply Z.mod_pos_bound; lia).
  assert (H3 : 0 <= (d / 7) mod 3 < 3) by (apply Z.mod_pos_bound; lia).
  unfold at_index.
  replace (d mod 7 <? 0) with false by (symmetry; apply Z.ltb_ge; lia).
  replace ((d / 7) mod 3 <? 0) with false by (symmetry; apply Z.ltb_ge; lia).
  destruct (nth_error CATEGORIES (Z.to_nat (d mod 7))) as [c|] eqn:Ec;
    [|apply nth_error_None in Ec; simpl in Ec; lia].
  destruct (nth_error DIFFICULTIES (Z.to_nat ((d / 7) mod 3))) as [x|] eqn:Ex;
    [|apply nth_error_None in Ex; simpl in Ex; lia].
  exists c, x. split_and!; eauto using nth_error_In.
Qed.

Lemma category_has_angles c :
  In c CATEGORIES ->
  exists angles, assoc category_angles (id c) = Some angles /\ angles <> [] /\
                 getCategoryAngles (id c) = angles /\
                 angles <> JsStr.lit "general onchain patterns".
Proof.
  intros H. simpl in H.
  repeat (destruct H as [<-|H];
          [eexists; split_and!;
           [reflexivity | discriminate | reflexivity | discriminate]|]).
  destruct H.
Qed.

(** From day index 0 on the prompt of the day is built: it names the day,
    the label of the category and the difficulty of the day, and it ends
    with the angles the table has for that category, never with the
    fallback of line 171. *)
Theorem prompt_of_the_day (now offsetDays : Z) :
  0 <= getDayNumber now + offsetDays ->
  let m := getTodayMeta now offsetDays in
  exists c d angles prompt,
    cat m = Some c /\ In c CATEGORIES /\ diff m = Some d /\ In d DIFFICULTIES /\
    buildChallengePrompt now (cat m) (diff m) (day m) = ret prompt /\
    assoc category_angles (id c) = Some angles /\
    angles <> JsStr.lit "general onchain patterns" /\
    (JsStr.lit "Create a daily onchain analysis challenge for Day " ++
     JsNum.int_to_string (day m) ++ JsStr.lit ".

Category: " ++ label c ++ JsStr.lit "
Difficulty: " ++ d ++ JsStr.lit "
Date context: " ++ todayKey now) `prefix_of` prompt /\
    (JsStr.lit "
- Category focus (" ++ label c ++ JsStr.lit "): " ++ angles) `suffix_of` prompt.
Proof.
  intros Hd. cbv zeta.
  destruct (meta_in_tables now offsetDays Hd) as (c & d & Ec & Hc & Ed & Hdd).
  destruct (category_has_angles c Hc) as (angles & Ea & Hne & Eg & Hf).
  exists c, d, angles. eexists. rewrite Ec, Ed.
  split_and!; try reflexivity; try assumption.
  - repeat rewrite <- app_assoc. unfold interpolate. cbn [default].
    repeat (apply prefix_app; try reflexivity).
    apply prefix_app_r. reflexivity.
  - rewrite Eg. repeat rewrite <- app_assoc.
    repeat (first [ reflexivity | apply suffix_app_r ]).
Qed.

(* ---------- a day without a category ---------- *)

Lemma no_category_iff now offsetDays :
  cat (getTodayMeta now offsetDays) = None <->
  getDayNumber now + offsetDays < 0 /\ (getDayNumber now + offsetDays) mod 7 <> 0.
Proof.
  unfold getTodayMeta. cbn [cat].
  change (Z.of_nat (length CATEGORIES)) with 7.
  set (d := getDayNumber now + offsetDays).
  unfold at_index. destruct (Z.rem d 7 <? 0) eqn:E.
  - apply Z.ltb_lt in E. split; [intros _|reflexivity].
    Z.quot_rem_to_equations. Z.div_mod_to_equations. lia.
  - apply Z.ltb_ge in E.
    assert (B : Z.rem d 7 < 7 /\ ~ (d < 0 /\ d mod 7 <> 0))
      by (Z.quot_rem_to_equations; Z.div_mod_to_equations; lia).
    split; [|tauto].
    intros N. apply nth_error_None in N. simpl in N. lia.
Qed.

Section NoCategory.
Variable JSON_stringify : value -> jsstring.
Variable service : nat -> jsstring -> jsstring -> outcome.
Variables (now offset : Z) (key : jsstring).

Lemma generate_without_category dateKey u :
  cat (getTodayMeta now offset) = None ->
  generate service now (getTodayMeta now offset) dateKey key u
  = (throw (Js.type_error_read VUndef (JsStr.lit "label")), u).
Proof. intros E. unfold generate. rewrite E. reflexivity. Qed.

(** When the day index is negative and not a multiple of 7, the day has
    no category: on a cache miss [loadOrGenerateChallenge] sends no
    request, waits twice, writes nothing and ends with the TypeError of
    line 140 as the error shown. *)
Theorem generation_without_category (w : world) :
  getDayNumber now + offset < 0 ->
  (getDayNumber now + offset) mod 7 <> 0 ->
  localStorage w !! challenge_key (dateKey_of now offset) = None ->
  loadOrGenerateChallenge JSON_stringify service now offset key w
  = {| localStorage := localStorage w; setItems := setItems w;
       requests := requests w; sleeps := S (S (sleeps w)); challenge := VNull;
       generating := false;
       genError := failed_message (Js.type_error_read VUndef (JsStr.lit "label")) |}.
Proof.
  intros Hneg Hmod Hmiss.
  assert (E : cat (getTodayMeta now offset) = None)
    by (apply no_category_iff; auto).
  rewrite (miss_starts_loop _ _ _ _ _ _ Hmiss), retry_unrolled.
  rewrite !(generate_without_category _ _ E). reflexivity.
Qed.

End NoCategory.

(* ---------- the credential ---------- *)

Lemma challenge_key_other d :
  challenge_key d <> od_gemini_key /\ challenge_key d <> od_streak /\
  challenge_key d <> od_streak_date /\ challenge_key d <> od_history.
Proof.
  split_and!; intros E; apply (f_equal (fun s => nth 3 s 0%N)) in E;
    discriminate E.
Qed.

Lemma gemini_key_other :
  od_gemini_key <> od_streak /\ od_gemini_key <> od_streak_date /\
  od_gemini_key <> od_history.
Proof. split_and!; discriminate. Qed.

(** What [saveApiKey] stores is what [loadApiKey] reads, the empty key of
    lines 701 and 779 included; the streak, the history and the cached
    challenges are left as they were. *)
Theorem loadApiKey_saveApiKey (k : jsstring) (w : world) :
  loadApiKey (localStorage (saveApiKey k w)) = k /\
  loadStreak (localStorage (saveApiKey k w)) = loadStreak (localStorage w) /\
  loadHistory (localStorage (saveApiKey k w)) = loadHistory (localStorage w) /\
  (forall d, loadChallenge (localStorage (saveApiKey k w)) d
             = loadChallenge (localStorage w) d).
Proof.
  destruct gemini_key_other as (G1 & G2 & G3).
  unfold saveApiKey, setItem. cbn [localStorage]. split_and!.
  - apply getItem_or_insert_empty.
  - unfold loadStreak. now rewrite !getItem_or_insert_ne.
  - unfold loadHistory. now rewrite getItem_or_insert_ne.
  - intros d. unfold loadChallenge.
    destruct (challenge_key_other d) as (C & _).
    now rewrite lookup_insert_ne by (apply not_eq_sym, C).
Qed.

Section KeyGate.
Variable service : nat -> jsstring -> jsstring -> outcome.

Local Abbreviation k_of g := (JsStr.trim (apiKeyInput g)).

(** [handleSaveKey] writes the key exactly when the trimmed input starts
    with AI and the test request is answered with a body that is not
    [null], whatever the body holds.  The key is then the trimmed input, it
    is what [loadApiKey] reads afterwards, and one request was sent.
    Otherwise the store and the key in use are unchanged and an error is
    shown; an input without the prefix sends no request at all. *)
Theorem handleSaveKey_stores (g : key_gate) (w : world) :
  let k := JsStr.trim (apiKeyInput g) in
  let g' := fst (handleSaveKey service g w) in
  let w' := snd (handleSaveKey service g w) in
  let accepted :=
    JsStr.starts_with (JsStr.lit "AI") k = true /\
    exists data, service (requests w) k test_prompt = Responded data /\
                 Js.nullish data = false in
  (setItems w' = S (setItems w) <-> accepted) /\
  (accepted ->
     apiKey g' = k /\ loadApiKey (localStorage w') = k /\
     localStorage w' = <[od_gemini_key := k]> (localStorage w) /\
     apiKeyError g' = [] /\ testingKey g' = false /\
     requests w' = S (requests w)) /\
  (~ accepted ->
     localStorage w' = localStorage w /\ setItems w' = setItems w /\
     apiKey g' = apiKey g /\ apiKeyError g' <> []) /\
  (JsStr.starts_with (JsStr.lit "AI") k = false -> w' = w).
Proof.
  cbv zeta. unfold handleSaveKey.
  destruct (JsStr.starts_with (JsStr.lit "AI") (k_of g)) eqn:Ep; cbn [negb fst snd].
  2:{ split_and!.
      - split; [intros H; lia | intros [H _]; discriminate H].
      - intros [H _]. discriminate H.
      - intros _. split_and!; auto; discriminate.
      - reflexivity. }
  unfold callGemini.
  destruct (service (requests w) (k_of g) test_prompt) as [msg|data] eqn:Es;
    unfold throw; cbn [fst snd].
  { split_and!.
    - split; [intros H; unfold sent in H; cbn [setItems] in H; lia | intros [_ (x & Hx & _)]; discriminate Hx].
    - intros [_ (x & Hx & _)]. discriminate Hx.
    - intros _. unfold sent. cbn [localStorage setItems apiKey apiKeyError].
      split_and!; auto; discriminate.
    - discriminate. }
  destruct (Js.nullish data) eqn:En.
  - assert (Et : completion_text data
                 = throw (Js.type_error_read data (JsStr.lit "candidates")))
      by (unfold completion_text, Js.member; now rewrite En).
    rewrite Et. unfold throw. cbn [fst snd]. split_and!.
    + split; [intros H; unfold sent in H; cbn [setItems] in H; lia|].
      intros [_ (x & Hx & Hn)]. congruence.
    + intros [_ (x & Hx & Hn)]. congruence.
    + intros _. unfold sent. cbn [localStorage setItems apiKey apiKeyError].
      split_and!; auto; discriminate.
    + discriminate.
  - assert (Et : exists t, completion_text data = ret t)
      by (unfold completion_text, Js.member; rewrite En; simpl; eauto).
    destruct Et as [t Et]. rewrite Et. unfold ret. cbn [fst snd].
    unfold saveApiKey, setItem, sent.
    cbn [localStorage setItems requests apiKey apiKeyError testingKey].
    split_and!.
    + split; [intros _; eauto|reflexivity].
    + intros _. split_and!; try reflexivity. apply getItem_or_insert_empty.
    + intros H. exfalso. apply H. eauto.
    + discriminate.
Qed.

End KeyGate.

(* ---------- pieces of a text ---------- *)

Lemma starts_with_app nd : forall b s,
  JsStr.starts_with nd b = true -> JsStr.starts_with nd (b ++ s) = true.
Proof.
  induction nd as [|x nd IH]; intros b s H; [reflexivity|].
  destruct b as [|y b]; [discriminate H|]. simpl in *.
  apply andb_true_iff in H as [H1 H2]. rewrite H1. simpl. now apply IH.
Qed.

Lemma starts_with_app_false nd b s :
  JsStr.starts_with nd (b ++ s) = false -> JsStr.starts_with nd b = false.
Proof.
  intros H. destruct (JsStr.starts_with nd b) eqn:E; [|reflexivity].
  now rewrite (starts_with_app _ _ s E) in H.
Qed.

Lemma includes_false_iff nd s :
  JsStr.includes s nd = false <->
  forall a b, s = a ++ b -> JsStr.starts_with nd b = false.
Proof.
  induction s as [|c s IH].
  - split.
    + intros H a b E. symmetry in E. apply app_eq_nil in E as [-> ->].
      simpl in H. now apply orb_false_iff in H as [H _].
    + intros H. simpl. rewrite (H [] [] eq_refl). reflexivity.
  - split.
    + intros H a b E. apply includes_cons in H as [H1 H2].
      destruct a as [|x a].
      * simpl in E. now subst b.
      * injection E as -> E. exact (proj1 IH H2 a b E).
    + intros H. simpl. rewrite (H [] (c :: s) eq_refl). simpl.
      apply IH. intros a b E. apply (H (c :: a) b). now rewrite E.
Qed.

Lemma includes_infix nd a u b :
  JsStr.includes (a ++ u ++ b) nd = false -> JsStr.includes u nd = false.
Proof.
  intros H. apply includes_false_iff. intros x y ->.
  apply (starts_with_app_false nd y b).
  apply (proj1 (includes_false_iff nd _) H (a ++ x) (y ++ b)).
  now rewrite <- !app_assoc.
Qed.

Lemma split_from_pieces sep :
  sep <> [] ->
  forall s cur skip,
    (skip <> O -> cur = []) ->
    (forall a b, rev cur = a ++ b -> b <> [] -> JsStr.starts_with sep (b ++ s) = false) ->
    Forall (fun piece => JsStr.includes piece sep = false) (split_from sep s cur skip).
Proof.
  intros Hsep.
  assert (Hnil : JsStr.starts_with sep [] = false) by (destruct sep; [congruence | reflexivity]).
  assert (Hpiece : forall cur s,
    (forall a b, rev cur = a ++ b -> b <> [] -> JsStr.starts_with sep (b ++ s) = false) ->
    JsStr.includes (rev cur) sep = false).
  { intros cur s P. apply includes_false_iff. intros a b E.
    destruct b as [|y b]; [exact Hnil|].
    apply (starts_with_app_false sep _ s). apply (P a); [exact E | discriminate]. }
  induction s as [|c r IH]; intros cur skip Hskip P.
  - simpl. constructor; [|constructor]. exact (Hpiece cur [] P).
  - cbn [split_from]. destruct skip as [|k].
    + destruct (JsStr.starts_with sep (c :: r)) eqn:E.
      * constructor; [exact (Hpiece cur _ P)|].
        apply IH; [reflexivity|].
        intros a b Eab Hb. simpl in Eab. symmetry in Eab.
        apply app_eq_nil in Eab as [_ ->]. congruence.
      * apply IH; [congruence|].
        intros a b Eab Hb. simpl in Eab.
        destruct (decide (b = [c])) as [->|Hbc]; [exact E|].
        assert (exists b', b = b' ++ [c] /\ b' <> [] /\ rev cur = a ++ b') as (b' & -> & Hb' & Eb').
        { destruct (exists_last Hb) as (b' & x & ->).
          rewrite app_assoc in Eab. apply app_inj_tail in Eab as [Eab ->].
          exists b'. split_and!; [reflexivity | | exact Eab].
          intros ->. now apply Hbc. }
        rewrite <- app_assoc. exact (P a b' Eb' Hb').
    + rewrite (Hskip (Nat.neq_succ_0 k)). apply IH; [reflexivity|].
      intros a b Eab Hb. simpl in Eab. symmetry in Eab.
      apply app_eq_nil in Eab as [_ ->]. congruence.
Qed.

Lemma split_pieces s sep :
  sep <> [] -> Forall (fun piece => JsStr.includes piece sep = false) (split s sep).
Proof.
  intros H. apply split_from_pieces; [exact H | congruence |].
  intros a b E Hb. simpl in E. symmetry in E. apply app_eq_nil in E as [_ ->].
  congruence.
Qed.

Lemma split_without sep : forall s cur,
  JsStr.includes s sep = false -> split_from sep s cur 0 = [rev cur ++ s].
Proof.
  induction s as [|c r IH]; intros cur H.
  - simpl. now rewrite app_nil_r.
  - apply includes_cons in H as [H1 H2]. cbn [split_from]. rewrite H1.
    rewrite (IH (c :: cur) H2). simpl. now rewrite <- app_assoc.
Qed.

(* ---------- trim ---------- *)

Lemma drop_while_head p s :
  JsStr.drop_while p s = [] \/
  exists c r, JsStr.drop_while p s = c :: r /\ p c = false.
Proof.
  induction s as [|c s IH]; [now left|]. simpl.
  destruct (p c) eqn:E; [exact IH|]. right. eauto.
Qed.

Lemma drop_while_fixed p s :
  (s = [] \/ exists c r, s = c :: r /\ p c = false) -> JsStr.drop_while p s = s.
Proof. intros [->|(c & r & -> & H)]; [reflexivity|]. simpl. now rewrite H. Qed.

Lemma trim_with_fixed p s :
  JsStr.trim_with p (JsStr.trim_with p s) = JsStr.trim_with p s.
Proof.
  unfold JsStr.trim_with.
  set (u := JsStr.drop_while p s).
  set (v := JsStr.drop_while p (rev u)).
  assert (Hv : v = [] \/ exists c r, v = c :: r /\ p c = false)
    by apply drop_while_head.
  assert (Hu : rev v = [] \/ exists c r, rev v = c :: r /\ p c = false).
  { destruct (drop_while_split p (rev u)) as (w & Ew & _). fold v in Ew.
    apply (f_equal (@rev N)) in Ew. rewrite rev_involutive, rev_app_distr in Ew.
    destruct (rev v) as [|x t] eqn:Ev; [now left|]. right. exists x, t.
    split; [reflexivity|].
    destruct (drop_while_head p s) as [E|(c & r & E & Hc)]; fold u in E.
    - rewrite E in Ew. discriminate Ew.
    - rewrite E in Ew. simpl in Ew. injection Ew as -> _. exact Hc. }
  rewrite (drop_while_fixed p (rev v) Hu), rev_involutive.
  now rewrite (drop_while_fixed p v Hv).
Qed.

Lemma blank_trim s : blank s = false -> JsStr.trim s <> [].
Proof. unfold blank. intros H. now apply jsstr_eqb_neq. Qed.

(** Line 461: every tweet has at least one character, no white space at
    either end and no separator in it; a text without the separator gives
    its trimmed self as the one tweet, or no tweet when it is blank. *)
Theorem tweets_of_spec (raw : jsstring) :
  Forall (fun t => t <> [] /\ JsStr.trim t = t /\
                   JsStr.includes t tweet_separator = false) (tweets_of raw) /\
  (JsStr.includes raw tweet_separator = false ->
     tweets_of raw = if blank raw then [] else [JsStr.trim raw]).
Proof.
  split.
  - unfold tweets_of. apply Forall_forall. intros t Ht.
    apply list_elem_of_In, filter_In in Ht as [Hin Hne].
    apply in_map_iff in Hin as (piece & <- & Hp).
    split_and!.
    + apply negb_true_iff in Hne. now apply jsstr_eqb_neq.
    + apply trim_with_fixed.
    + pose proof (split_pieces raw tweet_separator ltac:(discriminate)) as F.
      rewrite Forall_forall in F. specialize (F piece (proj2 (list_elem_of_In _ _) Hp)).
      destruct (trim_with_split JsStr.is_space piece) as (w1 & w2 & E & _).
      rewrite E in F. exact (includes_infix _ _ _ _ F).
  - intros H. unfold tweets_of, split. rewrite (split_without _ raw [] H).
    cbn [rev app map List.filter]. unfold blank.
    now destruct (JsStr.eqb (JsStr.trim raw) []).
Qed.

(* ---------- feedback and thread ---------- *)


Lemma bumpStreak_frame now st k :
  k <> od_streak -> k <> od_streak_date ->
  fst (bumpStreak now st) !! k = st !! k.
Proof.
  intros H1 H2. unfold bumpStreak. cbn [fst].
  now rewrite !lookup_insert_ne by congruence.
Qed.

Lemma pushHistory_frame JSON_stringify entry st k :
  k <> od_history -> pushHistory JSON_stringify entry st !! k = st !! k.
Proof.
  intros H. unfold pushHistory.
  destruct (loadHistory st); try reflexivity.
  destruct (dedupe entry l); [reflexivity|].
  now rewrite lookup_insert_ne by congruence.
Qed.

Section Workspace.
Variable JSON_stringify : value -> jsstring.
Variable ToString : value -> jsstring.
Variable service : nat -> jsstring -> jsstring -> outcome.




Lemma callGemini_sent key prompt w :
  snd (callGemini service key prompt w) = sent w.
Proof. unfold callGemini. now destruct (service _ _ _). Qed.




End Workspace.

(* ---------- the same day, once more ---------- *)

Lemma getDayNumber_same_day now now' :
  JsDate.Day now' = JsDate.Day now -> getDayNumber now' = getDayNumber now.
Proof.
  unfold JsDate.Day, JsDate.msPerDay, getDayNumber. intros H.
  change start with (20089 * 86400000).
  assert (D : forall t, (t - 20089 * 86400000) / 86400000 = t / 86400000 - 20089)
    by (intros t; div_lia).
  now rewrite !D, H.
Qed.

Lemma iso_date_long n : (10 <= length (JsDate.iso_date n))%nat.
Proof.
  unfold JsDate.iso_date. destruct (JsDate.civil_from_days n) as [[y m] d].
  unfold JsDate.iso_year.
  destruct ((0 <=? y) && (y <=? 9999));
    rewrite ?length_app, ?length_cons, ?length_app, !fixed_digits_length;
    simpl; lia.
Qed.

Lemma todayKey_same_day now now' :
  JsDate.Day now' = JsDate.Day now -> todayKey now' = todayKey now.
Proof.
  intros H. unfold todayKey, JsStr.slice0, JsDate.toISOString. rewrite H.
  now rewrite !take_app_le by apply iso_date_long.
Qed.

Lemma same_day_same_slot now now' offset :
  JsDate.Day now' = JsDate.Day now ->
  dateKey_of now' offset = dateKey_of now offset /\
  getTodayMeta now' offset = getTodayMeta now offset.
Proof.
  intros H. unfold dateKey_of, getTodayMeta.
  now rewrite (getDayNumber_same_day _ _ H), (todayKey_same_day _ _ H).
Qed.

(* ---------- setting a property again ---------- *)

Lemma obj_set_keys o k v k' :
  In k' (map fst (Js.obj_set o k v)) <-> k' = k \/ In k' (map fst o).
Proof.
  induction o as [|[k0 v0] o IH]; simpl.
  - split; [intros [H|[]]; auto | intros [H|[]]; auto].
  - destruct (JsStr.eqb k0 k) eqn:E; simpl.
    + apply jsstr_eqb_eq in E as ->. split; [intros [H|H]; auto | intros [H|[H|H]]; auto].
    + rewrite IH. tauto.
Qed.

Lemma obj_set_same o k v :
  In k (map fst o) -> Js.lookup o k = v -> Js.obj_set o k v = o.
Proof.
  induction o as [|[k0 v0] o IH]; simpl; [intros []|].
  destruct (JsStr.eqb k0 k) eqn:E.
  - apply jsstr_eqb_eq in E as ->. now intros _ ->.
  - intros [H|H] L; [apply jsstr_eqb_neq in E; congruence|].
    now rewrite (IH H L).
Qed.

Lemma with_meta_full parsed cat_label m dateKey :
  with_meta (full_challenge parsed cat_label m dateKey) m
  = full_challenge parsed cat_label m dateKey.
Proof.
  unfold with_meta, full_challenge, set_all. cbn [spread fold_left fst snd].
  f_equal.
  repeat (rewrite obj_set_same;
          [| rewrite !obj_set_keys; tauto
           | rewrite !lookup_obj_set; reflexivity]).
  reflexivity.
Qed.

Section Recall.
Variable JSON_stringify : value -> jsstring.
Variable service : nat -> jsstring -> jsstring -> outcome.
Variables (now offset : Z) (key : jsstring).

(** When a call on a cache miss wrote a record, and the text written for
    it reads back as the record, another call on the same day with the
    same offset, whatever the key and the service, finds the record:
    it sends no request, writes nothing and leaves the challenge shown as
    it is. *)
Theorem second_call_changes_nothing (w : world)
  (service' : nat -> jsstring -> jsstring -> outcome) (now' : Z) (key' : jsstring) :
  let w1 := loadOrGenerateChallenge JSON_stringify service now offset key w in
  localStorage w !! challenge_key (dateKey_of now offset) = None ->
  setItems w1 = S (setItems w) ->
  JSON.parse (JSON_stringify (challenge w1)) = inr (challenge w1) ->
  JsDate.Day now' = JsDate.Day now ->
  loadOrGenerateChallenge JSON_stringify service' now' offset key' w1 = w1.
Proof.
  cbv zeta. intros Hmiss Hw Hp Hday.
  destruct (same_day_same_slot now now' offset Hday) as [Ek Em].
  destruct (obtain_outcome JSON_stringify service now offset key w Hmiss)
    as [(n & full & Hn & _ & Hfull & E) | (_ & e & _ & E)].
  2:{ rewrite E in Hw. unfold setGenerating, setGenError in Hw. cbn [setItems] in Hw.
      destruct (attempt_world_frame service now offset key 2 w) as (_ & H2 & _).
      destruct (attempt_frame service now (getTodayMeta now offset)
                  (dateKey_of now offset) key
                  (attempt_world service now offset key 2 w)) as [(_ & F2 & _) _].
      lia. }
  destruct (attempt_success _ _ _ _ _ _ _ Hfull) as (o & lbl & Efull & _).
  set (x := snd (generate service now (getTodayMeta now offset)
                   (dateKey_of now offset) key
                   (attempt_world service now offset key n w))) in *.
  rewrite E in Hp |- *. cbn [challenge setChallenge] in Hp.
  unfold loadOrGenerateChallenge, loadChallenge. cbv zeta. rewrite Ek, Em.
  unfold setChallenge at 1 2 3, saveChallenge, setItem. cbn [localStorage].
  rewrite lookup_insert_eq.
  destruct (JsStr.eqb (JSON_stringify full) []) eqn:Ee.
  { apply jsstr_eqb_eq in Ee. rewrite Ee in Hp. discriminate Hp. }
  rewrite Hp.
  assert (Ht : Js.truthy full = true) by (rewrite Efull; reflexivity).
  assert (Em' : with_meta full (getTodayMeta now offset) = full)
    by (rewrite Efull; apply with_meta_full).
  rewrite Ht, Em'. reflexivity.
Qed.

End Recall.

(** What [pushHistory] stores is what [loadHistory] reads, when the text
    written for the list reads back as the list: the entry first, then the
    entries of other dates, 60 at most. *)
Theorem loadHistory_pushHistory (JSON_stringify : value -> jsstring)
  (st : storage) (entry : value) (hist : list value) :
  loadHistory st = VArr hist ->
  Forall (fun h => Js.nullish h = false) hist ->
  Js.nullish entry = false ->
  JSON.parse (JSON_stringify (VArr (completed hist entry)))
    = inr (VArr (completed hist entry)) ->
  loadHistory (pushHistory JSON_stringify entry st) = VArr (completed hist entry) /\
  (exists rest, completed hist entry = entry :: rest /\ (length rest < 60)%nat /\
     forall h, In h rest -> In h hist /\ strict_eq (date_of h) (date_of entry) = false).
Proof.
  intros Hl Hh He Hp. split.
  - unfold pushHistory. rewrite Hl, (dedupe_filter _ _ Hh He).
    unfold ret. cbv iota.
    change (next_history entry (List.filter (other_date entry) hist))
      with (completed hist entry).
    unfold loadHistory.
    destruct (JsStr.eqb (JSON_stringify (VArr (completed hist entry))) []) eqn:Ee.
    { apply jsstr_eqb_eq in Ee. rewrite Ee in Hp. discriminate Hp. }
    apply jsstr_eqb_neq in Ee.
    now rewrite (getItem_or_insert _ _ _ _ Ee), Hp.
  - exists (tl (completed hist entry)). split_and!.
    + reflexivity.
    + pose proof (completed_length hist entry) as L.
      unfold completed, next_history in *. simpl in *. lia.
    + apply completed_tail.
Qed.

Local Close Scope Z_scope.

(* ---------- what a match consumes ---------- *)

Lemma star_greedy_consumed {A} p (k : jsstring -> option A) x : forall s,
  star_greedy p k s = Some x ->
  exists u s', s = u ++ s' /\ forallb p u = true /\ k s' = Some x.
Proof.
  induction s as [|c r IH]; simpl; intros H.
  - exists [], []. auto.
  - destruct (p c) eqn:Hc; [|exists [], (c :: r); auto].
    destruct (star_greedy p k r) as [y|] eqn:E.
    + injection H as ->. destruct (IH eq_refl) as (u & s' & -> & Hu & Hk).
      exists (c :: u), s'. split_and!; [reflexivity | | exact Hk].
      simpl. apply andb_true_iff. auto.
    + exists [], (c :: r). auto.
Qed.

Lemma star_lazy_consumed {A} p (k : jsstring -> option A) x : forall s,
  star_lazy p k s = Some x ->
  exists u s', s = u ++ s' /\ forallb p u = true /\ k s' = Some x.
Proof.
  induction s as [|c r IH]; simpl; intros H.
  - destruct (k []) eqn:E; [|discriminate]. exists [], []. rewrite E. auto.
  - destruct (k (c :: r)) eqn:E; [exists [], (c :: r); rewrite E; auto|].
    destruct (p c) eqn:Hc; [|discriminate].
    destruct (IH H) as (u & s' & -> & Hu & Hk).
    exists (c :: u), s'. split_and!; [reflexivity | | exact Hk].
    simpl. apply andb_true_iff. auto.
Qed.

Lemma m_atom_consumed {A} a (k : jsstring -> option A) s x :
  m_atom a k s = Some x ->
  exists u s', s = u ++ s' /\ forallb (atom_takes a) u = true /\ k s' = Some x.
Proof.
  destruct a as [c|c|p|p|p|p]; simpl; intros H.
  - destruct s as [|y r]; [discriminate|].
    destruct (y =? c)%N eqn:E; [|discriminate].
    exists [y], r. simpl. rewrite E. auto.
  - destruct s as [|y r]; [discriminate|].
    destruct (canonicalize y =? canonicalize c)%N eqn:E; [|discriminate].
    exists [y], r. simpl. rewrite E. auto.
  - destruct s as [|y r]; [discriminate|].
    destruct (p y) eqn:E; [|discriminate].
    exists [y], r. simpl. rewrite E. auto.
  - now apply star_greedy_consumed.
  - now apply star_lazy_consumed.
  - destruct s as [|y r]; [discriminate|].
    destruct (p y) eqn:E; [|discriminate].
    destruct (star_greedy_consumed p k x r H) as (u & s' & -> & Hu & Hk).
    exists (y :: u), s'. split_and!; [reflexivity | | exact Hk].
    simpl. apply andb_true_iff. auto.
Qed.

Lemma forallb_weaken {A} (p q : A -> bool) l :
  (forall x, p x = true -> q x = true) -> forallb p l = true -> forallb q l = true.
Proof. apply forallb_impl. Qed.

(** A match consumes a prefix of the text, every character of which some
    item of the pattern accepts. *)
Lemma m_items_consumed r : forall cap s c rest,
  m_items r cap s = Some (c, rest) ->
  exists u, s = u ++ rest /\ forallb (regex_takes r) u = true.
Proof.
  induction r as [|it r IH]; intros cap s c rest H.
  - simpl in H. injection H as _ ->. exists []. auto.
  - assert (Hit : forall x, atom_takes (item_atom it) x = true ->
                            regex_takes (it :: r) x = true)
      by (intros x Hx; unfold regex_takes; simpl; now rewrite Hx).
    assert (Hr : forall x, regex_takes r x = true -> regex_takes (it :: r) x = true)
      by (intros x Hx; unfold regex_takes in *; simpl; rewrite Hx; apply orb_true_r).
    destruct it as [a|a]; simpl in H;
      apply m_atom_consumed in H as (u1 & s' & -> & H1 & H2);
      apply IH in H2 as (u2 & -> & H3);
      exists (u1 ++ u2); rewrite <- app_assoc; (split; [reflexivity|]);
      rewrite forallb_app; apply andb_true_iff;
      split; eauto using forallb_weaken.
Qed.

Lemma first_occurrence (c : N) : forall u rest x t,
  u ++ rest = x ++ c :: t -> ~ In c u -> ~ In c x ->
  exists x', x = u ++ x' /\ rest = x' ++ c :: t.
Proof.
  induction u as [|a u IH]; intros rest x t E Hu Hx.
  - exists x. auto.
  - destruct x as [|b x]; simpl in E; injection E as -> E.
    + exfalso. apply Hu. now left.
    + destruct (IH rest x t E) as (x' & -> & ->).
      * intros H. apply Hu. now right.
      * intros H. apply Hx. now right.
      * exists x'. auto.
Qed.

Lemma takes_not_in r c u :
  regex_takes r c = false -> forallb (regex_takes r) u = true -> ~ In c u.
Proof.
  intros Hc Hu Hin. rewrite forallb_forall in Hu.
  specialize (Hu c Hin). congruence.
Qed.

(* ---------- erasing around a protected text ---------- *)

Section Erase.
Variable r : regex.

(** The pattern matches no text that does not start with a fence, and
    never consumes an opening brace. *)
Hypothesis needs_ticks :
  forall s, JsStr.starts_with ticks s = false -> m_items r None s = None.
Hypothesis spares_brace : regex_takes r 123 = false.

Lemma erase_before_brace : forall fuel x t,
  ~ In 123%N x -> length (x ++ 123%N :: t) < fuel ->
  exists x' fuel',
    replace_loop fuel r erase (x ++ 123%N :: t)
    = x' ++ replace_loop fuel' r erase (123%N :: t) /\
    ~ In 123%N x' /\ length (123%N :: t) < fuel'.
Proof.
  induction fuel as [|n IH]; intros x t Hx Hlen; [lia|].
  destruct x as [|c x].
  { exists [], (S n). auto. }
  assert (Hx' : ~ In 123%N x) by (intros H; apply Hx; now right).
  change ((c :: x) ++ 123%N :: t) with (c :: x ++ 123%N :: t) in *.
  cbn [replace_loop].
  destruct (m_items r None (c :: x ++ 123%N :: t)) as [[cap rest]|] eqn:E.
  - destruct (m_items_consumed _ _ _ _ _ E) as (u & Eu & Hu).
    pose proof (takes_not_in _ _ _ spares_brace Hu) as Hnu.
    change (c :: x ++ 123%N :: t) with ((c :: x) ++ 123%N :: t) in Eu.
    symmetry in Eu.
    destruct (first_occurrence 123%N u rest (c :: x) t Eu Hnu Hx) as (x' & Ex & ->).
    assert (Em : take (length (c :: x ++ 123%N :: t) - length (x' ++ 123%N :: t))
                   (c :: x ++ 123%N :: t) = u).
    { change (c :: x ++ 123%N :: t) with ((c :: x) ++ 123%N :: t).
      rewrite Ex, <- app_assoc.
      replace (length (u ++ x' ++ 123%N :: t) - length (x' ++ 123%N :: t))
        with (length u) by (rewrite !length_app; lia).
      apply take_app_length. }
    rewrite Em. destruct u as [|a u].
    + simpl in Ex. subst x'.
      destruct (IH x t Hx') as (y & f' & -> & Hy & Hf'); [simpl in Hlen; lia|].
      exists (c :: y), f'. split_and!; [reflexivity | | exact Hf'].
      intros [->|H]; [apply Hx; now left | now apply Hy].
    + assert (Hn' : ~ In 123%N x').
      { intros H. apply Hx. rewrite Ex. apply in_or_app. now right. }
      destruct (IH x' t Hn') as (y & f' & -> & Hy & Hf').
      { apply (f_equal (@length N)) in Ex.
        rewrite length_app in Ex. rewrite length_app. rewrite length_cons in Hlen.
        rewrite length_app in Hlen. rewrite !length_cons in Ex. lia. }
      exists y, f'. auto.
  - destruct (IH x t Hx') as (y & f' & -> & Hy & Hf'); [simpl in Hlen; lia|].
    exists (c :: y), f'. split_and!; [reflexivity | | exact Hf'].
    intros [->|H]; [apply Hx; now left | now apply Hy].
Qed.

Lemma erase_skips : forall fuel x rest,
  (forall a b, x = a ++ b -> b <> [] -> JsStr.starts_with ticks (b ++ rest) = false) ->
  length (x ++ rest) < fuel ->
  replace_loop fuel r erase (x ++ rest) = x ++ replace_loop (fuel - length x) r erase rest.
Proof.
  induction fuel as [|n IH]; intros x rest Hx Hlen; [lia|].
  destruct x as [|c x].
  { simpl. reflexivity. }
  change ((c :: x) ++ rest) with (c :: x ++ rest) in *.
  cbn [replace_loop].
  rewrite needs_ticks by (apply (Hx [] (c :: x)); [reflexivity | discriminate]).
  change (S n - length (c :: x)) with (n - length x).
  rewrite (IH x rest); [reflexivity | | simpl in Hlen; lia].
  intros a b -> Hb. apply (Hx (c :: a) b); [reflexivity | exact Hb].
Qed.

Lemma erase_keeps (P : N -> Prop) : forall fuel s,
  Forall P s -> Forall P (replace_loop fuel r erase s).
Proof.
  induction fuel as [|n IH]; intros s Hs; [exact Hs|].
  cbn [replace_loop].
  destruct (m_items r None s) as [[cap rest]|] eqn:E.
  - destruct (m_items_consumed _ _ _ _ _ E) as (u & Eu & _).
    assert (Hrest : Forall P rest)
      by (rewrite Eu in Hs; now apply Forall_app in Hs as [_ Hs]).
    destruct (take _ _) as [|a m].
    + destruct s as [|c s']; [constructor|].
      apply Forall_cons in Hs as [H1 H2]. simpl. apply Forall_cons. auto.
    + simpl. now apply IH.
  - destruct s as [|c s']; [constructor|].
    apply Forall_cons in Hs as [H1 H2]. apply Forall_cons. auto.
Qed.

End Erase.

(* ---------- a JSON object inside other text ---------- *)

Lemma fences_spare_brace :
  regex_takes fence_re 123 = false /\ regex_takes fence_json_re 123 = false.
Proof. split; reflexivity. Qed.

Lemma starts_with_long nd : forall b s,
  length nd <= length b -> JsStr.starts_with nd (b ++ s) = JsStr.starts_with nd b.
Proof.
  induction nd as [|x nd IH]; intros b s H; [reflexivity|].
  destruct b as [|y b]; [simpl in H; lia|]. simpl.
  rewrite IH by (simpl in H; lia). reflexivity.
Qed.

Lemma no_fence_inside body post :
  JsStr.includes (body ++ [125%N]) ticks = false ->
  forall a b, body ++ [125%N] = a ++ b -> b <> [] ->
    JsStr.starts_with ticks (b ++ post) = false.
Proof.
  intros H a b E Hb.
  pose proof (proj1 (includes_false_iff ticks _) H a b E) as Hs.
  destruct (exists_last Hb) as (b0 & z & ->).
  rewrite app_assoc in E. apply app_inj_tail in E as [_ <-].
  destruct b0 as [|c1 [|c2 b1]].
  - reflexivity.
  - rewrite ticks_eq. simpl. destruct (96 =? c1)%N; reflexivity.
  - rewrite starts_with_long; [exact Hs|]. rewrite ticks_eq. simpl.
    rewrite length_app. simpl. lia.
Qed.

Lemma not_in_Forall (c : N) l : ~ In c l <-> Forall (fun x => x <> c) l.
Proof.
  rewrite Forall_forall. split.
  - intros H x Hx ->. apply H. now apply list_elem_of_In.
  - intros H Hin. apply (H c); [now apply list_elem_of_In | reflexivity].
Qed.

Lemma erase_around r pre mid post :
  (forall s, JsStr.starts_with ticks s = false -> m_items r None s = None) ->
  regex_takes r 123 = false ->
  JsStr.includes (123%N :: mid ++ [125%N]) ticks = false ->
  ~ In 123%N pre -> ~ In 125%N post ->
  exists pre' post',
    replace_all r erase (pre ++ (123%N :: mid ++ [125%N]) ++ post)
    = pre' ++ (123%N :: mid ++ [125%N]) ++ post' /\
    ~ In 123%N pre' /\ ~ In 125%N post'.
Proof.
  intros Hn Hs Hi Hpre Hpost. unfold replace_all.
  set (B := 123%N :: mid ++ [125%N]) in *.
  destruct (erase_before_brace r Hs (S (length (pre ++ B ++ post))) pre
              ((mid ++ [125%N]) ++ post) Hpre) as (pre' & fuel' & E & Hpre' & Hf).
  { unfold B. simpl. lia. }
  change (123%N :: (mid ++ [125%N]) ++ post) with (B ++ post) in E, Hf.
  rewrite E.
  rewrite (erase_skips r Hn fuel' B post)
    by (try exact Hf; apply (no_fence_inside (123%N :: mid) post); exact Hi).
  exists pre', (replace_loop (fuel' - length B) r erase post).
  split_and!; [reflexivity | exact Hpre' |].
  apply not_in_Forall, erase_keeps. now apply not_in_Forall.
Qed.

Lemma drop_while_app_stop p x c t :
  p c = false ->
  JsStr.drop_while p (x ++ c :: t) = JsStr.drop_while p x ++ c :: t.
Proof.
  intros Hc. induction x as [|y x IH]; simpl.
  - now rewrite Hc.
  - destruct (p y); [exact IH | reflexivity].
Qed.

Lemma drop_while_in p x (c : N) : In c (JsStr.drop_while p x) -> In c x.
Proof.
  destruct (drop_while_split p x) as (w & E & _). intros H.
  rewrite E. apply in_or_app. now right.
Qed.

Lemma trim_around pre mid post :
  ~ In 123%N pre -> ~ In 125%N post ->
  exists pre' post',
    JsStr.trim (pre ++ (123%N :: mid ++ [125%N]) ++ post)
    = pre' ++ (123%N :: mid ++ [125%N]) ++ post' /\
    ~ In 123%N pre' /\ ~ In 125%N post'.
Proof.
  intros Hpre Hpost.
  exists (JsStr.drop_while JsStr.is_space pre),
         (rev (JsStr.drop_while JsStr.is_space (rev post))).
  split_and!.
  - unfold JsStr.trim, JsStr.trim_with.
    change ((123%N :: mid ++ [125%N]) ++ post) with (123%N :: (mid ++ [125%N]) ++ post).
    rewrite drop_while_app_stop by reflexivity.
    set (pre1 := JsStr.drop_while JsStr.is_space pre).
    replace (pre1 ++ 123%N :: (mid ++ [125%N]) ++ post)
      with ((pre1 ++ 123%N :: mid) ++ 125%N :: post)
      by (rewrite <- !app_assoc; reflexivity).
    rewrite rev_app_distr. cbn [rev]. rewrite <- app_assoc. cbn [app].
    rewrite drop_while_app_stop by reflexivity.
    rewrite rev_app_distr. cbn [rev]. rewrite rev_involutive.
    rewrite <- !app_assoc. reflexivity.
  - intros H. apply Hpre. now apply drop_while_in in H.
  - intros H. apply Hpost. apply in_rev in H. apply drop_while_in in H.
    now apply in_rev.
Qed.

Lemma star_any_none post (k : jsstring -> option (option jsstring * jsstring)) :
  ~ In 125%N post ->
  star_greedy any_char (m_atom (Chr 125) k) post = None.
Proof.
  induction post as [|c post IH]; intros H; [reflexivity|].
  simpl. rewrite IH by (intros Hin; apply H; now right).
  destruct (c =? 125)%N eqn:E; [|reflexivity].
  apply N.eqb_eq in E. subst c. exfalso. apply H. now left.
Qed.

Lemma star_any_last mid post :
  ~ In 125%N post ->
  star_greedy any_char
    (m_atom (Chr 125) (fun s => Some (@None jsstring, s))) (mid ++ 125%N :: post)
  = Some (None, post).
Proof.
  intros H. induction mid as [|c mid IH].
  - simpl. now rewrite star_any_none.
  - simpl. simpl in IH. now rewrite IH.
Qed.

Lemma exec_object_around mid post : forall pre i,
  ~ In 123%N pre -> ~ In 125%N post ->
  exists j,
    exec_from object_re (pre ++ (123%N :: mid ++ [125%N]) ++ post) i
    = Some {| index := j; matched := 123%N :: mid ++ [125%N]; group1 := None |}.
Proof.
  induction pre as [|c pre IH]; intros i Hpre Hpost.
  - exists i.
    assert (E : m_items object_re None ((123%N :: mid ++ [125%N]) ++ post)
                = Some (None, post)).
    { simpl. rewrite <- app_assoc. apply star_any_last, Hpost. }
    cbn [app]. rewrite (exec_from_hit _ _ _ _ _ E). do 2 f_equal.
    replace (length ((123%N :: mid ++ [125%N]) ++ post) - length post)
      with (length (123%N :: mid ++ [125%N])) by (rewrite length_app; lia).
    apply take_app_length.
  - destruct (IH (S i)) as [j Ej]; [intros H; apply Hpre; now right | exact Hpost |].
    exists j. rewrite <- Ej.
    change ((c :: pre) ++ (123%N :: mid ++ [125%N]) ++ post)
      with (c :: pre ++ (123%N :: mid ++ [125%N]) ++ post).
    cbn [exec_from].
    assert (E : m_items object_re None (c :: pre ++ (123%N :: mid ++ [125%N]) ++ post)
                = None).
    { simpl. destruct (c =? 123)%N eqn:Ec; [|reflexivity].
      apply N.eqb_eq in Ec. subst c. exfalso. apply Hpre. now left. }
    now rewrite E.
Qed.

(** A JSON object with text before it that has no opening brace and text
    after it that has no closing brace, fences included, is found by the
    first tier: when the object holds no fence marker itself,
    [parseGeminiJSON] returns the record it denotes. *)
Theorem wrapped_object (pre body post : jsstring) (o : list (jsstring * value)) :
  JSON.parse body = inr (VObj o) ->
  JsStr.includes body ticks = false ->
  ~ In 123%N pre -> ~ In 125%N post ->
  parseGeminiJSON (pre ++ body ++ post) = ret (VObj o).
Proof.
  intros Hp Hf Hpre Hpost.
  destruct (parse_object_shape _ _ Hp) as (w1 & mid & w2 & Hb & P1 & P2).
  set (B := 123%N :: mid ++ [125%N]) in *.
  assert (Hparse : JSON.parse B = inr (VObj o)).
  { assert (Ht : JSON.trim body = B)
      by (unfold JSON.trim; now rewrite (trim_with_unique _ _ _ _ _ _ _ Hb)).
    assert (Ht' : JSON.trim B = B).
    { unfold JSON.trim. apply (trim_with_unique _ _ [] []); auto.
      now rewrite app_nil_r. }
    unfold JSON.parse in *. rewrite Ht'. rewrite Ht in Hp. exact Hp. }
  assert (Hi : JsStr.includes B ticks = false)
    by (rewrite Hb in Hf; exact (includes_infix _ _ _ _ Hf)).
  assert (Hws1 : ~ In 123%N (pre ++ w1)).
  { intros H. apply in_app_or in H as [H|H]; [now apply Hpre|].
    rewrite forallb_forall in P1. specialize (P1 _ H). discriminate P1. }
  assert (Hws2 : ~ In 125%N (w2 ++ post)).
  { intros H. apply in_app_or in H as [H|H]; [|now apply Hpost].
    rewrite forallb_forall in P2. specialize (P2 _ H). discriminate P2. }
  assert (Hraw : pre ++ body ++ post = (pre ++ w1) ++ B ++ (w2 ++ post))
    by (rewrite Hb, <- !app_assoc; reflexivity).
  destruct fences_spare_brace as [S1 S2].
  destruct (erase_around fence_json_re _ mid _ fence_json_needs_ticks S2 Hi Hws1 Hws2)
    as (x1 & y1 & E1 & Hx1 & Hy1).
  destruct (erase_around fence_re _ mid _ fence_needs_ticks S1 Hi Hx1 Hy1)
    as (x2 & y2 & E2 & Hx2 & Hy2).
  destruct (trim_around _ mid _ Hx2 Hy2) as (x3 & y3 & E3 & Hx3 & Hy3).
  destruct (exec_object_around mid y3 x3 0 Hx3 Hy3) as [j Ej].
  assert (Hc : cleaned1 (pre ++ body ++ post) = B).
  { unfold cleaned1, strip_fences. fold B in E1, E2, E3, Ej.
    rewrite Hraw, E1, E2, E3. unfold exec. now rewrite Ej. }
  unfold parseGeminiJSON. now rewrite Hc, Hparse.
Qed.

Local Open Scope Z_scope.

Local Close Scope Z_scope.

(* ---------- a completion without a double quote ---------- *)

Section Quoteless.

Local Abbreviation quoteless := (fun s : jsstring => ~ In 34%N s).

Lemma quoteless_cons c s : quoteless (c :: s) -> c <> 34%N /\ quoteless s.
Proof. intros H. split; [intros ->; apply H; now left | intros Hs; apply H; now right]. Qed.

(** A pattern that starts with a double quote matches nowhere. *)
Lemma exec_needs_quote r : forall s i,
  quoteless s -> exec_from (Plain (Chr 34) :: r) s i = None.
Proof.
  induction s as [|c s IH]; intros i H; [reflexivity|].
  apply quoteless_cons in H as [Hc Hs]. cbn [exec_from m_items m_atom].
  apply N.eqb_neq in Hc. rewrite Hc. now apply IH.
Qed.

Lemma replace_needs_quote r f : forall fuel s,
  quoteless s -> replace_loop fuel (Plain (Chr 34) :: r) f s = s.
Proof.
  induction fuel as [|n IH]; intros s H; [reflexivity|].
  destruct s as [|c s]; [reflexivity|].
  apply quoteless_cons in H as [Hc Hs]. cbn [replace_loop m_items m_atom].
  apply N.eqb_neq in Hc. rewrite Hc. now rewrite IH.
Qed.

Lemma exec_from_matched r : forall s i m,
  exec_from r s i = Some m -> exists a b, s = a ++ matched m ++ b.
Proof.
  induction s as [|c s IH]; intros i m H.
  - simpl in H. destruct (m_items r None []) as [[cap rest]|]; [|discriminate].
    injection H as <-. exists [], []. reflexivity.
  - cbn [exec_from] in H.
    destruct (m_items r None (c :: s)) as [[cap rest]|] eqn:E.
    + injection H as <-. cbn [matched].
      destruct (m_items_consumed _ _ _ _ _ E) as (u & Eu & _).
      exists [], rest. cbn [app].
      assert (El : S (length s) - length rest = length u).
      { apply (f_equal (@length N)) in Eu. rewrite length_app in Eu.
        simpl in Eu. lia. }
      rewrite El, Eu. now rewrite take_app_length.
    + destruct (IH _ _ H) as (a & b & ->). exists (c :: a), b. reflexivity.
Qed.

Lemma quoteless_infix a s b : quoteless (a ++ s ++ b) -> quoteless s.
Proof. intros H Hin. apply H. apply in_or_app. right. apply in_or_app. now left. Qed.

Lemma in_drop {A} (x : A) : forall n l, In x (drop n l) -> In x l.
Proof.
  induction n as [|n IH]; intros l H; [exact H|].
  destruct l as [|y l]; [exact H|]. right. now apply IH.
Qed.

Lemma quoteless_substring s a b : quoteless s -> quoteless (JsStr.substring s a b).
Proof.
  intros H Hin. apply H. unfold JsStr.substring in Hin.
  apply in_take in Hin. now apply in_drop in Hin.
Qed.

Lemma quoteless_cleaned1 raw : quoteless raw -> quoteless (cleaned1 raw).
Proof.
  intros H.
  assert (Hs : quoteless (strip_fences raw)).
  { unfold strip_fences, replace_all.
    destruct (trim_with_split JsStr.is_space
                (replace_loop
                   (S (length (replace_loop (S (length raw)) fence_json_re erase raw)))
                   fence_re erase
                   (replace_loop (S (length raw)) fence_json_re erase raw)))
      as (w1 & w2 & E & _).
    apply (quoteless_infix w1 _ w2). unfold JsStr.trim. rewrite <- E.
    apply not_in_Forall. do 2 apply erase_keeps. now apply not_in_Forall. }
  unfold cleaned1. destruct (exec object_re (strip_fences raw)) as [m|] eqn:E; [|exact Hs].
  destruct (exec_from_matched _ _ _ _ E) as (a & b & Eab).
  apply (quoteless_infix a _ b). now rewrite <- Eab.
Qed.

Lemma quoteless_cleaned2 raw : quoteless raw -> quoteless (cleaned2 raw).
Proof.
  intros H. pose proof (quoteless_cleaned1 raw H) as H1. unfold cleaned2.
  set (c1 := cleaned1 raw) in *.
  destruct (negb (JsStr.indexOf c1 123 =? -1)%Z && negb (JsStr.lastIndexOf c1 125 =? -1)%Z).
  - pose proof (quoteless_substring c1 (JsStr.indexOf c1 123)
                  (JsStr.lastIndexOf c1 125 + 1)%Z H1) as H2.
    unfold replace_all, quoted_re. now rewrite replace_needs_quote.
  - unfold replace_all, quoted_re. now rewrite replace_needs_quote.
Qed.

Lemma quoteless_rebuild s : quoteless s -> rebuild s = None.
Proof.
  intros H. unfold rebuild, titleMatch, extract, exec.
  change (string_field_re "title")
    with (Plain (Chr 34) :: tl (string_field_re "title")).
  now rewrite exec_needs_quote.
Qed.

(** An object read from a text without a double quote has no member. *)
Lemma quoteless_object s o :
  quoteless s -> JSON.parse s = inr (VObj o) -> o = [].
Proof.
  intros H Hp. unfold JSON.parse in Hp.
  destruct (trim_with_split JSON.is_ws s) as (w1 & w2 & Es & _).
  fold (JSON.trim s) in Es.
  assert (Ht : quoteless (JSON.trim s)) by (apply (quoteless_infix w1 _ w2); now rewrite <- Es).
  set (t := JSON.trim s) in *.
  destruct (JSON.parse_value (S (length t)) t) as [e|[v rest]] eqn:E; [discriminate|].
  destruct rest; [|discriminate]. injection Hp as ->.
  cbn [JSON.parse_value] in E.
  destruct (JSON.skip_ws t) as [|c r] eqn:E1; [discriminate|].
  pose proof (skip_ws_eq_suffix _ _ E1) as S1.
  destruct (c =? 123)%N eqn:Ec.
  - destruct (JSON.skip_ws r) as [|c1 r1] eqn:E2; [discriminate|].
    pose proof (skip_ws_eq_suffix _ _ E2) as S2.
    destruct (c1 =? 125)%N; [now injection E as <- _|].
    exfalso. destruct (length t) as [|n]; [discriminate E|].
    cbn [JSON.parse_member] in E.
    replace (JSON.skip_ws (c1 :: r1)) with (c1 :: r1) in E
      by (symmetry; unfold JSON.skip_ws in *;
          destruct (drop_while_head JSON.is_ws r) as [Hd|(x & y & Hd & Hx)];
          rewrite Hd in E2; [discriminate E2|];
          injection E2 as -> ->; simpl; now rewrite Hx).
    destruct (c1 =? 34)%N eqn:Eq; [|discriminate E].
    apply N.eqb_eq in Eq. subst c1. apply Ht.
    destruct S1 as [k1 ->]. destruct S2 as [k2 ->].
    apply in_or_app. right. right. apply in_or_app. right. now left.
  - destruct (c =? 91)%N.
    + destruct (JSON.skip_ws r) as [|c1 r1]; [discriminate|].
      destruct (c1 =? 93)%N; [discriminate E|].
      destruct (JSON.parse_value _ _) as [e|[v r2]]; [discriminate|].
      destruct (parse_shape (length t)) as (_ & He & _).
      destruct (He _ _ _ _ E) as [_ [l Hl]]. discriminate Hl.
    + destruct (c =? 34)%N.
      * destruct (JSON.lex_string r []) as [e|[str r1]]; discriminate E.
      * destruct ((c =? 45)%N || Js.is_digit c).
        -- destruct (JSON.lex_number (c :: r)) as [e|[x r1]]; discriminate E.
        -- exfalso. exact (lex_literal_kind _ _ _ E o eq_refl).
Qed.

Lemma quoteless_no_fields s v :
  quoteless s -> JSON.parse s = inr v -> has_fields v = false.
Proof.
  intros H Hp. destruct (has_fields v) eqn:E; [|reflexivity].
  destruct (has_fields_object v E) as [o ->].
  rewrite (quoteless_object s o H Hp) in E. discriminate E.
Qed.

(** A completion without a double quote never becomes a challenge: the
    three tiers give nothing with the six fields, and the attempt throws. *)
Theorem quoteless_completion_fails (raw : jsstring) :
  ~ In 34%N raw ->
  (exists e, recover raw = throw e) /\
  (forall v, parseGeminiJSON raw = ret v -> has_fields v = false).
Proof.
  intros H.
  pose proof (quoteless_cleaned1 raw H) as H1.
  pose proof (quoteless_cleaned2 raw H) as H2.
  assert (Hv : forall v, parseGeminiJSON raw = ret v -> has_fields v = false).
  { intros v. unfold parseGeminiJSON.
    destruct (JSON.parse (cleaned1 raw)) as [e1|v1] eqn:E1.
    - destruct (JSON.parse (cleaned2 raw)) as [e2|v2] eqn:E2.
      + rewrite (quoteless_rebuild _ H2). discriminate.
      + intros Hr. injection Hr as <-. exact (quoteless_no_fields _ _ H2 E2).
    - intros Hr. injection Hr as <-. exact (quoteless_no_fields _ _ H1 E1). }
  split; [|exact Hv].
  unfold recover. destruct (parseGeminiJSON raw) as [e|v] eqn:Ep; [simpl; eauto|].
  simpl. rewrite validate_spec, (Hv v eq_refl).
  destruct (Js.nullish v); simpl; eauto.
Qed.

End Quoteless.

Local Open Scope Z_scope.
Local Close Scope Z_scope.

(* ---------- the second attempt ---------- *)

Lemma without_breaks_app a b :
  without_breaks (a ++ b) = without_breaks a ++ without_breaks b.
Proof. unfold without_breaks. now rewrite map_app, List.filter_app. Qed.

Lemma without_breaks_fixed s :
  ~ In 10%N s -> ~ In 13%N s -> without_breaks s = s.
Proof.
  induction s as [|c s IH]; intros H10 H13; [reflexivity|].
  unfold without_breaks in *. cbn [map List.filter].
  destruct (c =? 10)%N eqn:E10; [apply N.eqb_eq in E10; exfalso; apply H10; now left|].
  destruct (c =? 13)%N eqn:E13; [apply N.eqb_eq in E13; exfalso; apply H13; now left|].
  cbn [negb]. f_equal. apply IH; intros Hin; [apply H10 | apply H13]; now right.
Qed.

Lemma without_breaks_idem s : without_breaks (without_breaks s) = without_breaks s.
Proof.
  induction s as [|c s IH]; [reflexivity|].
  unfold without_breaks in *. cbn [map List.filter].
  destruct (c =? 10)%N eqn:E10.
  - change (32 =? 13)%N with false. cbn [negb map List.filter].
    change (32 =? 10)%N with false. change (32 =? 13)%N with false.
    cbn [negb]. now rewrite IH.
  - destruct (c =? 13)%N eqn:E13; cbn [negb map List.filter]; [exact IH|].
    rewrite E10, E13. cbn [negb]. now rewrite IH.
Qed.

(** [s.replace(/\n/g, ' ')] *)
Lemma replace_newlines : forall fuel s,
  length s < fuel ->
  replace_loop fuel newline_re (fun _ _ => [32%N]) s
  = map (fun c => if (c =? 10)%N then 32%N else c) s.
Proof.
  induction fuel as [|n IH]; intros s H; [lia|].
  destruct s as [|c s]; [reflexivity|].
  simpl in H. cbn [replace_loop newline_re m_items m_atom map].
  destruct (c =? 10)%N.
  - replace (length (c :: s) - length s) with 1 by (simpl; lia).
    cbn [take app]. now rewrite IH by lia.
  - now rewrite IH by lia.
Qed.

(** [s.replace(/\r/g, '')] *)
Lemma replace_returns : forall fuel s,
  length s < fuel ->
  replace_loop fuel return_re erase s = List.filter (fun c => negb (c =? 13)%N) s.
Proof.
  induction fuel as [|n IH]; intros s H; [lia|].
  destruct s as [|c s]; [reflexivity|].
  simpl in H. cbn [replace_loop return_re m_items m_atom List.filter].
  destruct (c =? 13)%N.
  - replace (length (c :: s) - length s) with 1 by (simpl; lia).
    cbn [take app negb]. unfold erase at 1. cbn [app]. now rewrite IH by lia.
  - cbn [negb]. now rewrite IH by lia.
Qed.

(** What the callback of lines 60-64 returns. *)
Lemma fix_quoted_spec m content :
  fix_quoted m (Some content) = [34%N] ++ without_breaks content ++ [34%N].
Proof.
  unfold fix_quoted, replace_all, without_breaks. cbn [default].
  rewrite replace_newlines by lia. now rewrite replace_returns by lia.
Qed.

(** A match of the pattern of line 60 is a quoted span. *)
Lemma quoted_match s cap rest :
  m_items quoted_re None s = Some (cap, rest) ->
  exists content, s = 34%N :: content ++ 34%N :: rest /\ cap = Some content.
Proof.
  unfold quoted_re. cbn [m_items m_atom].
  destruct s as [|x r]; [discriminate|].
  destruct (x =? 34)%N eqn:Ex; [|discriminate]. apply N.eqb_eq in Ex. subst x.
  intros H. apply star_lazy_consumed in H as (u & s' & Er & _ & Hk).
  destruct s' as [|y rest']; [discriminate|].
  destruct (y =? 34)%N eqn:Ey; [|discriminate]. apply N.eqb_eq in Ey. subst y.
  injection Hk as <- <-. exists u. split; [now rewrite Er|].
  f_equal. rewrite Er, length_app. simpl.
  replace (length u + S (length rest') - S (length rest')) with (length u) by lia.
  now rewrite take_app_length.
Qed.

Lemma quoted_step n s content rest :
  s = 34%N :: content ++ 34%N :: rest ->
  m_items quoted_re None s = Some (Some content, rest) ->
  replace_loop (S n) quoted_re fix_quoted s
  = (34%N :: without_breaks content ++ [34%N]) ++ replace_loop n quoted_re fix_quoted rest.
Proof.
  intros Es Em. cbn [replace_loop]. rewrite Em.
  assert (Et : take (length s - length rest) s = 34%N :: content ++ [34%N]).
  { rewrite Es. simpl length. rewrite length_app. simpl length.
    replace (S (length content + S (length rest)) - length rest)
      with (length (34%N :: content ++ [34%N]))
      by (simpl; rewrite length_app; simpl; lia).
    change (34%N :: content ++ 34%N :: rest)
      with ((34%N :: content) ++ [34%N] ++ rest).
    rewrite app_assoc. now rewrite take_app_length. }
  rewrite Et. now rewrite fix_quoted_spec.
Qed.

(** Line 60: the replacement changes line breaks only. *)
Lemma fix_quoted_breaks : forall fuel s,
  without_breaks (replace_loop fuel quoted_re fix_quoted s) = without_breaks s.
Proof.
  induction fuel as [|n IH]; intros s; [reflexivity|].
  destruct (m_items quoted_re None s) as [[cap rest]|] eqn:Em.
  - destruct (quoted_match _ _ _ Em) as (content & Es & ->).
    rewrite (quoted_step n s content rest Es Em).
    rewrite without_breaks_app, IH. rewrite Es.
    change (34%N :: without_breaks content ++ [34%N])
      with ([34%N] ++ without_breaks content ++ [34%N]).
    change (34%N :: content ++ 34%N :: rest)
      with ([34%N] ++ content ++ [34%N] ++ rest).
    now rewrite !without_breaks_app, without_breaks_idem, <- !app_assoc.
  - cbn [replace_loop]. rewrite Em. destruct s as [|c s]; [reflexivity|].
    change (c :: replace_loop n quoted_re fix_quoted s)
      with ([c] ++ replace_loop n quoted_re fix_quoted s).
    change (c :: s) with ([c] ++ s). now rewrite !without_breaks_app, IH.
Qed.

Lemma fix_quoted_fixed : forall fuel s,
  ~ In 10%N s -> ~ In 13%N s -> replace_loop fuel quoted_re fix_quoted s = s.
Proof.
  induction fuel as [|n IH]; intros s H10 H13; [reflexivity|].
  destruct (m_items quoted_re None s) as [[cap rest]|] eqn:Em.
  - destruct (quoted_match _ _ _ Em) as (content & Es & ->).
    rewrite (quoted_step n s content rest Es Em).
    assert (Hc : ~ In 10%N content /\ ~ In 13%N content /\
                 ~ In 10%N rest /\ ~ In 13%N rest).
    { rewrite Es in H10, H13. split_and!; intros Hin; [apply H10|apply H13|apply H10|apply H13];
        right; apply in_or_app; [now left|now left|right; now right|right; now right]. }
    destruct Hc as (C10 & C13 & R10 & R13).
    rewrite (without_breaks_fixed content C10 C13), (IH rest R10 R13), Es.
    cbn [app]. now rewrite <- app_assoc.
  - cbn [replace_loop]. rewrite Em. destruct s as [|c s]; [reflexivity|].
    f_equal. apply IH; intros Hin; [apply H10 | apply H13]; now right.
Qed.

(** A match of the pattern of line 38 runs from a brace to a brace. *)
Lemma object_match : forall s i m,
  exec_from object_re s i = Some m -> exists mid, matched m = 123%N :: mid ++ [125%N].
Proof.
  induction s as [|c s IH]; intros i m H; [discriminate H|].
  cbn [exec_from] in H.
  destruct (m_items object_re None (c :: s)) as [[cap rest]|] eqn:Em; [|now apply IH in H].
  injection H as <-. cbn [matched]. unfold object_re in Em. cbn [m_items m_atom] in Em.
  destruct (c =? 123)%N eqn:Ec; [|discriminate]. apply N.eqb_eq in Ec. subst c.
  apply star_greedy_consumed in Em as (u & s' & Es & _ & Hk).
  destruct s' as [|y rest']; [discriminate|].
  destruct (y =? 125)%N eqn:Ey; [|discriminate]. apply N.eqb_eq in Ey. subst y.
  injection Hk as _ <-. exists u. rewrite Es. simpl length. rewrite length_app. simpl length.
  replace (S (length u + S (length rest')) - length rest')
    with (length (123%N :: u ++ [125%N])) by (simpl; rewrite length_app; simpl; lia).
  change (123%N :: u ++ 125%N :: rest') with ((123%N :: u) ++ [125%N] ++ rest').
  rewrite app_assoc. now rewrite take_app_length.
Qed.

Lemma last_index_from_end c : forall s i found,
  JsStr.last_index_from c (s ++ [c]) i found = (i + Z.of_nat (length s))%Z.
Proof.
  induction s as [|x s IH]; intros i found.
  - simpl. rewrite N.eqb_refl. lia.
  - cbn [app JsStr.last_index_from]. rewrite IH. simpl length. lia.
Qed.

(** Lines 51-55 on a text that runs from a brace to a brace: the whole
    text. *)
Lemma braces_kept mid :
  let c1 := 123%N :: mid ++ [125%N] in
  (if negb (JsStr.indexOf c1 123 =? -1)%Z && negb (JsStr.lastIndexOf c1 125 =? -1)%Z
   then JsStr.substring c1 (JsStr.indexOf c1 123) (JsStr.lastIndexOf c1 125 + 1)
   else c1) = c1.
Proof.
  cbv zeta.
  assert (E1 : JsStr.indexOf (123%N :: mid ++ [125%N]) 123 = 0%Z) by reflexivity.
  assert (E2 : JsStr.lastIndexOf (123%N :: mid ++ [125%N]) 125
               = Z.of_nat (S (length mid))).
  { unfold JsStr.lastIndexOf. change (123%N :: mid ++ [125%N]) with ((123%N :: mid) ++ [125%N]).
    rewrite last_index_from_end. simpl length. lia. }
  rewrite E1, E2.
  destruct (negb (0 =? -1)%Z && negb (Z.of_nat (S (length mid)) =? -1)%Z); [|reflexivity].
  unfold JsStr.substring.
  assert (El : Z.of_nat (length (123%N :: mid ++ [125%N])) = (Z.of_nat (S (length mid)) + 1)%Z).
  { simpl length. rewrite length_app. simpl length. lia. }
  rewrite El.
  replace (Z.min (Z.max 0 0) (Z.of_nat (S (length mid)) + 1)) with 0%Z by lia.
  replace (Z.min (Z.max (Z.of_nat (S (length mid)) + 1) 0) (Z.of_nat (S (length mid)) + 1))
    with (Z.of_nat (S (length mid)) + 1)%Z by lia.
  replace (Z.min 0 (Z.of_nat (S (length mid)) + 1)) with 0%Z by lia.
  replace (Z.max 0 (Z.of_nat (S (length mid)) + 1)) with (Z.of_nat (S (length mid)) + 1)%Z by lia.
  change (Z.to_nat 0) with 0. cbn [drop].
  apply take_ge. simpl length. rewrite length_app. simpl length. lia.
Qed.

(** When the cleaned text has an opening brace and a closing brace after
    it, the second attempt parses the text of the first with nothing but
    line breaks changed: inside quoted spans line feeds are spaces and
    carriage returns are gone.  The text of a first attempt without a
    line break is parsed again as it is, and fails as it did. *)
Theorem second_attempt_changes_breaks_only (raw : jsstring) :
  is_Some (exec object_re (strip_fences raw)) ->
  without_breaks (cleaned2 raw) = without_breaks (cleaned1 raw) /\
  (~ In 10%N (cleaned1 raw) -> ~ In 13%N (cleaned1 raw) ->
     cleaned2 raw = cleaned1 raw /\
     forall e, JSON.parse (cleaned1 raw) = inl e -> JSON.parse (cleaned2 raw) = inl e).
Proof.
  intros [m Hm].
  assert (Hc : exists mid, cleaned1 raw = 123%N :: mid ++ [125%N]).
  { unfold cleaned1. rewrite Hm. exact (object_match _ _ _ Hm). }
  destruct Hc as (mid & Ec).
  assert (E2 : cleaned2 raw = replace_all quoted_re fix_quoted (cleaned1 raw)).
  { unfold cleaned2. rewrite Ec. now rewrite (braces_kept mid). }
  split.
  - rewrite E2. apply fix_quoted_breaks.
  - intros H10 H13.
    assert (E : cleaned2 raw = cleaned1 raw)
      by (rewrite E2; now apply fix_quoted_fixed).
    split; [exact E|]. intros e. now rewrite E.
Qed.

Lemma second_attempt_changes_breaks_only_witness :
  without_breaks (cleaned2 broken_line) = without_breaks (cleaned1 broken_line).
Proof.
  apply second_attempt_changes_breaks_only. vm_compute. eexists. reflexivity.
Defined.

Local Open Scope Z_scope.

(* ---------- the schedule ---------- *)

Lemma categories_distinct i j :
  (i < 7)%nat -> (j < 7)%nat ->
  nth_error CATEGORIES i = nth_error CATEGORIES j -> i = j.
Proof.
  intros Hi Hj H.
  do 7 (destruct i as [|i]; [do 7 (destruct j as [|j];
        [first [reflexivity | vm_compute in H; discriminate H]|]); lia|]).
  lia.
Qed.

Lemma difficulties_distinct i j :
  (i < 3)%nat -> (j < 3)%nat ->
  nth_error DIFFICULTIES i = nth_error DIFFICULTIES j -> i = j.
Proof.
  intros Hi Hj H.
  do 3 (destruct i as [|i]; [do 3 (destruct j as [|j];
        [first [reflexivity | vm_compute in H; discriminate H]|]); lia|]).
  lia.
Qed.

Lemma meta_of_day now offsetDays :
  0 <= getDayNumber now + offsetDays ->
  cat (getTodayMeta now offsetDays)
    = nth_error CATEGORIES (Z.to_nat ((getDayNumber now + offsetDays) mod 7)) /\
  diff (getTodayMeta now offsetDays)
    = nth_error DIFFICULTIES (Z.to_nat (((getDayNumber now + offsetDays) / 7) mod 3)).
Proof.
  intros Hd. unfold getTodayMeta. cbn [cat diff].
  change (Z.of_nat (length CATEGORIES)) with 7.
  change (Z.of_nat (length DIFFICULTIES)) with 3.
  set (d := getDayNumber now + offsetDays) in *.
  assert (Hq : 0 <= d / 7) by (apply Z.div_pos; lia).
  rewrite !Z.rem_mod_nonneg by lia.
  assert (H7 : 0 <= d mod 7 < 7) by (apply Z.mod_pos_bound; lia).
  assert (H3 : 0 <= (d / 7) mod 3 < 3) by (apply Z.mod_pos_bound; lia).
  unfold at_index.
  replace (d mod 7 <? 0) with false by (symmetry; apply Z.ltb_ge; lia).
  replace ((d / 7) mod 3 <? 0) with false by (symmetry; apply Z.ltb_ge; lia).
  split; reflexivity.
Qed.

(** From day index 0 on the schedule has period 21: two days have the same
    category and the same difficulty exactly when their indexes differ by a
    multiple of 21, so that each of the 21 pairs comes once in any 21 days
    in a row.  And the day shown one step ahead is the day of the next
    date. *)
Theorem schedule_period (now o1 o2 : Z) :
  0 <= getDayNumber now + o1 -> 0 <= getDayNumber now + o2 ->
  (cat (getTodayMeta now o1) = cat (getTodayMeta now o2) /\
   diff (getTodayMeta now o1) = diff (getTodayMeta now o2)
   <-> (o1 - o2) mod 21 = 0) /\
  getTodayMeta (now + 86400000) o1 = getTodayMeta now (o1 + 1).
Proof.
  intros H1 H2. split.
  - destruct (meta_of_day now o1 H1) as [C1 D1].
    destruct (meta_of_day now o2 H2) as [C2 D2].
    rewrite C1, C2, D1, D2.
    set (d1 := getDayNumber now + o1) in *. set (d2 := getDayNumber now + o2) in *.
    assert (E : o1 - o2 = d1 - d2) by (unfold d1, d2; lia). rewrite E.
    assert (A1 : 0 <= d1 mod 7 < 7) by (apply Z.mod_pos_bound; lia).
    assert (A2 : 0 <= d2 mod 7 < 7) by (apply Z.mod_pos_bound; lia).
    assert (B1 : 0 <= (d1 / 7) mod 3 < 3) by (apply Z.mod_pos_bound; lia).
    assert (B2 : 0 <= (d2 / 7) mod 3 < 3) by (apply Z.mod_pos_bound; lia).
    split.
    + intros [Hc Hd].
      apply categories_distinct in Hc; [|lia..].
      apply difficulties_distinct in Hd; [|lia..].
      assert (d1 mod 7 = d2 mod 7) by lia.
      assert ((d1 / 7) mod 3 = (d2 / 7) mod 3) by lia.
      div_lia.
    + intros Hm.
      assert (d1 mod 7 = d2 mod 7 /\ (d1 / 7) mod 3 = (d2 / 7) mod 3) as [-> ->]
        by div_lia.
      auto.
  - unfold getTodayMeta.
    assert (E : getDayNumber (now + 86400000) + o1 = getDayNumber now + (o1 + 1))
      by (unfold getDayNumber; div_lia).
    now rewrite E.
Qed.

(* ---------- a call that does not find the cache ---------- *)

Section Generation.
Variable JSON_stringify : value -> jsstring.
Variable service : nat -> jsstring -> jsstring -> outcome.
Variables (now offset : Z) (key : jsstring).

Local Abbreviation m := (getTodayMeta now offset).
Local Abbreviation dateKey := (dateKey_of now offset).
Local Abbreviation attempt := (generate service now m dateKey key).
Local Abbreviation obtain := (loadOrGenerateChallenge JSON_stringify service now offset key).
Local Abbreviation save := (saveChallenge JSON_stringify dateKey).
Local Abbreviation cached w := (loadChallenge (localStorage w) dateKey).

Lemma obtain_hit w :
  Js.truthy (cached w) = true -> obtain w = setChallenge (with_meta (cached w) m) w.
Proof. intros H. unfold loadOrGenerateChallenge. cbv zeta. now rewrite H. Qed.

(** What a call leaves when the cache gave nothing: a record written and
    exposed with the flag [generating] up, or an error with nothing
    written. *)
Lemma obtain_generates w :
  Js.truthy (cached w) = false ->
  (exists x full,
     obtain w = setChallenge full (save full x) /\
     localStorage x = localStorage w /\ setItems x = setItems w /\
     generating x = true /\ genError x = [] /\
     (requests w <= requests x <= requests w + 3)%nat /\
     (sleeps w <= sleeps x <= sleeps w + 2)%nat /\
     (exists o, full = VObj o) /\
     Forall (fun f => Js.truthy (Js.get full f) = true) required_fields) \/
  (exists x e,
     obtain w = setGenerating false (setGenError (failed_message e) x) /\
     localStorage x = localStorage w /\ setItems x = setItems w /\
     (requests w <= requests x <= requests w + 3)%nat /\
     (sleeps w <= sleeps x <= sleeps w + 2)%nat).
Proof.
  intros H.
  assert (E : obtain w =
    let '(returned, w2) :=
      retry JSON_stringify service 3 1 now m dateKey key (loop_start w) in
    if returned then w2 else setGenerating false w2)
    by (unfold loadOrGenerateChallenge; cbv zeta; now rewrite H).
  rewrite E, retry_unrolled. clear E.
  assert (F : forall u, localStorage u = localStorage w -> setItems u = setItems w ->
                generating u = true -> genError u = [] ->
                localStorage (snd (attempt u)) = localStorage w /\
                setItems (snd (attempt u)) = setItems w /\
                generating (snd (attempt u)) = true /\
                genError (snd (attempt u)) = [] /\
                sleeps (snd (attempt u)) = sleeps u /\
                (requests u <= requests (snd (attempt u)) <= S (requests u))%nat).
  { intros u U1 U2 U3 U4.
    destruct (attempt_frame service now m dateKey key u)
      as [(F1 & F2 & F3 & F4 & F5 & F6) F7].
    split_and!; try congruence; lia. }
  assert (G : forall u full, fst (attempt u) = ret full ->
                (exists o, full = VObj o) /\
                Forall (fun f => Js.truthy (Js.get full f) = true) required_fields).
  { intros u full Hu.
    destruct (attempt_success _ _ _ _ _ _ _ Hu) as (o & lbl & -> & Hf).
    split; [unfold full_challenge; eauto | now apply full_challenge_fields]. }
  destruct (F (loop_start w)) as (A1 & A2 & A3 & A4 & A5 & A6); try reflexivity.
  pose proof (G (loop_start w)) as G1.
  destruct (attempt (loop_start w)) as [[e1|f1] x1]; cbn [fst snd] in *.
  2:{ left. exists x1, f1. destruct (G1 f1 eq_refl) as [Go Gf].
      unfold loop_start, setChallenge, setGenError, setGenerating in *.
      cbn [requests sleeps] in *. split_and!; auto; lia. }
  destruct (F (sleep x1)) as (B1 & B2 & B3 & B4 & B5 & B6); try assumption.
  pose proof (G (sleep x1)) as G2.
  destruct (attempt (sleep x1)) as [[e2|f2] x2]; cbn [fst snd] in *.
  2:{ left. exists x2, f2. destruct (G2 f2 eq_refl) as [Go Gf].
      unfold loop_start, setChallenge, setGenError, setGenerating, sleep in *.
      cbn [requests sleeps] in *. split_and!; auto; lia. }
  destruct (F (sleep x2)) as (C1 & C2 & C3 & C4 & C5 & C6); try assumption.
  pose proof (G (sleep x2)) as G3.
  destruct (attempt (sleep x2)) as [[e3|f3] x3]; cbn [fst snd] in *.
  - right. exists x3, e3.
    unfold loop_start, setChallenge, setGenError, setGenerating, sleep in *.
    cbn [requests sleeps] in *. split_and!; auto; lia.
  - left. exists x3, f3. destruct (G3 f3 eq_refl) as [Go Gf].
    unfold loop_start, setChallenge, setGenError, setGenerating, sleep in *.
    cbn [requests sleeps] in *. split_and!; auto; lia.
Qed.

Lemma failed_message_nonempty e : failed_message e <> [].
Proof. discriminate. Qed.

Lemma challenge_shown_hidden w :
  Js.truthy (cached w) = false ->
  hidden (obtain w) /\ challenge_shown (obtain w) = false.
Proof.
  intros H.
  destruct (obtain_generates w H)
    as [(x & full & -> & _ & _ & Hg & _) | (x & e & -> & _)].
  - unfold hidden, challenge_shown, setChallenge, saveChallenge, setItem.
    cbn [generating genError challenge]. rewrite Hg.
    split; [now left | now rewrite andb_false_r].
  - unfold hidden, challenge_shown, setGenerating, setGenError.
    cbn [generating genError challenge].
    pose proof (failed_message_nonempty e) as Hne.
    split; [now right|]. apply jsstr_eqb_neq in Hne. rewrite Hne.
    apply andb_false_r.
Qed.

(** After a call the challenge is on the screen exactly when it came from
    the cache and neither the spinner nor an error was up before: a
    challenge that was just generated is exposed with the spinner still
    on. *)
Theorem challenge_shown_after (w : world) :
  (Js.truthy (loadChallenge (localStorage w) (dateKey_of now offset)) = false ->
     hidden (obtain w) /\ challenge_shown (obtain w) = false) /\
  (Js.truthy (loadChallenge (localStorage w) (dateKey_of now offset)) = true ->
     challenge_shown (obtain w) = negb (generating w) && JsStr.eqb (genError w) [] /\
     generating (obtain w) = generating w /\ genError (obtain w) = genError w).
Proof.
  split; intros H.
  - now apply challenge_shown_hidden.
  - rewrite (obtain_hit w H). unfold challenge_shown, setChallenge.
    cbn [generating genError challenge]. now split.
Qed.

End Generation.

(* ---------- the difficulty in the prompt of the thread ---------- *)

Section ThreadPrompt.
Variable ToString : value -> jsstring.


End ThreadPrompt.

(* ---------- the component over a run of events ---------- *)

Section Runs.
Variable JSON_stringify : value -> jsstring.
Variable ToString : value -> jsstring.
Variable service : nat -> jsstring -> jsstring -> outcome.

Lemma touched_refl ks r s i w : touched ks r s i w w.
Proof. unfold touched. split_and!; auto; lia. Qed.

Lemma handleSaveKey_cases g w :
  let g' := fst (handleSaveKey service g w) in
  let w' := snd (handleSaveKey service g w) in
  generating w' = generating w /\ genError w' = genError w /\
  challenge w' = challenge w /\
  touched (fun k => k = od_gemini_key) 1 0 1 w w' /\
  (apiKey g' = apiKey g /\ localStorage w' = localStorage w \/
   apiKey g' = JsStr.trim (apiKeyInput g) /\
   JsStr.starts_with (JsStr.lit "AI") (JsStr.trim (apiKeyInput g)) = true /\
   localStorage w' = <[od_gemini_key := JsStr.trim (apiKeyInput g)]> (localStorage w)).
Proof.
  cbv zeta. unfold handleSaveKey.
  destruct (JsStr.starts_with (JsStr.lit "AI") (JsStr.trim (apiKeyInput g))) eqn:Ep;
    cbn [negb fst snd].
  2:{ split_and!; auto using touched_refl. }
  unfold callGemini.
  destruct (service _ _ _) as [msg|data]; unfold throw; cbn [fst snd].
  { unfold sent, touched. cbn [generating genError challenge localStorage requests
                               sleeps setItems apiKey].
    split_and!; auto; lia. }
  destruct (completion_text data) as [e|t]; cbn [fst snd].
  - unfold sent, touched. cbn [generating genError challenge localStorage requests
                               sleeps setItems apiKey].
    split_and!; auto; lia.
  - unfold saveApiKey, setItem, sent, touched.
    cbn [generating genError challenge localStorage requests sleeps setItems apiKey].
    split_and!; auto; try lia.
    intros k Hk. now rewrite lookup_insert_ne by congruence.
Qed.

Lemma getFeedback_cases key d w :
  let w' := snd (getFeedback ToString service key d w) in
  generating w' = generating w /\ genError w' = genError w /\
  challenge w' = challenge w /\ touched (fun _ => False) 1 0 0 w w'.
Proof.
  cbv zeta. unfold getFeedback.
  destruct (nothing_to_send d w); [cbn [snd]; auto using touched_refl|].
  destruct (buildFeedbackPrompt ToString (challenge w) (analysis d) (conclusion d))
    as [e|prompt].
  { cbn [snd]. auto using touched_refl. }
  pose proof (callGemini_sent service key prompt w) as Es.
  destruct (callGemini service key prompt w) as [r w1]. cbn [snd] in Es. subst w1.
  destruct r; cbn [snd]; unfold sent, touched;
    cbn [generating genError challenge localStorage requests sleeps setItems];
    split_and!; auto; lia.
Qed.

Lemma thread_text_cases key d w :
  snd (thread_text ToString service key d w) = w \/
  snd (thread_text ToString service key d w) = sent w.
Proof.
  unfold thread_text.
  destruct (bind _ _) as [e|prompt]; [now left|].
  pose proof (callGemini_sent service key prompt w) as Es.
  destruct (callGemini service key prompt w) as [r w1]. now right.
Qed.

Lemma generateThread_cases key now d w :
  let w' := snd (generateThread JSON_stringify ToString service key now d w) in
  generating w' = generating w /\ genError w' = genError w /\
  challenge w' = challenge w /\ touched ledger_keys 1 0 3 w w'.
Proof.
  cbv zeta. unfold generateThread.
  destruct (nothing_to_send d w); [cbn [snd]; auto using touched_refl|].
  pose proof (thread_text_cases key d w) as Hs.
  destruct (thread_text ToString service key d w) as [r w1]. cbn [snd] in Hs.
  assert (Hw1 : generating w1 = generating w /\ genError w1 = genError w /\
                challenge w1 = challenge w /\ localStorage w1 = localStorage w /\
                (requests w <= requests w1 <= requests w + 1)%nat /\
                sleeps w1 = sleeps w /\ setItems w1 = setItems w).
  { destruct Hs as [->| ->]; unfold sent;
      cbn [generating genError challenge localStorage requests sleeps setItems];
      split_and!; auto; lia. }
  destruct Hw1 as (W1 & W2 & W3 & W4 & W5 & W6 & W7).
  destruct r as [e|raw].
  { cbn [snd]. unfold touched. rewrite W4, W6, W7. split_and!; auto; lia. }
  pose proof (bumpStreak_frame now (localStorage w1)) as B.
  destruct (bumpStreak now (localStorage w1)) as [st1 newStreak]. cbn [fst] in B.
  cbn [snd]. unfold stored, touched.
  cbn [generating genError challenge localStorage requests sleeps setItems].
  split_and!; auto; try lia.
  - intros k Hk. unfold ledger_keys in Hk.
    rewrite pushHistory_frame by tauto. rewrite B by tauto. now rewrite W4.
  - destruct (history_written _ _); lia.
Qed.

Lemma obtain_cases now offset key w :
  let w' := loadOrGenerateChallenge JSON_stringify service now offset key w in
  touched (fun k => k = challenge_key (dateKey_of now offset)) 3 2 1 w w' /\
  (hidden w -> hidden w') /\
  (localStorage w' = localStorage w \/
   exists full,
     localStorage w'
       = <[challenge_key (dateKey_of now offset) := JSON_stringify full]>
           (localStorage w) /\
     (exists o, full = VObj o) /\
     Forall (fun f => Js.truthy (Js.get full f) = true) required_fields).
Proof.
  cbv zeta.
  destruct (Js.truthy (loadChallenge (localStorage w) (dateKey_of now offset))) eqn:H.
  - rewrite (obtain_hit _ _ _ _ _ _ H). unfold setChallenge, touched, hidden.
    cbn [localStorage requests sleeps setItems generating genError].
    split_and!; auto; lia.
  - destruct (challenge_shown_hidden JSON_stringify service now offset key w H) as [Hh _].
    destruct (obtain_generates JSON_stringify service now offset key w H)
      as [(x & full & E & X1 & X2 & _ & _ & X3 & X4 & Ho & Hf)
         | (x & e & E & X1 & X2 & X3 & X4)].
    + split_and!; [|auto|].
      * rewrite E. unfold setChallenge, saveChallenge, setItem, touched.
        cbn [localStorage requests sleeps setItems]. split_and!; try lia.
        intros k Hk. rewrite lookup_insert_ne by congruence. now rewrite X1.
      * right. exists full. rewrite E.
        unfold setChallenge, saveChallenge, setItem. cbn [localStorage].
        now rewrite X1.
    + split_and!; [|auto|].
      * rewrite E. unfold setGenerating, setGenError, touched.
        cbn [localStorage requests sleeps setItems]. rewrite X1.
        split_and!; auto; lia.
      * left. rewrite E. unfold setGenerating, setGenError. cbn [localStorage].
        exact X1.
Qed.

End Runs.

Section Invariants.
Variable JSON_stringify : value -> jsstring.
Variable ToString : value -> jsstring.
Variable service : nat -> jsstring -> jsstring -> outcome.

Local Abbreviation step1 := (step JSON_stringify ToString service).
Local Abbreviation run := (run JSON_stringify ToString service).

(** What one event may do. *)
Lemma step_footprint now e a :
  let w := store a in
  let w' := store (step1 now e a) in
  (hidden w -> hidden w') /\
  ((requests w <= requests w' <= requests w + 3)%nat /\
   (sleeps w <= sleeps w' <= sleeps w + 2)%nat /\
   (setItems w <= setItems w' <= setItems w + 3)%nat) /\
  (forall d,
     localStorage w' !! challenge_key d = localStorage w !! challenge_key d \/
     exists full, localStorage w' !! challenge_key d = Some (JSON_stringify full) /\
                  validated full) /\
  (apiKey (keys (step1 now e a)) = apiKey (keys a) /\
   localStorage w' !! od_gemini_key = localStorage w !! od_gemini_key \/
   localStorage w' !! od_gemini_key = Some (apiKey (keys (step1 now e a))) /\
   (apiKey (keys (step1 now e a)) = [] \/ well_formed_key (apiKey (keys (step1 now e a))))).
Proof.
  cbv zeta.
  assert (Same : forall g d' w', w' = store a -> g = keys a ->
    let a' := {| keys := g; work := d'; store := w' |} in
    (hidden (store a) -> hidden (store a')) /\
    ((requests (store a) <= requests (store a') <= requests (store a) + 3)%nat /\
     (sleeps (store a) <= sleeps (store a') <= sleeps (store a) + 2)%nat /\
     (setItems (store a) <= setItems (store a') <= setItems (store a) + 3)%nat) /\
    (forall d,
       localStorage (store a') !! challenge_key d
         = localStorage (store a) !! challenge_key d \/
       exists full,
         localStorage (store a') !! challenge_key d = Some (JSON_stringify full) /\
         validated full) /\
    (apiKey (keys a') = apiKey (keys a) /\
     localStorage (store a') !! od_gemini_key
       = localStorage (store a) !! od_gemini_key \/
     localStorage (store a') !! od_gemini_key = Some (apiKey (keys a')) /\
     (apiKey (keys a') = [] \/ well_formed_key (apiKey (keys a'))))).
  { intros g d' w' -> ->. cbn [store keys]. split_and!; auto; lia. }
  assert (Frame : forall (ks : jsstring -> Prop) r s i g d' w',
    g = keys a ->
    generating w' = generating (store a) -> genError w' = genError (store a) ->
    touched ks r s i (store a) w' ->
    (r <= 3)%nat -> (s <= 2)%nat -> (i <= 3)%nat ->
    (forall d, ~ ks (challenge_key d)) -> ~ ks od_gemini_key ->
    let a' := {| keys := g; work := d'; store := w' |} in
    (hidden (store a) -> hidden (store a')) /\
    ((requests (store a) <= requests (store a') <= requests (store a) + 3)%nat /\
     (sleeps (store a) <= sleeps (store a') <= sleeps (store a) + 2)%nat /\
     (setItems (store a) <= setItems (store a') <= setItems (store a) + 3)%nat) /\
    (forall d,
       localStorage (store a') !! challenge_key d
         = localStorage (store a) !! challenge_key d \/
       exists full,
         localStorage (store a') !! challenge_key d = Some (JSON_stringify full) /\
         validated full) /\
    (apiKey (keys a') = apiKey (keys a) /\
     localStorage (store a') !! od_gemini_key
       = localStorage (store a) !! od_gemini_key \/
     localStorage (store a') !! od_gemini_key = Some (apiKey (keys a')) /\
     (apiKey (keys a') = [] \/ well_formed_key (apiKey (keys a'))))).
  { intros ks r s i g d' w' -> Hg He (T1 & T2 & T3 & T4) Hr Hs Hi Hc Hk.
    cbn [store keys]. split_and!; try lia.
    - unfold hidden. now rewrite Hg, He.
    - intros d. left. apply T1, Hc.
    - left. split; [reflexivity | apply T1, Hk]. }
  destruct e as [s| | | |dir|s|s|p| | |]; unfold step.
  - (* TypeKey *)
    cbn [store keys apiKey]. split_and!; auto; lia.
  - (* SaveKey *)
    destruct (handleSaveKey_cases service (keys a) (store a))
      as (Hg & He & _ & (T1 & T2 & T3 & T4) & Hk).
    destruct (handleSaveKey service (keys a) (store a)) as [g' w'].
    cbn [fst snd] in *. cbn [store keys]. split_and!; try lia.
    + unfold hidden. now rewrite Hg, He.
    + intros d. left. apply T1. destruct (challenge_key_other d) as (C & _). exact C.
    + destruct Hk as [[K1 K2]|(K1 & K2 & K3)].
      * left. now rewrite K1, K2.
      * right. rewrite K3, K1, lookup_insert_eq. split; [reflexivity|].
        right. split; [exact K2 | apply trim_with_fixed].
  - (* ChangeKey *)
    unfold changeKey, saveApiKey, setItem. cbn [store keys apiKey localStorage].
    split_and!; try (cbn [requests sleeps setItems]; lia).
    + unfold hidden. cbn [generating genError]. auto.
    + intros d. left. destruct (challenge_key_other d) as (C & _).
      now rewrite lookup_insert_ne by (apply not_eq_sym, C).
    + right. rewrite lookup_insert_eq. auto.
  - (* Load *)
    destruct (JsStr.eqb (apiKey (keys a)) []).
    { apply (Same (keys a) (work a) (store a)); reflexivity. }
    destruct (obtain_cases JSON_stringify service now (offsetDays (work a))
                (apiKey (keys a)) (store a)) as ((T1 & T2 & T3 & T4) & Hh & Hs).
    cbn [store keys]. split_and!; try lia; [exact Hh | |].
    + intros d. destruct Hs as [Hs|(full & Hs & Hv)]; [left; now rewrite Hs|].
      rewrite Hs.
      destruct (decide (challenge_key (dateKey_of now (offsetDays (work a)))
                        = challenge_key d)) as [E|E].
      * right. exists full. rewrite E, lookup_insert_eq. split; [reflexivity | exact Hv].
      * left. now rewrite lookup_insert_ne.
    + left. split; [reflexivity|]. apply T1.
      intros E. destruct (challenge_key_other (dateKey_of now (offsetDays (work a))))
        as (C & _). congruence.
  - (* ChangeDay *) apply (Same (keys a) _ (store a)); reflexivity.
  - (* TypeAnalysis *) apply (Same (keys a) _ (store a)); reflexivity.
  - (* TypeConclusion *) apply (Same (keys a) _ (store a)); reflexivity.
  - (* SetPhase *) apply (Same (keys a) _ (store a)); reflexivity.
  - (* ToggleHints *) apply (Same (keys a) _ (store a)); reflexivity.
  - (* GetFeedback *)
    destruct (getFeedback_cases ToString service (apiKey (keys a)) (work a) (store a))
      as (Hg & He & _ & T).
    destruct (getFeedback ToString service (apiKey (keys a)) (work a) (store a))
      as [d' w']. cbn [snd] in *.
    apply (Frame (fun _ => False) 1 0 0)%nat; auto; lia.
  - (* GenerateThread *)
    destruct (generateThread_cases JSON_stringify ToString service (apiKey (keys a))
                now (work a) (store a)) as (Hg & He & _ & T).
    destruct (generateThread JSON_stringify ToString service (apiKey (keys a)) now
                (work a) (store a)) as [d' w']. cbn [snd] in *.
    apply (Frame ledger_keys 1 0 3)%nat; auto; try lia.
    + intros d [E|[E|E]]; destruct (challenge_key_other d) as (_ & C1 & C2 & C3);
        congruence.
    + intros [E|[E|E]]; destruct gemini_key_other as (G1 & G2 & G3); congruence.
Qed.

Lemma run_nil a : run [] a = a.
Proof. reflexivity. Qed.

Lemma run_cons now e events a :
  run ((now, e) :: events) a = run events (step1 now e a).
Proof. reflexivity. Qed.

(** Once the spinner is on or an error is up, no run of events brings a
    challenge to the screen: the flag [generating] is lowered only by a
    failed generation, which raises the error, and the error is cleared
    only by a generation, which raises the flag. *)
Theorem hidden_stays (events : list (Z * event)) (a : component) :
  hidden (store a) ->
  hidden (store (run events a)) /\ challenge_shown (store (run events a)) = false.
Proof.
  revert a. induction events as [|[now e] events IH]; intros a H.
  - rewrite run_nil. split; [exact H|]. unfold challenge_shown.
    destruct H as [-> | H]; [now rewrite andb_false_r|].
    apply jsstr_eqb_neq in H. rewrite H. apply andb_false_r.
  - rewrite run_cons. apply IH.
    destruct (step_footprint now e a) as (Hh & _). now apply Hh.
Qed.

(** From the loading of the page on, the key in use is the key stored, and
    it is the key found at loading, the empty key, or a trimmed key that
    starts with AI. *)
Theorem key_in_use_is_key_stored (st : storage) (events : list (Z * event)) :
  let a := run events (boot st) in
  apiKey (keys a) = loadApiKey (localStorage (store a)) /\
  (apiKey (keys a) = loadApiKey st \/ apiKey (keys a) = [] \/
   well_formed_key (apiKey (keys a))).
Proof.
  cbv zeta.
  assert (G : forall events a,
    apiKey (keys a) = loadApiKey (localStorage (store a)) ->
    (apiKey (keys a) = loadApiKey st \/ apiKey (keys a) = [] \/
     well_formed_key (apiKey (keys a))) ->
    apiKey (keys (run events a)) = loadApiKey (localStorage (store (run events a))) /\
    (apiKey (keys (run events a)) = loadApiKey st \/ apiKey (keys (run events a)) = [] \/
     well_formed_key (apiKey (keys (run events a))))).
  { clear events. induction events as [|[now e] events IH]; intros a H1 H2; [auto|].
    rewrite run_cons.
    destruct (step_footprint now e a) as (_ & _ & _ & [[K1 K2]|[K1 K2]]).
    - apply IH.
      + rewrite K1, H1. unfold loadApiKey, getItem_or. now rewrite K2.
      + now rewrite K1.
    - apply IH.
      + unfold loadApiKey, getItem_or. rewrite K1.
        destruct (JsStr.eqb (apiKey (keys (step1 now e a))) []) eqn:E; [|reflexivity].
        now apply jsstr_eqb_eq in E.
      + tauto. }
  apply G; [reflexivity | now left].
Qed.

(** Every cached challenge found after a run of events was there when the
    page was loaded, or is the text of a record with its six fields. *)
Theorem cached_challenges_validated (st : storage) (events : list (Z * event))
  (d raw : jsstring) :
  localStorage (store (run events (boot st))) !! challenge_key d = Some raw ->
  st !! challenge_key d = Some raw \/
  exists full, raw = JSON_stringify full /\ validated full.
Proof.
  assert (G : forall events a,
    (forall d raw, localStorage (store a) !! challenge_key d = Some raw ->
       st !! challenge_key d = Some raw \/
       exists full, raw = JSON_stringify full /\ validated full) ->
    forall d raw, localStorage (store (run events a)) !! challenge_key d = Some raw ->
       st !! challenge_key d = Some raw \/
       exists full, raw = JSON_stringify full /\ validated full).
  { clear. induction events as [|[now e] events IH]; intros a H; [exact H|].
    rewrite run_cons. apply IH. intros d raw Hl.
    destruct (step_footprint now e a) as (_ & _ & Hc & _).
    destruct (Hc d) as [E|(full & E & Hv)].
    - rewrite E in Hl. now apply H.
    - rewrite E in Hl. injection Hl as <-. right. eauto. }
  apply G. intros d' raw' H. now left.
Qed.

(** A run of [n] events sends at most [3 * n] requests, waits at most
    [2 * n] times and calls [setItem] at most [3 * n] times. *)
Theorem run_budget (events : list (Z * event)) (a : component) :
  (requests (store (run events a)) <= requests (store a) + 3 * length events)%nat /\
  (sleeps (store (run events a)) <= sleeps (store a) + 2 * length events)%nat /\
  (setItems (store (run events a)) <= setItems (store a) + 3 * length events)%nat.
Proof.
  revert a. induction events as [|[now e] events IH]; intros a; [simpl; lia|].
  rewrite run_cons. destruct (IH (step1 now e a)) as (I1 & I2 & I3).
  destruct (step_footprint now e a) as (_ & (B1 & B2 & B3) & _).
  simpl length. lia.
Qed.

End Invariants.

(* ---------- the properties above at the sample inputs ---------- *)

Lemma next_day_in_range : clock_in_range next_day.
Proof. unfold clock_in_range. vm_compute. split; [discriminate | reflexivity]. Defined.

(** A streak of four is five after a completion on 2026-11-03, and six
    after one on 2026-11-04. *)
Lemma second_completion_witness :
  snd (bumpStreak next_day (fst (bumpStreak a_clock streak_store))) = Some 6.
Proof.
  destruct (second_completion streak_store a_clock next_day a_clock_in_range
              next_day_in_range streak_store_safe) as (_ & Hnext & _).
  rewrite Hnext; vm_compute; reflexivity.
Defined.

Lemma loadStreak_bumpStreak_witness :
  count (loadStreak (fst (bumpStreak a_clock streak_store))) = Some 5.
Proof.
  destruct (loadStreak_bumpStreak a_clock streak_store streak_store_safe) as (E & _).
  rewrite E. vm_compute. reflexivity.
Defined.

(** Two completions on 2026-11-03, one on each of the two days after. *)
Lemma streak_of_run_witness :
  loadStreak (completions [a_clock; a_clock + 3600000; next_day; next_day + 86400000] ∅)
  = {| count := Some 3; last := JsStr.lit "2026-11-05" |}.
Proof.
  rewrite (streak_of_run ∅ a_clock [a_clock + 3600000; next_day; next_day + 86400000]).
  - vm_compute. reflexivity.
  - repeat constructor; vm_compute; discriminate.
  - vm_compute. repeat split; auto.
  - vm_compute. discriminate.
  - vm_compute. discriminate.
Defined.

Lemma prompt_of_the_day_witness :
  exists prompt,
    buildChallengePrompt a_clock (cat (getTodayMeta a_clock 0))
      (diff (getTodayMeta a_clock 0)) (day (getTodayMeta a_clock 0)) = ret prompt.
Proof.
  assert (H : 0 <= getDayNumber a_clock + 0) by (vm_compute; discriminate).
  destruct (prompt_of_the_day a_clock 0 H) as (c & d & angles & prompt & _ & _ & _ & _ & E & _).
  exists prompt. exact E.
Defined.

(** The day before the first day has no category: no request is sent. *)
Lemma generation_without_category_witness :
  let w' := loadOrGenerateChallenge JSON.stringify steady a_clock
              (- getDayNumber a_clock - 1) api_key (fresh_world ∅) in
  requests w' = 0%nat /\ sleeps w' = 2%nat /\ generating w' = false.
Proof.
  cbv zeta.
  rewrite (generation_without_category JSON.stringify steady a_clock
             (- getDayNumber a_clock - 1) api_key (fresh_world ∅)).
  - repeat split.
  - vm_compute. reflexivity.
  - vm_compute. discriminate.
  - vm_compute. reflexivity.
Defined.

(** A challenge generated in the morning is found, unchanged, an hour later
    by a call that could not reach the service. *)
Lemma second_call_changes_nothing_witness :
  let w1 := loadOrGenerateChallenge JSON.stringify steady a_clock 0 api_key
              (fresh_world ∅) in
  loadOrGenerateChallenge JSON.stringify offline (a_clock + 3600000) 0 [] w1 = w1.
Proof.
  cbv zeta.
  apply (second_call_changes_nothing JSON.stringify steady a_clock 0 api_key
           (fresh_world ∅) offline (a_clock + 3600000) []).
  - reflexivity.
  - vm_compute. reflexivity.
  - vm_compute. reflexivity.
  - vm_compute. reflexivity.
Defined.

Lemma loadHistory_pushHistory_witness :
  loadHistory (pushHistory JSON.stringify todays_entry history_store)
  = VArr (todays_entry :: two_days).
Proof.
  assert (H1 : loadHistory history_store = VArr two_days) by (vm_compute; reflexivity).
  assert (H2 : Forall (fun h => Js.nullish h = false) two_days)
    by (repeat constructor).
  assert (H3 : Js.nullish todays_entry = false) by reflexivity.
  assert (H4 : JSON.parse (JSON.stringify (VArr (completed two_days todays_entry)))
               = inr (VArr (completed two_days todays_entry)))
    by (vm_compute; reflexivity).
  destruct (loadHistory_pushHistory JSON.stringify history_store todays_entry two_days
              H1 H2 H3 H4) as (E & _).
  rewrite E. vm_compute. reflexivity.
Defined.

Lemma wrapped_object_witness :
  parseGeminiJSON (fence_open ++ good_completion ++ fence_close) = ret (VObj good_fields).
Proof.
  apply wrapped_object.
  - vm_compute. reflexivity.
  - vm_compute. reflexivity.
  - intros H. apply list_elem_of_In in H. revert H.
    apply (bool_decide_unpack _). vm_compute. exact I.
  - intros H. apply list_elem_of_In in H. revert H.
    apply (bool_decide_unpack _). vm_compute. exact I.
Defined.

Lemma quoteless_completion_fails_witness : exists e, recover refusal = throw e.
Proof.
  apply quoteless_completion_fails.
  intros H. apply list_elem_of_In in H. revert H.
  apply (bool_decide_unpack _). vm_compute. exact I.
Defined.

(** The pair of 2026-11-03 comes back 21 days later. *)
Lemma schedule_period_witness :
  cat (getTodayMeta a_clock 0) = cat (getTodayMeta a_clock 21) /\
  diff (getTodayMeta a_clock 0) = diff (getTodayMeta a_clock 21).
Proof.
  assert (H1 : 0 <= getDayNumber a_clock + 0) by (vm_compute; discriminate).
  assert (H2 : 0 <= getDayNumber a_clock + 21) by (vm_compute; discriminate).
  destruct (schedule_period a_clock 0 21 H1 H2) as (Hiff & _).
  apply Hiff. reflexivity.
Defined.

(** After the first generation, neither a second call, nor a change of day
    and a call for that day, shows a challenge. *)
Lemma hidden_stays_witness :
  let a := step JSON.stringify to_text steady a_clock Load (boot keyed_store) in
  challenge_shown
    (store (run JSON.stringify to_text steady
              [(a_clock + 1000, Load); (a_clock + 2000, ChangeDay 1);
               (a_clock + 3000, Load)] a)) = false.
Proof.
  cbv zeta.
  apply (hidden_stays JSON.stringify to_text steady).
  left. vm_compute. reflexivity.
Defined.

(** The entry written by the first generation is the text of a validated
    record. *)
Lemma cached_challenges_validated_witness :
  keyed_store !! challenge_key (JsStr.lit "2026-11-03")
    = Some (JSON.stringify todays_challenge) \/
  exists full, JSON.stringify todays_challenge = JSON.stringify full /\ validated full.
Proof.
  apply (cached_challenges_validated JSON.stringify to_text steady keyed_store
           [(a_clock, Load)]).
  vm_compute. reflexivity.
Defined.


(* ---------- the retry loop as a whole ---------- *)

Ltac project_world :=
  unfold setChallenge, saveChallenge, setItem, setGenerating, setGenError;
  cbn [requests sleeps setItems localStorage challenge generating genError].

Section Bounded.
Variable JSON_stringify : value -> jsstring.
Variable service : nat -> jsstring -> jsstring -> outcome.
Variables (now offset : Z) (key : jsstring).

Local Abbreviation m := (getTodayMeta now offset).
Local Abbreviation dateKey := (dateKey_of now offset).
Local Abbreviation attempt := (generate service now m dateKey key).
Local Abbreviation obtain := (loadOrGenerateChallenge JSON_stringify service now offset key).
Local Abbreviation world_at := (attempt_world service now offset key).
Local Abbreviation failing := (fails service now offset key).
Local Abbreviation success := (succeeded JSON_stringify service now offset key).

(** When the store has no entry for the key of the day,
    [loadOrGenerateChallenge] sends at most three requests and waits at
    most twice.  If attempt [n + 1] is the first to give a record, the
    record is written once under the key of the day and exposed, and no
    request follows; the record is the validated completion of that
    attempt with the label of the category, the category, the difficulty
    and the index of the day and the key of the day attached, and from day
    index 0 on the category and the difficulty are entries of the tables.
    If the three attempts fail, the error shown carries the message of the
    third, no record is exposed and nothing is written. *)
Theorem bounded_generation (w : world) :
  localStorage w !! challenge_key dateKey = None ->
  (requests w <= requests (obtain w) <= requests w + 3)%nat /\
  (sleeps (obtain w) <= sleeps w + 2)%nat /\
  (forall n full, (n < 3)%nat ->
     (forall j, (j < n)%nat -> failing j w) ->
     fst (attempt (world_at n w)) = ret full ->
     success w (world_at n w) full (obtain w) /\
     requests (obtain w) = requests (snd (attempt (world_at n w))) /\
     (0 <= getDayNumber now + offset ->
        exists c d, In c CATEGORIES /\ In d DIFFICULTIES /\
          Js.get full (JsStr.lit "category") = VStr (label c) /\
          Js.get full (JsStr.lit "cat") = cat_value (Some c) /\
          Js.get full (JsStr.lit "diff") = VStr d)) /\
  ((forall j, (j < 3)%nat -> failing j w) ->
     exists e, fst (attempt (world_at 2 w)) = throw e /\
       genError (obtain w) = failed_message e /\
       challenge (obtain w) = VNull /\
       generating (obtain w) = false /\
       setItems (obtain w) = setItems w /\
       localStorage (obtain w) = localStorage w).
Proof.
  intros Hmiss.
  assert (Hframe : forall n,
    localStorage (snd (attempt (world_at n w))) = localStorage w /\
    setItems (snd (attempt (world_at n w))) = setItems w /\
    sleeps (snd (attempt (world_at n w))) = (sleeps w + n)%nat /\
    challenge (snd (attempt (world_at n w))) = VNull /\
    (requests w <= requests (snd (attempt (world_at n w)))
       <= requests w + S n)%nat).
  { intros n.
    destruct (attempt_world_frame service now offset key n w)
      as (H1 & H2 & H3 & H4 & H5 & H6).
    destruct (attempt_frame service now m dateKey key (world_at n w))
      as [(F1 & F2 & F3 & F4 & F5 & F6) F7].
    split_and!; try congruence; lia. }
  destruct (obtain_outcome JSON_stringify service now offset key w Hmiss)
    as [(n & full & Hn & Hbefore & Hfull & Hw) | (Hall & e & He & Hw)].
  - destruct (Hframe n) as (G1 & G2 & G3 & G4 & G5).
    split_and!.
    + rewrite Hw. project_world. lia.
    + rewrite Hw. project_world. lia.
    + rewrite Hw. project_world. lia.
    + intros n' full' Hn' Hbefore' Hfull'.
      assert (n' = n) as ->.
      { destruct (Nat.lt_trichotomy n' n) as [Hlt|[Heq|Hgt]]; [|exact Heq|].
        - destruct (Hbefore n' Hlt) as [x Hx]. rewrite Hx in Hfull'. discriminate.
        - destruct (Hbefore' n Hgt) as [x Hx]. rewrite Hx in Hfull. discriminate. }
      assert (full' = full) as -> by (rewrite Hfull in Hfull'; now injection Hfull').
      pose proof (success_state JSON_stringify service now offset key n w full Hfull)
        as Hs.
      rewrite Hw. split_and!; [exact Hs | reflexivity |].
      intros Hd.
      destruct Hs as (_ & _ & _ & _ & _ & _ & _ & Ha).
      destruct Ha as (c & prompt & data & text & parsed & Ec & _ & _ & _ & _
                      & A1 & A2 & A3 & _).
      destruct (meta_in_tables now offset Hd) as (c' & d & Ec' & Hc & Ed & Hdiff).
      rewrite Ec in Ec'. injection Ec' as <-.
      rewrite Ed in A3. exists c, d. split_and!; assumption.
    + intros Hall. destruct (Hall n Hn) as [x Hx]. rewrite Hx in Hfull. discriminate.
  - destruct (Hframe 2%nat) as (G1 & G2 & G3 & G4 & G5).
    split_and!.
    + rewrite Hw. project_world. lia.
    + rewrite Hw. project_world. lia.
    + rewrite Hw. project_world. lia.
    + intros n' full' Hn' _ Hfull'.
      destruct (Hall n' Hn') as [x Hx]. rewrite Hx in Hfull'. discriminate.
    + intros _. exists e. rewrite Hw. project_world. split_and!; auto.
Qed.

End Bounded.

(** Two failures, then a record: three requests, one write, and the record
    of 2026-11-03 with its category and its difficulty. *)
Lemma bounded_generation_witness :
  let w' := loadOrGenerateChallenge JSON.stringify flaky a_clock 0 api_key
              (fresh_world ∅) in
  setItems w' = 1%nat /\ challenge w' = todays_challenge /\
  requests w' = 3%nat /\
  Js.get (challenge w') (JsStr.lit "category") = VStr (JsStr.lit "BTC Fundamentals") /\
  Js.get (challenge w') (JsStr.lit "diff") = VStr (JsStr.lit "Beginner") /\
  Js.get (challenge w') (JsStr.lit "day") = VNum (Fin 672 0) /\
  Js.get (challenge w') (JsStr.lit "dateKey") = VStr (JsStr.lit "2026-11-03") /\
  Js.get (challenge w') (JsStr.lit "title") = VStr (JsStr.lit "Whale wakes up").
Proof.
  cbv zeta.
  assert (Hmiss : localStorage (fresh_world ∅) !! challenge_key (dateKey_of a_clock 0)
                  = None) by reflexivity.
  destruct (bounded_generation JSON.stringify flaky a_clock 0 api_key
              (fresh_world ∅) Hmiss) as (_ & _ & Hs & _).
  assert (Hfails : forall j, (j < 2)%nat -> fails flaky a_clock 0 api_key j (fresh_world ∅)).
  { intros j Hj. destruct j as [|[|j]]; [| |lia].
    - exists (JsStr.lit "Failed to fetch"). vm_compute. reflexivity.
    - exists (parse_failure (JSON.UnexpectedToken 83)). vm_compute. reflexivity. }
  assert (Hfull : fst (generate flaky a_clock (getTodayMeta a_clock 0)
                         (dateKey_of a_clock 0) api_key
                         (attempt_world flaky a_clock 0 api_key 2 (fresh_world ∅)))
                  = ret todays_challenge) by (vm_compute; reflexivity).
  destruct (Hs 2%nat todays_challenge (le_n 3) Hfails Hfull)
    as [(_ & Hc & Hi & _) (Hr & _)].
  rewrite Hc.
  split_and!; [exact Hi | reflexivity | | vm_compute; reflexivity ..].
  rewrite Hr. vm_compute. reflexivity.
Defined.

(** C1 (the code departs from the claim). On a day of index -7, which is
    2026-11-03 with 679 days back, or 2024-12-24 itself, the category is
    the first of the table and the difficulty is [undefined]: the first
    attempt passes validation, and the record written once under the key
    of the day and exposed has no difficulty; neither has the record read
    back from the store. *)
Lemma partial_record_persisted :
  let w1 := loadOrGenerateChallenge JSON.stringify steady a_clock (-679) api_key
              (fresh_world ∅) in
  let w2 := loadOrGenerateChallenge JSON.stringify steady early_clock 0 api_key
              (fresh_world ∅) in
  day (getTodayMeta a_clock (-679)) = -7 /\ day (getTodayMeta early_clock 0) = -7 /\
  diff (getTodayMeta a_clock (-679)) = None /\
  (requests w1 = 1%nat /\ setItems w1 = 1%nat /\ genError w1 = [] /\
   Js.get (challenge w1) (JsStr.lit "title") = VStr (JsStr.lit "Whale wakes up") /\
   Js.get (challenge w1) (JsStr.lit "category") = VStr (JsStr.lit "BTC Fundamentals") /\
   Js.get (challenge w1) (JsStr.lit "diff") = VUndef /\
   Js.get (loadChallenge (localStorage w1) (JsStr.lit "offset_-7")) (JsStr.lit "title")
     = VStr (JsStr.lit "Whale wakes up") /\
   Js.get (loadChallenge (localStorage w1) (JsStr.lit "offset_-7")) (JsStr.lit "diff")
     = VUndef) /\
  (requests w2 = 1%nat /\ setItems w2 = 1%nat /\ genError w2 = [] /\
   Js.get (challenge w2) (JsStr.lit "diff") = VUndef /\
   Js.get (loadChallenge (localStorage w2) (JsStr.lit "2024-12-24")) (JsStr.lit "title")
     = VStr (JsStr.lit "Whale wakes up") /\
   Js.get (loadChallenge (localStorage w2) (JsStr.lit "2024-12-24")) (JsStr.lit "diff")
     = VUndef).
Proof. cbv zeta. split_and!; vm_compute; reflexivity. Qed.
